(** * Label reconciliation in lamindb: [lamindb/validation/_register.py]

    A shallow embedding of [register_labels], [log_registered_labels],
    [register_ulabels_with_parent] and [register_labels_from_using_instance],
    written over an explicit world (verbosity setting, trace of collaborator
    calls, registry backend), followed by the properties of the
    reconciliation engine. *)

From Stdlib Require Import List String Bool Arith Lia.
Import ListNotations.
Open Scope string_scope.
Open Scope list_scope.

Set Implicit Arguments.

(** ** Python data *)

(** A [dict] with string keys; insertion order is kept, as in Python. *)
Definition Dict (V : Type) := list (string * V).

Fixpoint dict_get {V : Type} (k : string) (d : Dict V) : option V :=
  match d with
  | [] => None
  | (k', v) :: d' => if String.eqb k k' then Some v else dict_get k d'
  end.

(** [d[k] = v]: an existing key keeps its position, a new key goes last. *)
Fixpoint dict_set {V : Type} (k : string) (v : V) (d : Dict V) : Dict V :=
  match d with
  | [] => [(k, v)]
  | (k', v') :: d' =>
      if String.eqb k k' then (k', v) :: d' else (k', v') :: dict_set k v d'
  end.

(** Keyword arguments, and records seen through their attributes. *)
Definition Kwargs := Dict string.
Definition Rec := Dict string.

(** [x in xs] on lists of strings. *)
Definition str_in (x : string) (xs : list string) : bool :=
  existsb (String.eqb x) xs.

(** The registry model a field belongs to.  [registry == ln.Feature] and
    [registry == ln.ULabel] compare the class; [hasattr(registry, "public")]
    is a property of the model, kept as a field. *)
Inductive RegistryClass :=
| Feature
| ULabel
| OtherRegistry (cls_name : string).

Record Registry := {
  reg_class : RegistryClass;
  reg_public : bool
}.

Definition is_Feature (r : Registry) : bool :=
  match reg_class r with Feature => true | _ => false end.

Definition is_ULabel (r : Registry) : bool :=
  match reg_class r with ULabel => true | _ => false end.

(** [registry.__name__] *)
Definition reg_name (r : Registry) : string :=
  match reg_class r with
  | Feature => "Feature"
  | ULabel => "ULabel"
  | OtherRegistry n => n
  end.

(** [FieldAttr]: [field.field.model] and [field.field.name]. *)
Record FieldAttr := {
  field_model : Registry;
  field_name : string
}.

(** Of a dataframe only the column labels are read. *)
Record DataFrame := { columns : list string }.

(** What [registry.inspect] hands back. *)
Record InspectResult := {
  validated : list string;
  non_validated : list string
}.

(** A registry bound to an instance: [None] is the current instance. *)
Record Handle := {
  h_registry : Registry;
  h_instance : option string
}.

Definition current (r : Registry) : Handle :=
  {| h_registry := r; h_instance := None |}.

Inductive Exn :=
| KeyError (k : string)
| AttributeError (attr : string)
| AssertionError
| ValidationError
| UnknownInstance (using_name : string)
| MultipleResultsFound
| OtherError (msg : string).

(** ** Trace of collaborator calls *)

(** The stage of the reconciliation a call site belongs to. *)
Inductive Stage :=
| Start
| LocalInspect
| CrossInstance
| PublicReference
| Placeholder
| HierarchyLink
| Report.

Definition Stage_eqb (a b : Stage) : bool :=
  match a, b with
  | Start, Start | LocalInspect, LocalInspect | CrossInstance, CrossInstance
  | PublicReference, PublicReference | Placeholder, Placeholder
  | HierarchyLink, HierarchyLink | Report, Report => true
  | _, _ => false
  end.

(** The data at hand where a logger message is built; the rendering of the
    text (f-strings, colors) is left out.  Not every field shows in every
    text: the warning of lines 179-189 names no key, and the success of
    lines 192-194 names no feature and leaves the key blank for
    "without reference". *)
Record LogMsg := {
  log_count : nat;
  log_labels_type : string;
  log_key : string;
  log_model_field : string;
  log_labels : list string;
  log_feature_name : string
}.

Inductive Op :=
| OCheckOrganism (organism : option string)
| OInspect (h : Handle) (values : list string)
| ORegistryUsing (using_name : string)
| OFilterIn (h : Handle) (values : list string)
| ORecordSave (r : Rec)
| OFromValues (values : list string)
| OSave (rs : list Rec)
| OFromDf (df : DataFrame)
| OConstruct (kw : Kwargs)
| OOneOrNone (nm : string)
| OChildrenAdd (parent : Rec) (children : list Rec)
| OLogWarning (m : LogMsg)
| OLogSuccess (m : LogMsg).

Definition Event := (Stage * Op)%type.

(** The events of one stage. *)
Definition stage_events (st : Stage) (tr : list Event) : list Event :=
  filter (fun e => Stage_eqb (fst e) st) tr.

(** ** Outcomes and the registry backend *)

Inductive Res (S A : Type) :=
| Ok (a : A) (s : S)
| Raise (e : Exn) (s : S).

Arguments Ok {S A} a s.
Arguments Raise {S A} e s.

(** The collaborators of the engine that live outside this module
    ([_validate.py], the registry models, [ln.save]); each works on the
    backend state and may raise. *)
Record Backend (B : Type) := {
  check_if_registry_needs_organism :
    Registry -> option string -> B -> Res B bool;
  registry_using : Registry -> string -> B -> Res B Handle;
  inspect :
    Handle -> list string -> FieldAttr -> Kwargs -> B -> Res B InspectResult;
  filter_in : Handle -> string -> list string -> B -> Res B (list Rec);
  record_save : Rec -> B -> Res B unit;
  from_values :
    Registry -> list string -> FieldAttr -> Kwargs -> B -> Res B (list Rec);
  ln_save : list Rec -> B -> Res B unit;
  Feature_from_df : DataFrame -> B -> Res B (list Rec);
  construct : Registry -> Kwargs -> B -> Res B Rec;
  filter_one_or_none : Registry -> string -> B -> Res B (option Rec);
  children_add : Rec -> list Rec -> B -> Res B unit
}.

(** The process: [ln.settings.verbosity], the calls made so far, and the
    registry backend. *)
Record World (B : Type) := {
  verbosity : string;
  trace : list Event;
  backend : B
}.

Definition M (B A : Type) := World B -> Res (World B) A.

Definition ret {B A : Type} (a : A) : M B A := fun w => Ok a w.

Definition raise {B A : Type} (e : Exn) : M B A := fun w => Raise e w.

Definition bind {B A C : Type} (m : M B A) (k : A -> M B C) : M B C :=
  fun w =>
    match m w with
    | Ok a w' => k a w'
    | Raise e w' => Raise e w'
    end.

Notation "x <- m ;; k" := (bind m (fun x => k))
  (at level 61, m at next level, right associativity).
Notation "m ;;; k" := (bind m (fun _ => k))
  (at level 61, right associativity).

(** [try: m finally: fin]; the [finally] block runs on both exits, and an
    exception it raises replaces the pending one. *)
Definition try_finally {B A : Type} (m : M B A) (fin : M B unit) : M B A :=
  fun w =>
    match m w with
    | Ok a w' =>
        match fin w' with
        | Ok _ w'' => Ok a w''
        | Raise e w'' => Raise e w''
        end
    | Raise e w' =>
        match fin w' with
        | Ok _ w'' => Raise e w''
        | Raise e' w'' => Raise e' w''
        end
    end.

Definition get_verbosity {B : Type} : M B string :=
  fun w => Ok (verbosity w) w.

Definition set_verbosity {B : Type} (v : string) : M B unit :=
  fun w => Ok tt {| verbosity := v; trace := trace w; backend := backend w |}.

Definition emit {B : Type} (st : Stage) (op : Op) : M B unit :=
  fun w =>
    Ok tt {| verbosity := verbosity w;
             trace := trace w ++ [(st, op)];
             backend := backend w |}.

(** A call into the backend, recorded in the trace before it runs. *)
Definition call {B A : Type} (st : Stage) (op : Op) (f : B -> Res B A)
  : M B A :=
  fun w =>
    let tr := trace w ++ [(st, op)] in
    match f (backend w) with
    | Ok a b => Ok a {| verbosity := verbosity w; trace := tr; backend := b |}
    | Raise e b =>
        Raise e {| verbosity := verbosity w; trace := tr; backend := b |}
    end.

Definition world_of {B A : Type} (r : Res (World B) A) : World B :=
  match r with
  | Ok _ w => w
  | Raise _ w => w
  end.

(** [m] leaves [ln.settings.verbosity] as it found it, on both exits. *)
Definition quiet {B A : Type} (m : M B A) : Prop :=
  forall w, verbosity (world_of (m w)) = verbosity w.

(** [m] only appends to the trace, and every event it appends satisfies
    [P]. *)
Definition adds {B : Type} (P : Event -> Prop) {A : Type} (m : M B A)
  : Prop :=
  forall w, exists d,
    trace (world_of (m w)) = trace w ++ d /\ Forall P d.

(** The world [w] with another trace and backend. *)
Definition retrace {B : Type} (w : World B) (tr : list Event) (b : B)
  : World B :=
  {| verbosity := verbosity w; trace := tr; backend := b |}.

(** [d[k]] *)
Definition getitem {B V : Type} (k : string) (d : Dict V) : M B V :=
  match dict_get k d with
  | Some v => ret v
  | None => raise (KeyError k)
  end.

(** [getattr(r, attr)] *)
Definition getattr {B : Type} (r : Rec) (attr : string) : M B string :=
  match dict_get attr r with
  | Some v => ret v
  | None => raise (AttributeError attr)
  end.

(** [[getattr(r, attr) for r in rs]] *)
Fixpoint getattrs {B : Type} (rs : list Rec) (attr : string)
  : M B (list string) :=
  match rs with
  | [] => ret []
  | r :: rs' =>
      v <- getattr r attr ;;
      vs <- getattrs rs' attr ;;
      ret (v :: vs)
  end.

(** [f"from {using}"] *)
Definition from_key (using_name : option string) : string :=
  ("from " ++ match using_name with
              | None => "None"
              | Some u => u
              end)%string.

(** How the [try] block of [register_labels] is left. *)
Inductive Flow :=
| Returned
| FellThrough (labels_registered : Dict (list string)).

(** What a caller could be handed: a bucket map and a parent label. *)
Definition ReportValue := (Dict (list string) * option Rec)%type.

(** ** The program *)

Section Program.

Variable B : Type.
Variable ops : Backend B.

(** [register_labels_from_using_instance], the loop of lines 242-244:
    every record found in the using instance is saved and its field value
    reported. *)
Fixpoint save_labels_using (labels_using : list Rec) (field : FieldAttr)
    (labels_registered : list string) : M B (list string) :=
  match labels_using with
  | [] => ret labels_registered
  | label_using :: rest =>
      call CrossInstance (ORecordSave label_using)
           (record_save ops label_using) ;;;
      v <- getattr label_using (field_name field) ;;
      save_labels_using rest field (labels_registered ++ [v])
  end.

(** [register_labels_from_using_instance] (lines 212-246).  [using_] is the
    source's [using]. *)
Definition register_labels_from_using_instance (values : list string)
    (field : FieldAttr) (using_ : option string) (kwargs : option Kwargs)
  : M B (list string * list string) :=
  let kwargs := match kwargs with None => [] | Some k => k end in
  let labels_registered : list string := [] in
  let not_registered := values in
  match using_ with
  | Some u =>
      if negb (String.eqb u "default") then
        let registry := field_model field in
        registry_using <- call CrossInstance (ORegistryUsing u)
                               (registry_using ops registry u) ;;
        inspect_result_using <-
          call CrossInstance (OInspect registry_using values)
               (inspect ops registry_using values field kwargs) ;;
        labels_using <-
          call CrossInstance
               (OFilterIn registry_using (validated inspect_result_using))
               (filter_in ops registry_using (field_name field)
                          (validated inspect_result_using)) ;;
        labels_registered <-
          save_labels_using labels_using field labels_registered ;;
        let not_registered := non_validated inspect_result_using in
        ret (labels_registered, not_registered)
      else ret (labels_registered, not_registered)
  | None => ret (labels_registered, not_registered)
  end.

(** [register_ulabels_with_parent] (lines 197-209). *)
Definition register_ulabels_with_parent (values : list string)
    (field : FieldAttr) (feature_name : string) : M B unit :=
  let registry := field_model field in
  if negb (is_ULabel registry) then raise AssertionError
  else
    all_records <- call HierarchyLink (OFromValues values)
                        (from_values ops registry values field []) ;;
    is_feature <- call HierarchyLink (OOneOrNone ("is_" ++ feature_name)%string)
                       (filter_one_or_none ops registry
                                           ("is_" ++ feature_name)%string) ;;
    is_feature <-
      match is_feature with
      | None =>
          let kw := [("name", ("is_" ++ feature_name)%string)] in
          r <- call HierarchyLink (OConstruct kw) (construct ops registry kw) ;;
          call HierarchyLink (ORecordSave r) (record_save ops r) ;;;
          ret r
      | Some r => ret r
      end ;;
    call HierarchyLink (OChildrenAdd is_feature all_records)
         (children_add ops is_feature all_records).

(** [log_registered_labels] (lines 167-194), one dict item at a time. *)
Definition log_item (labels_type feature_name model_field : string)
    (validated_only : bool) (item : string * list string) : M B unit :=
  let (key, labels) := item in
  if Nat.ltb 0 (List.length labels) then
    let msg := {| log_count := List.length labels;
                  log_labels_type := labels_type;
                  log_key := key;
                  log_model_field := model_field;
                  log_labels := labels;
                  log_feature_name := feature_name |} in
    if String.eqb key "without reference" && validated_only
    then emit Report (OLogWarning msg)
    else emit Report (OLogSuccess msg)
  else ret tt.

Fixpoint log_items (labels_type feature_name model_field : string)
    (validated_only : bool) (items : Dict (list string)) : M B unit :=
  match items with
  | [] => ret tt
  | item :: rest =>
      log_item labels_type feature_name model_field validated_only item ;;;
      log_items labels_type feature_name model_field validated_only rest
  end.

Definition log_registered_labels (labels_registered : Dict (list string))
    (feature_name model_field : string) (validated_only : bool) : M B unit :=
  let labels_type :=
    if String.eqb feature_name "feature" then "features" else "labels" in
  log_items labels_type feature_name model_field validated_only
            labels_registered.

(** [[i for i in xs if i not in d[key]]] (lines 131-133); the dict is
    indexed once per element, as the comprehension does. *)
Fixpoint not_in_bucket (xs : list string) (key : string)
    (d : Dict (list string)) : M B (list string) :=
  match xs with
  | [] => ret []
  | i :: rest =>
      bucket <- getitem key d ;;
      keep <- not_in_bucket rest key d ;;
      ret (if negb (str_in i bucket) then i :: keep else keep)
  end.

(** [[col for col in cols if col not in d[k1] and col not in d[k2]]]
    (lines 137-142); [and] does not index [d[k2]] when its left side is
    false. *)
Fixpoint not_in_buckets (cols : list string) (k1 k2 : string)
    (d : Dict (list string)) : M B (list string) :=
  match cols with
  | [] => ret []
  | col :: rest =>
      b1 <- getitem k1 d ;;
      here <- (if negb (str_in col b1)
               then b2 <- getitem k2 d ;; ret (negb (str_in col b2))
               else ret false) ;;
      keep <- not_in_buckets rest k1 k2 d ;;
      ret (if here then col :: keep else keep)
  end.

(** Lines 147-149: what one turn of the placeholder loop writes into
    [kwargs]. *)
Definition placeholder_kwargs (registry : Registry) (field : FieldAttr)
    (value : string) (kwargs : Kwargs) : Kwargs :=
  let kwargs := dict_set (field_name field) value kwargs in
  if is_Feature registry then dict_set "type" "category" kwargs else kwargs.

(** The keyword arguments of the successive constructor calls of the
    loop. *)
Fixpoint placeholder_kwargs_seq (registry : Registry) (field : FieldAttr)
    (vals : list string) (kwargs : Kwargs) : list Kwargs :=
  match vals with
  | [] => []
  | value :: rest =>
      let kwargs := placeholder_kwargs registry field value kwargs in
      kwargs :: placeholder_kwargs_seq registry field rest kwargs
  end.

(** The loop of lines 146-151; [kwargs] is the dict the loop writes to. *)
Fixpoint placeholder_records (registry : Registry) (field : FieldAttr)
    (vals : list string) (kwargs : Kwargs) (non_validated_records : list Rec)
  : M B (list Rec) :=
  match vals with
  | [] => ret non_validated_records
  | value :: rest =>
      let kwargs := placeholder_kwargs registry field value kwargs in
      r <- call Placeholder (OConstruct kwargs) (construct ops registry kwargs) ;;
      placeholder_records registry field rest kwargs
                          (non_validated_records ++ [r])
  end.

(** Lines 134-152: the placeholder records, made only when
    [validated_only] is off; the result is the bucket map the block
    leaves. *)
Definition placeholder_stage (registry : Registry) (field : FieldAttr)
    (using_ : option string) (validated_only : bool) (kwargs : Kwargs)
    (df : option DataFrame) (labels_registered : Dict (list string))
  : M B (Dict (list string)) :=
  if negb validated_only then
    match df with
    | Some df' =>
        if is_Feature registry then
          non_validated_records <-
            call Placeholder (OFromDf df') (Feature_from_df ops df') ;;
          without <- not_in_buckets (columns df') "from public"
                                    (from_key using_) labels_registered ;;
          let labels_registered :=
            dict_set "without reference" without labels_registered in
          call Placeholder (OSave non_validated_records)
               (ln_save ops non_validated_records) ;;;
          ret labels_registered
        else
          vals <- getitem "without reference" labels_registered ;;
          non_validated_records <-
            placeholder_records registry field vals kwargs [] ;;
          call Placeholder (OSave non_validated_records)
               (ln_save ops non_validated_records) ;;;
          ret labels_registered
    | None =>
        vals <- getitem "without reference" labels_registered ;;
        non_validated_records <-
          placeholder_records registry field vals kwargs [] ;;
        call Placeholder (OSave non_validated_records)
             (ln_save ops non_validated_records) ;;;
        ret labels_registered
    end
  else ret labels_registered.

(** Lines 122-126: the records built from the public reference, for the
    values the using instance left over. *)
Definition from_values_records (registry : Registry) (field : FieldAttr)
    (kwargs : Kwargs) (non_validated_labels : list string)
  : M B (list Rec) :=
  if Nat.ltb 0 (List.length non_validated_labels)
  then call PublicReference (OFromValues non_validated_labels)
            (from_values ops registry non_validated_labels field kwargs)
  else ret [].

(** The [try] block of [register_labels] (lines 97-156); [validated_only]
    is the value left by lines 91-92 and [verbosity] the one read at
    line 95. *)
Definition register_labels_try (values : list string) (field : FieldAttr)
    (feature_name : string) (using_ : option string) (validated_only : bool)
    (kwargs : Kwargs) (df : option DataFrame) (verbosity : string)
  : M B Flow :=
  let registry := field_model field in
  set_verbosity "error" ;;;
  inspect_result_current <-
    call LocalInspect (OInspect (current registry) values)
         (inspect ops (current registry) values field kwargs) ;;
  if Nat.eqb (List.length (non_validated inspect_result_current)) 0 then
    set_verbosity verbosity ;;;
    ret Returned
  else
    let labels_registered : Dict (list string) :=
      [("from public", []); ("without reference", [])] in
    res <- register_labels_from_using_instance
             (non_validated inspect_result_current) field using_
             (Some kwargs) ;;
    let labels_registered :=
      dict_set (from_key using_) (fst res) labels_registered in
    let non_validated_labels := snd res in
    from_values_records <-
      from_values_records registry field kwargs non_validated_labels ;;
    call PublicReference (OSave from_values_records)
         (ln_save ops from_values_records) ;;;
    from_public <- getattrs from_values_records (field_name field) ;;
    let labels_registered :=
      dict_set "from public" from_public labels_registered in
    without <- not_in_bucket non_validated_labels "from public"
                             labels_registered ;;
    let labels_registered :=
      dict_set "without reference" without labels_registered in
    labels_registered <-
      placeholder_stage registry field using_ validated_only kwargs df
                        labels_registered ;;
    (if is_ULabel registry && String.eqb (field_name field) "name"
     then register_ulabels_with_parent values field feature_name
     else ret tt) ;;;
    ret (FellThrough labels_registered).

(** [register_labels] (lines 68-164).  The function has no [return] that
    carries a value: the result is Python's [None] on every normal exit. *)
Definition register_labels (values : list string) (field : FieldAttr)
    (feature_name : string) (using_ : option string) (validated_only : bool)
    (kwargs : option Kwargs) (df : option DataFrame)
  : M B (option ReportValue) :=
  let kwargs := match kwargs with None => [] | Some k => k end in
  let registry := field_model field in
  let validated_only := if negb (reg_public registry) then false
                        else validated_only in
  call Start (OCheckOrganism (dict_get "organism" kwargs))
       (check_if_registry_needs_organism ops registry
                                         (dict_get "organism" kwargs)) ;;;
  verbosity <- get_verbosity ;;
  flow <- try_finally
            (register_labels_try values field feature_name using_
                                 validated_only kwargs df verbosity)
            (set_verbosity verbosity) ;;
  match flow with
  | Returned => ret None
  | FellThrough labels_registered =>
      log_registered_labels labels_registered feature_name
        (reg_name registry ++ "." ++ field_name field)%string validated_only ;;;
      ret None
  end.

End Program.

(** ** A registry store

    The registry models, [ln.save] and [_validate.py] are not part of this
    module; the store below stands for them. *)

(** Equality of records, attribute by attribute. *)
Fixpoint Rec_eqb (a b : Rec) : bool :=
  match a, b with
  | [], [] => true
  | (k, v) :: a', (k', v') :: b' =>
      String.eqb k k' && String.eqb v v' && Rec_eqb a' b'
  | _, _ => false
  end.

Definition rec_in (r : Rec) (rs : list Rec) : bool := existsb (Rec_eqb r) rs.

(** [getattr(r, attr) == v] *)
Definition has_attr (attr v : string) (r : Rec) : bool :=
  match dict_get attr r with
  | Some x => String.eqb x v
  | None => false
  end.

(** [getattr(r, attr) in vals] *)
Definition attr_in (attr : string) (vals : list string) (r : Rec) : bool :=
  match dict_get attr r with
  | Some x => str_in x vals
  | None => false
  end.

(** Some record carries [v] under [attr]. *)
Definition known (attr : string) (rs : list Rec) (v : string) : bool :=
  existsb (has_attr attr v) rs.

(** [getattr(r, attr)] of a record that has the attribute. *)
Definition attr_of (attr : string) (r : Rec) : string :=
  match dict_get attr r with
  | Some v => v
  | None => ""
  end.

(** The distinct values of a list, first occurrences kept. *)
Fixpoint distinct (xs : list string) : list string :=
  match xs with
  | [] => []
  | x :: rest => x :: filter (fun y => negb (String.eqb y x)) (distinct rest)
  end.

Record Store := {
  local : list Rec;
  instances : Dict (list Rec);
  public : list string;
  links : list (Rec * Rec);
  organism_scoped : bool
}.

Definition with_local (st : Store) (rs : list Rec) : Store :=
  {| local := rs; instances := instances st; public := public st;
     links := links st; organism_scoped := organism_scoped st |}.

Definition with_links (st : Store) (ls : list (Rec * Rec)) : Store :=
  {| local := local st; instances := instances st; public := public st;
     links := ls; organism_scoped := organism_scoped st |}.

(** The records a handle gives access to. *)
Definition records_of (h : Handle) (st : Store) : option (list Rec) :=
  match h_instance h with
  | None => Some (local st)
  | Some u => dict_get u (instances st)
  end.

(** Modelled from the spec: [check_if_registry_needs_organism] of
    [_validate.py] is missing; section 6, "context requirement predicate",
    and section 7, "missing-context error": a context-sensitive registry
    queried without organism fails, otherwise the answer is whether the
    registry is context-sensitive. *)
Definition store_check_organism (_ : Registry) (organism : option string)
    (st : Store) : Res Store bool :=
  if organism_scoped st then
    match organism with
    | None => Raise ValidationError st
    | Some _ => Ok true st
    end
  else Ok false st.

(** Modelled from the spec: [_registry_using] of [_validate.py] is missing;
    section 6, "instance resolution capability": a handle scoped to the
    named instance, or a "no such instance" error. *)
Definition store_registry_using (registry : Registry) (u : string)
    (st : Store) : Res Store Handle :=
  match dict_get u (instances st) with
  | Some _ => Ok {| h_registry := registry; h_instance := Some u |} st
  | None => Raise (UnknownInstance u) st
  end.

(** Modelled from the spec: the registry's [inspect] is missing; section
    4.1: duplicates are coalesced and the distinct values are split into
    those present under the field and the others, with no side effect. *)
Definition store_inspect (h : Handle) (values : list string)
    (field : FieldAttr) (_ : Kwargs) (st : Store)
  : Res Store InspectResult :=
  match records_of h st with
  | Some rs =>
      Ok {| validated := filter (known (field_name field) rs)
                                (distinct values);
            non_validated :=
              filter (fun v => negb (known (field_name field) rs v))
                     (distinct values) |} st
  | None =>
      Raise (UnknownInstance match h_instance h with
                             | Some u => u
                             | None => "default"
                             end) st
  end.

(** Modelled from the spec: the registry's [filter(<name>__in=...).all()]
    is missing; section 6: the records whose field value is in the list. *)
Definition store_filter_in (h : Handle) (attr : string) (vals : list string)
    (st : Store) : Res Store (list Rec) :=
  match records_of h st with
  | Some rs => Ok (filter (attr_in attr vals) rs) st
  | None =>
      Raise (UnknownInstance match h_instance h with
                             | Some u => u
                             | None => "default"
                             end) st
  end.

(** Modelled from the spec: a record's [save] is missing; section 4.2:
    persisting into the local registry is safe to repeat, a record
    already stored is not inserted again. *)
Definition persist (r : Rec) (rs : list Rec) : list Rec :=
  if rec_in r rs then rs else rs ++ [r].

Definition store_record_save (r : Rec) (st : Store) : Res Store unit :=
  Ok tt (with_local st (persist r (local st))).

(** Modelled from the spec: [ln.save] is missing; section 4.3, "bulk-saved":
    every record of the sequence is persisted, in order. *)
Definition persist_all (rs : list Rec) (stored : list Rec) : list Rec :=
  fold_left (fun acc r => persist r acc) rs stored.

Definition store_ln_save (rs : list Rec) (st : Store) : Res Store unit :=
  Ok tt (with_local st (persist_all rs (local st))).

(** Modelled from the spec: the registry's [from_values] is missing;
    sections 4.3 and 4.5: one canonical record per distinct value, the
    stored one when the value is present under the field, else one built
    from the public reference; a value that cannot be constructed is
    absent from the result. *)
Definition record_for (field : FieldAttr) (st : Store) (v : string)
  : list Rec :=
  match find (has_attr (field_name field) v) (local st) with
  | Some r => [r]
  | None =>
      if str_in v (public st) then [[(field_name field, v)]] else []
  end.

Definition store_from_values (_ : Registry) (values : list string)
    (field : FieldAttr) (_ : Kwargs) (st : Store) : Res Store (list Rec) :=
  Ok (flat_map (record_for field st) (distinct values)) st.

(** Modelled from the spec: [ln.Feature.from_df] is missing; section 4.4:
    candidate feature records are derived from the column labels. *)
Definition store_from_df (df : DataFrame) (st : Store)
  : Res Store (list Rec) :=
  Ok (map (fun col => [("name", col)]) (columns df)) st.

(** Modelled from the spec: the registry constructor is missing; section
    4.4: a minimal record carrying the attributes it is given. *)
Definition store_construct (_ : Registry) (kw : Kwargs) (st : Store)
  : Res Store Rec :=
  Ok kw st.

(** Modelled from the spec: [filter(name=...).one_or_none()] is missing;
    section 4.5, "look up a parent record": the stored record of that
    name, none, or an error when several are stored. *)
Definition store_one_or_none (_ : Registry) (nm : string) (st : Store)
  : Res Store (option Rec) :=
  match filter (has_attr "name" nm) (local st) with
  | [] => Ok None st
  | [r] => Ok (Some r) st
  | _ => Raise MultipleResultsFound st
  end.

(** Modelled from the spec: [children.add] is missing; section 4.5:
    adding an already-linked child is a no-op. *)
Definition link_in (p c : Rec) (ls : list (Rec * Rec)) : bool :=
  existsb (fun l => Rec_eqb (fst l) p && Rec_eqb (snd l) c) ls.

Definition add_link (p : Rec) (ls : list (Rec * Rec)) (c : Rec)
  : list (Rec * Rec) :=
  if link_in p c ls then ls else ls ++ [(p, c)].

Definition store_children_add (parent : Rec) (children : list Rec)
    (st : Store) : Res Store unit :=
  Ok tt (with_links st (fold_left (add_link parent) children (links st))).

Definition store_ops : Backend Store :=
  {| check_if_registry_needs_organism := store_check_organism;
     registry_using := store_registry_using;
     inspect := store_inspect;
     filter_in := store_filter_in;
     record_save := store_record_save;
     from_values := store_from_values;
     ln_save := store_ln_save;
     Feature_from_df := store_from_df;
     construct := store_construct;
     filter_one_or_none := store_one_or_none;
     children_add := store_children_add |}.

(** The values of a call that the local registry does not validate. *)
Definition unresolved (field : FieldAttr) (st : Store)
    (values : list string) : list string :=
  filter (fun v => negb (known (field_name field) (local st) v))
         (distinct values).

(** A value the public reference stage can produce a record for. *)
Definition resolvable (field : FieldAttr) (st : Store) (v : string) : bool :=
  known (field_name field) (local st) v || str_in v (public st).

(** The records the cross-instance stage copies: those of the using
    instance whose field value it validates. *)
Definition using_labels (field : FieldAttr) (rs : list Rec)
    (vals : list string) : list Rec :=
  filter (attr_in (field_name field)
                  (filter (known (field_name field) rs) (distinct vals)))
         rs.

(** *** What each stage leaves on the store

    The functions below state, stage by stage, the result of the [try]
    block of [register_labels] on the store; [register_labels_try_store]
    proves that the program computes them. *)

(** The instance the cross-instance stage turns to, if any. *)
Definition remote_instance (using_ : option string) : option string :=
  match using_ with
  | Some u => if String.eqb u "default" then None else Some u
  | None => None
  end.

(** Cross-instance stage: the values copied, the values left over and the
    store after the copies; [None] when the instance is unknown. *)
Definition using_outcome (field : FieldAttr) (st : Store)
    (using_ : option string) (vals : list string)
  : option (list string * list string * Store) :=
  match remote_instance using_ with
  | None => Some ([], vals, st)
  | Some u =>
      match dict_get u (instances st) with
      | None => None
      | Some rs =>
          Some (map (attr_of (field_name field)) (using_labels field rs vals),
                filter (fun v => negb (known (field_name field) rs v))
                       (distinct vals),
                with_local st (persist_all (using_labels field rs vals)
                                           (local st)))
      end
  end.

(** Public reference stage: the records built for the left-over values. *)
Definition public_records (field : FieldAttr) (st : Store)
    (nvl : list string) : list Rec :=
  flat_map (record_for field st) (distinct nvl).

(** The bucket map after lines 108-133. *)
Definition buckets_after_public (using_ : option string)
    (from_using from_public nvl : list string) : Dict (list string) :=
  let lr := dict_set (from_key using_) from_using
                     [("from public", []); ("without reference", [])] in
  let lr := dict_set "from public" from_public lr in
  dict_set "without reference"
           (filter (fun i => negb (str_in i from_public)) nvl) lr.

(** A bucket of the map, empty when the key is missing. *)
Definition bucket (key : string) (lr : Dict (list string)) : list string :=
  match dict_get key lr with
  | Some b => b
  | None => []
  end.

(** The dataframe path of the placeholder stage is taken. *)
Definition df_path (registry : Registry) (validated_only : bool)
    (df : option DataFrame) : bool :=
  negb validated_only
  && match df with
     | Some _ => is_Feature registry
     | None => false
     end.

(** Placeholder stage (lines 134-152): the bucket map and the store it
    leaves. *)
Definition placeholder_outcome (registry : Registry) (field : FieldAttr)
    (using_ : option string) (validated_only : bool) (kwargs : Kwargs)
    (df : option DataFrame) (lr : Dict (list string)) (st : Store)
  : Dict (list string) * Store :=
  let generic :=
    (lr, with_local st
           (persist_all (placeholder_kwargs_seq registry field
                           (bucket "without reference" lr) kwargs)
                        (local st))) in
  if validated_only then (lr, st)
  else
    match df with
    | Some df' =>
        if is_Feature registry then
          (dict_set "without reference"
             (filter (fun c =>
                        negb (str_in c (bucket "from public" lr))
                        && negb (str_in c (bucket (from_key using_) lr)))
                     (columns df'))
             lr,
           with_local st
             (persist_all (map (fun col => [("name", col)]) (columns df'))
                          (local st)))
        else generic
    | None => generic
    end.

(** Hierarchy linker: the store it leaves; [None] when several records
    carry the parent's name. *)
Definition linker_outcome (field : FieldAttr) (feature_name : string)
    (values : list string) (st : Store) : option Store :=
  let all_records := flat_map (record_for field st) (distinct values) in
  let parent := [("name", ("is_" ++ feature_name)%string)] in
  match filter (has_attr "name" ("is_" ++ feature_name)%string) (local st) with
  | [] =>
      Some (with_links (with_local st (persist parent (local st)))
                       (fold_left (add_link parent) all_records (links st)))
  | [r] =>
      Some (with_links st (fold_left (add_link r) all_records (links st)))
  | _ => None
  end.

(** The [try] block past the local inspection: the bucket map and the
    store, or [None] when a stage raises. *)
Definition store_outcome (values : list string) (field : FieldAttr)
    (feature_name : string) (using_ : option string) (validated_only : bool)
    (kwargs : Kwargs) (df : option DataFrame) (st : Store)
  : option (Dict (list string) * Store) :=
  let registry := field_model field in
  match using_outcome field st using_ (unresolved field st values) with
  | None => None
  | Some (from_using, nvl, st2) =>
      let fvr := public_records field st2 nvl in
      let st3 := with_local st2 (persist_all fvr (local st2)) in
      let lr := buckets_after_public using_ from_using
                  (map (attr_of (field_name field)) fvr) nvl in
      let (lr, st4) :=
        placeholder_outcome registry field using_ validated_only kwargs df
                            lr st3 in
      if is_ULabel registry && String.eqb (field_name field) "name" then
        match linker_outcome field feature_name values st4 with
        | Some st5 => Some (lr, st5)
        | None => None
        end
      else Some (lr, st4)
  end.

(** A world at rest: nothing traced yet. *)
Definition initial (v : string) (st : Store) : World Store :=
  {| verbosity := v; trace := []; backend := st |}.

(** The records the placeholder stage saves. *)
Definition placeholder_saved (registry : Registry) (field : FieldAttr)
    (validated_only : bool) (kwargs : Kwargs) (df : option DataFrame)
    (lr : Dict (list string)) : list Rec :=
  if validated_only then []
  else if df_path registry validated_only df then
    match df with
    | Some df' => map (fun col => [("name", col)]) (columns df')
    | None => []
    end
  else placeholder_kwargs_seq registry field
         (bucket "without reference" lr) kwargs.

(** [st'] holds every record of [st], and the using instances, the public
    reference and the organism scoping are those of [st]. *)
Definition grows (st st' : Store) : Prop :=
  (forall r, In r (local st) -> In r (local st'))
  /\ instances st' = instances st
  /\ public st' = public st
  /\ organism_scoped st' = organism_scoped st.

(** *** Repeated calls of the hierarchy linker *)

(** The linker called once per value list of [calls], one call after the
    other and nothing in between. *)
Fixpoint link_calls {B : Type} (ops : Backend B) (calls : list (list string))
    (field : FieldAttr) (feature_name : string) : M B unit :=
  match calls with
  | [] => ret tt
  | values :: rest =>
      register_ulabels_with_parent ops values field feature_name ;;;
      link_calls ops rest field feature_name
  end.

(** The linker constructs a record (line 206). *)
Definition is_parent_construct (e : Event) : bool :=
  match e with
  | (HierarchyLink, OConstruct _) => true
  | _ => false
  end.

(** The stored records named [is_<feature_name>]. *)
Definition parents (feature_name : string) (st : Store) : list Rec :=
  filter (has_attr "name" ("is_" ++ feature_name)%string) (local st).

(** The parent every [children.add] of a trace is called on is [p]. *)
Definition links_under (p : Rec) (tr : list Event) : Prop :=
  forall parent children,
    In (HierarchyLink, OChildrenAdd parent children) tr -> parent = p.

(** ** Example registries and calls *)

Module Examples.

(** A registry with a public reference, matched by name. *)
Definition tissue : FieldAttr :=
  {| field_model := {| reg_class := OtherRegistry "Tissue";
                       reg_public := true |};
     field_name := "name" |}.

(** Free-form labels by name; the model has no [public] attribute. *)
Definition ulabel : FieldAttr :=
  {| field_model := {| reg_class := ULabel; reg_public := false |};
     field_name := "name" |}.

(** Features by name; the model has no [public] attribute. *)
Definition feature : FieldAttr :=
  {| field_model := {| reg_class := Feature; reg_public := false |};
     field_name := "name" |}.

Definition named (v : string) : Rec := [("name", v)].

(** ["liver"] is known locally, ["heart"] in the instance ["atlas"], and
    the public reference knows neither. *)
Definition tissue_store : Store :=
  {| local := [named "liver"];
     instances := [("atlas", [named "heart"])];
     public := [];
     links := [];
     organism_scoped := false |}.

(** As [tissue_store], with ["liver"] in the instance ["atlas"] too. *)
Definition shared_store : Store :=
  {| local := [named "liver"];
     instances := [("atlas", [named "heart"; named "liver"])];
     public := [];
     links := [];
     organism_scoped := false |}.

Definition tissue_values : list string := ["liver"; "heart"; "unknowntissue"].

(** A using instance that goes by the name ["public"]. *)
Definition public_named_store : Store :=
  {| local := [named "liver"];
     instances := [("public", [named "heart"])];
     public := [];
     links := [];
     organism_scoped := false |}.

(** A store that already holds the feature ["age"]. *)
Definition feature_store : Store :=
  {| local := [named "age"];
     instances := [];
     public := [];
     links := [];
     organism_scoped := false |}.

Definition measurements : DataFrame := {| columns := ["age"; "dose"] |}.

(** A registry of labels that holds ["liver"] and ["heart"] and no parent
    label yet. *)
Definition labels_store : Store :=
  {| local := [named "liver"; named "heart"];
     instances := [];
     public := [];
     links := [];
     organism_scoped := false |}.

Definition empty_store : Store :=
  {| local := [];
     instances := [];
     public := [];
     links := [];
     organism_scoped := false |}.

End Examples.

(** ** Reading the trace *)

(** [len(labels) > 0] *)
Definition nonempty_bucket (item : string * list string) : bool :=
  Nat.ltb 0 (List.length (snd item)).

(** A message of [log_registered_labels] for the bucket [item]: a warning
    for "without reference" under [validated_only], a success
    otherwise. *)
Definition reports (labels_type feature_name model_field : string)
    (validated_only : bool) (item : string * list string) (e : Event)
  : Prop :=
  let msg := {| log_count := List.length (snd item);
                log_labels_type := labels_type;
                log_key := fst item;
                log_model_field := model_field;
                log_labels := snd item;
                log_feature_name := feature_name |} in
  (String.eqb (fst item) "without reference" && validated_only = true
   /\ e = (Report, OLogWarning msg))
  \/ (String.eqb (fst item) "without reference" && validated_only = false
      /\ e = (Report, OLogSuccess msg)).

(** The place of a stage in the body of [register_labels]: the organism
    check of line 89, the inspection of lines 100-102, the using instance
    of lines 108-113, the public reference of lines 122-129, the
    placeholders of lines 134-152, the parent link of lines 154-156 and
    the report of lines 159-164. *)
Definition stage_rank (s : Stage) : nat :=
  match s with
  | Start => 0
  | LocalInspect => 1
  | CrossInstance => 2
  | PublicReference => 3
  | Placeholder => 4
  | HierarchyLink => 5
  | Report => 6
  end.

(** The events [d] come stage after stage, none of them from a stage
    before [lo]. *)
Fixpoint in_stage_order (lo : nat) (d : list Event) : bool :=
  match d with
  | [] => true
  | e :: d' =>
      Nat.leb lo (stage_rank (fst e))
      && in_stage_order (stage_rank (fst e)) d'
  end.

(** [m] appends events of the stages [lo] to [hi] only, stage after
    stage. *)
Definition staged {B A : Type} (lo hi : nat) (m : M B A) : Prop :=
  forall w, exists d,
    trace (world_of (m w)) = trace w ++ d
    /\ in_stage_order lo d = true
    /\ Forall (fun e => stage_rank (fst e) <= hi) d.

(** ** Registering an artifact *)

(** A table seen through its columns: [df[name]] is the column [name]. *)
Definition Table := Dict (list string).

(** [data]: an [ad.AnnData], of which [data.obs] and [data.n_obs] are
    read, a [pd.DataFrame], or an object of another type. *)
Inductive Data :=
| AnnData (obs : Table) (n_obs : nat)
| PandasFrame (tbl : Table)
| OtherData.

(** The table the loop of lines 50-58 reads its columns from. *)
Definition data_table (data : Data) : Table :=
  match data with
  | AnnData obs _ => obs
  | PandasFrame tbl => tbl
  | OtherData => []
  end.

(** Keyword arguments that may carry [None]: [organism] is forwarded as
    popped, [None] included. *)
Definition PyKwargs := Dict (option string).

(** [kwargs.copy()], seen as such arguments. *)
Definition py_kwargs (kwargs : Kwargs) : PyKwargs :=
  map (fun item => (fst item, Some (snd item))) kwargs.

(** [del d[k]] *)
Fixpoint dict_remove {V : Type} (k : string) (d : Dict V) : Dict V :=
  match d with
  | [] => []
  | (k', v) :: d' =>
      if String.eqb k k' then dict_remove k d'
      else (k', v) :: dict_remove k d'
  end.

(** The artifact object, by reference. *)
Definition Artifact := nat.

(** [ValueError(msg)] *)
Definition ValueError (msg : string) : Exn :=
  OtherError ("ValueError: " ++ msg)%string.

(** The calls [register_artifact] makes, with their arguments. *)
Inductive ArtifactCall :=
| CFromAnndata (data : Data) (description : string)
| CFromDf (data : Data) (description : string)
| CSetNObservations (artifact : Artifact) (n : nat)
| CArtifactSave (artifact : Artifact)
| CNeedsOrganism (registry : Registry) (organism : option string)
| CAddFromAnndata (artifact : Artifact) (var_field : FieldAttr)
                  (kw : PyKwargs)
| CAddFromDf (artifact : Artifact) (field : FieldAttr) (kw : PyKwargs)
| CFeatureLookup
| CFromValues (registry : Registry) (values : list string)
              (field : FieldAttr) (kw : PyKwargs)
| CLabelsAdd (artifact : Artifact) (labels : list Rec)
             (feature : option Rec)
| CSlug
| CIsRemote
| CUid (artifact : Artifact)
| CLogSuccess (slug : string)
| CLogInfo (slug uid : string).

(** The collaborators of [register_artifact]: [ln.Artifact], the feature
    and label managers of an artifact, [ln.Feature.lookup().dict()], the
    registry models, [check_if_registry_needs_organism] and the instance
    settings; each works on the backend state and may raise. *)
Record ArtifactOps (B : Type) := {
  Artifact_from_anndata : Data -> string -> B -> Res B Artifact;
  Artifact_from_df : Data -> string -> B -> Res B Artifact;
  set_n_observations : Artifact -> nat -> B -> Res B unit;
  artifact_save : Artifact -> B -> Res B unit;
  needs_organism : Registry -> option string -> B -> Res B bool;
  features_add_from_anndata :
    Artifact -> FieldAttr -> PyKwargs -> B -> Res B unit;
  features_add_from_df :
    Artifact -> FieldAttr -> PyKwargs -> B -> Res B unit;
  Feature_lookup_dict : B -> Res B (Dict Rec);
  registry_from_values :
    Registry -> list string -> FieldAttr -> PyKwargs -> B
    -> Res B (list Rec);
  labels_add : Artifact -> list Rec -> option Rec -> B -> Res B unit;
  instance_slug : B -> Res B string;
  instance_is_remote : B -> Res B bool;
  artifact_uid : Artifact -> B -> Res B string
}.

(** The calls made so far, and the state the collaborators work on. *)
Record ArtifactState (B : Type) := {
  art_calls : list ArtifactCall;
  art_backend : B
}.

(** A call to a collaborator, recorded before it runs. *)
Definition acall {B A : Type} (c : ArtifactCall) (f : B -> Res B A)
  : M (ArtifactState B) A :=
  fun w =>
    let cs := art_calls (backend w) ++ [c] in
    match f (art_backend (backend w)) with
    | Ok a b => Ok a (retrace w (trace w) {| art_calls := cs;
                                             art_backend := b |})
    | Raise e b => Raise e (retrace w (trace w) {| art_calls := cs;
                                                   art_backend := b |})
    end.

(** A logger call. *)
Definition alog {B : Type} (c : ArtifactCall) : M (ArtifactState B) unit :=
  fun w =>
    Ok tt (retrace w (trace w)
                   {| art_calls := art_calls (backend w) ++ [c];
                      art_backend := art_backend (backend w) |}).

Section ArtifactProgram.

Variable B : Type.
Variable ops : ArtifactOps B.

(** One turn of the loop of lines 50-58; [kwargs] is what line 38 left of
    the keyword arguments and [df] the table of line 56. *)
Definition link_field (artifact : Artifact) (df : Table)
    (features : Dict Rec) (organism : option string) (kwargs : Kwargs)
    (item : string * FieldAttr) : M (ArtifactState B) unit :=
  let (feature_name, field) := item in
  let feature := dict_get feature_name features in
  let registry := field_model field in
  let filter_kwargs := py_kwargs kwargs in
  needed <- acall (CNeedsOrganism registry organism)
                  (needs_organism ops registry organism) ;;
  let filter_kwargs :=
    if needed then dict_set "organism" organism filter_kwargs
    else filter_kwargs in
  column <- getitem feature_name df ;;
  labels <- acall (CFromValues registry column field filter_kwargs)
                  (registry_from_values ops registry column field
                                        filter_kwargs) ;;
  acall (CLabelsAdd artifact labels feature)
        (labels_add ops artifact labels feature).

Fixpoint link_fields (artifact : Artifact) (df : Table)
    (features : Dict Rec) (organism : option string) (kwargs : Kwargs)
    (fields : Dict FieldAttr) : M (ArtifactState B) unit :=
  match fields with
  | [] => ret tt
  | item :: rest =>
      link_field artifact df features organism kwargs item ;;;
      link_fields artifact df features organism kwargs rest
  end.

(** Lines 36-65, once the artifact is made; [anndata] is the test
    [isinstance(data, ad.AnnData)], which lines 42 and 56 repeat, and [df]
    is [data.obs] or [data] accordingly. *)
Definition register_artifact_made (artifact : Artifact) (anndata : bool)
    (df : Table) (fields : Dict FieldAttr) (feature_field : FieldAttr)
    (kwargs : Kwargs) : M (ArtifactState B) Artifact :=
  acall (CArtifactSave artifact) (artifact_save ops artifact) ;;;
  let organism := dict_get "organism" kwargs in
  let kwargs := dict_remove "organism" kwargs in
  let feature_kwargs : PyKwargs := [] in
  needed <- acall (CNeedsOrganism (field_model feature_field) organism)
                  (needs_organism ops (field_model feature_field)
                                  organism) ;;
  let feature_kwargs :=
    if needed then dict_set "organism" organism feature_kwargs
    else feature_kwargs in
  (if anndata
   then acall (CAddFromAnndata artifact feature_field feature_kwargs)
              (features_add_from_anndata ops artifact feature_field
                                         feature_kwargs)
   else acall (CAddFromDf artifact feature_field feature_kwargs)
              (features_add_from_df ops artifact feature_field
                                    feature_kwargs)) ;;;
  features <- acall CFeatureLookup (Feature_lookup_dict ops) ;;
  link_fields artifact df features organism kwargs fields ;;;
  slug <- acall CSlug (instance_slug ops) ;;
  alog (CLogSuccess slug) ;;;
  remote <- acall CIsRemote (instance_is_remote ops) ;;
  (if remote
   then uid <- acall (CUid artifact) (artifact_uid ops artifact) ;;
        alog (CLogInfo slug uid)
   else ret tt) ;;;
  ret artifact.

(** [register_artifact] (lines 13-65). *)
Definition register_artifact (data : Data) (description : string)
    (fields : Dict FieldAttr) (feature_field : FieldAttr) (kwargs : Kwargs)
  : M (ArtifactState B) Artifact :=
  match data with
  | AnnData obs n_obs =>
      artifact <- acall (CFromAnndata data description)
                        (Artifact_from_anndata ops data description) ;;
      acall (CSetNObservations artifact n_obs)
            (set_n_observations ops artifact n_obs) ;;;
      register_artifact_made artifact true obs fields feature_field kwargs
  | PandasFrame tbl =>
      artifact <- acall (CFromDf data description)
                        (Artifact_from_df ops data description) ;;
      register_artifact_made artifact false tbl fields feature_field kwargs
  | OtherData =>
      raise (ValueError "data must be a DataFrame or AnnData object")
  end.

End ArtifactProgram.

(** *** Reading the calls *)

(** [m] only appends to the calls, and every call it appends satisfies
    [P]. *)
Definition calls {B A : Type} (P : ArtifactCall -> Prop)
    (m : M (ArtifactState B) A) : Prop :=
  forall w, exists d,
    art_calls (backend (world_of (m w))) = art_calls (backend w) ++ d
    /\ Forall P d.

(** What a call hands on of the arguments of [register_artifact]: the
    organism asked about is the one the caller passed; a lookup of labels
    is for an entry of [fields], on the column of that name, with the
    caller's keyword arguments and, at most, the organism added. *)
Definition forwards (data : Data) (fields : Dict FieldAttr)
    (kwargs : Kwargs) (c : ArtifactCall) : Prop :=
  match c with
  | CNeedsOrganism _ organism => organism = dict_get "organism" kwargs
  | CFromValues registry values field kw =>
      (exists feature_name,
          In (feature_name, field) fields
          /\ dict_get feature_name (data_table data) = Some values)
      /\ registry = field_model field
      /\ (forall k, k <> "organism" ->
                    dict_get k kw = option_map Some (dict_get k kwargs))
      /\ (dict_get "organism" kw = None
          \/ dict_get "organism" kw = Some (dict_get "organism" kwargs))
  | _ => True
  end.

(** The artifact and the feature of every [artifact.labels.add]. *)
Definition labels_added (d : list ArtifactCall)
  : list (Artifact * option Rec) :=
  flat_map (fun c => match c with
                     | CLabelsAdd a _ feature => [(a, feature)]
                     | _ => []
                     end) d.

(** A call that attaches features or labels to an artifact. *)
Definition attaches (c : ArtifactCall) : bool :=
  match c with
  | CAddFromAnndata _ _ _ | CAddFromDf _ _ _ | CLabelsAdd _ _ _ => true
  | _ => false
  end.

(** A backend for examples: artifacts are numbered from the state, the
    features ["tissue"] and ["age"] exist, every label is found, and the
    instance is remote. *)
Definition numbering_ops : ArtifactOps nat :=
  {| Artifact_from_anndata := fun _ _ n => Ok n (S n);
     Artifact_from_df := fun _ _ n => Ok n (S n);
     set_n_observations := fun _ _ n => Ok tt n;
     artifact_save := fun _ n => Ok tt n;
     needs_organism := fun _ organism n =>
                         Ok (match organism with
                             | Some _ => true
                             | None => false
                             end) n;
     features_add_from_anndata := fun _ _ _ n => Ok tt n;
     features_add_from_df := fun _ _ _ n => Ok tt n;
     Feature_lookup_dict :=
       fun n => Ok [("tissue", [("name", "tissue")]);
                    ("age", [("name", "age")])] n;
     registry_from_values :=
       fun _ values field _ n =>
         Ok (map (fun v => [(field_name field, v)]) values) n;
     labels_add := fun _ _ _ n => Ok tt n;
     instance_slug := fun n => Ok "lab/atlas" n;
     instance_is_remote := fun n => Ok true n;
     artifact_uid := fun a n => Ok "uid" n |}.

(** A table of three observations. *)
Definition samples : Table :=
  [("tissue", ["liver"; "heart"; "liver"]); ("age", ["3"; "5"; "8"])].

(** A call made once the artifact [a] is saved: it attaches to [a] or
    reads from it, and it neither makes nor saves an artifact. *)
Definition on_artifact (a : Artifact) (c : ArtifactCall) : Prop :=
  match c with
  | CAddFromAnndata a' _ _ | CAddFromDf a' _ _ | CLabelsAdd a' _ _
  | CUid a' => a' = a
  | CFromAnndata _ _ | CFromDf _ _ | CSetNObservations _ _
  | CArtifactSave _ => False
  | _ => True
  end.

(** The keyword arguments of a placeholder constructor call, against the
    ones [register_labels] was called with: the loop of lines 146-151
    writes the field's name, and for features the type, and nothing
    else. *)
Definition carries (field : FieldAttr) (kwargs : Kwargs) (e : Event)
  : Prop :=
  match e with
  | (Placeholder, OConstruct kw) =>
      (forall k,
          k <> field_name field ->
          is_Feature (field_model field) = false \/ k <> "type" ->
          dict_get k kw = dict_get k kwargs)
      /\ (is_Feature (field_model field) = true ->
          dict_get "type" kw = Some "category")
      /\ (is_Feature (field_model field) = false
          \/ field_name field <> "type" ->
          dict_get (field_name field) kw <> None)
  | _ => True
  end.

(** The records an event hands to a save: [record.save()] and
    [ln.save(records)]. *)
Definition submitted (e : Event) : list Rec :=
  match snd e with
  | ORecordSave r => [r]
  | OSave rs => rs
  | _ => []
  end.

(** On the store, [m] only appends to the trace, loses no record of the
    local registry, and leaves every record it has handed to a save in
    the local registry. *)
Definition saves_stored {A : Type} (m : M Store A) : Prop :=
  forall w, exists d,
    trace (world_of (m w)) = trace w ++ d
    /\ incl (local (backend w)) (local (backend (world_of (m w))))
    /\ (forall e r,
           In e d -> In r (submitted e) ->
           In r (local (backend (world_of (m w))))).

(** ** Reasoning about computations *)

Section Laws.

Variable B : Type.

Lemma bind_Ok (A C : Type) (m : M B A) (k : A -> M B C) w c w' :
  bind m k w = Ok c w' ->
  exists a w1, m w = Ok a w1 /\ k a w1 = Ok c w'.
Proof.
  unfold bind. destruct (m w) as [a w1|e w1]; intro H.
  - exists a, w1. split; [reflexivity|exact H].
  - discriminate H.
Qed.

Lemma call_Ok (A : Type) st op (f : B -> Res B A) w a w' :
  call st op f w = Ok a w' ->
  exists b, f (backend w) = Ok a b /\
            w' = {| verbosity := verbosity w;
                    trace := trace w ++ [(st, op)];
                    backend := b |}.
Proof.
  unfold call. destruct (f (backend w)) as [x b|e b]; intro H.
  - inversion H; subst. exists b. split; reflexivity.
  - discriminate H.
Qed.

Lemma bind_Ok_intro (A C : Type) (m : M B A) (k : A -> M B C) w a w1 :
  m w = Ok a w1 -> bind m k w = k a w1.
Proof. intro H. unfold bind. rewrite H. reflexivity. Qed.

Lemma bind_Raise_intro (A C : Type) (m : M B A) (k : A -> M B C) w e w1 :
  m w = Raise e w1 -> bind m k w = Raise e w1.
Proof. intro H. unfold bind. rewrite H. reflexivity. Qed.

Lemma call_Ok_intro (A : Type) st op (f : B -> Res B A) w a b :
  f (backend w) = Ok a b ->
  call st op f w = Ok a {| verbosity := verbosity w;
                           trace := trace w ++ [(st, op)];
                           backend := b |}.
Proof. intro H. unfold call. rewrite H. reflexivity. Qed.

Lemma quiet_ret (A : Type) (a : A) : quiet (@ret B A a).
Proof. intro w. reflexivity. Qed.

Lemma quiet_raise (A : Type) e : quiet (@raise B A e).
Proof. intro w. reflexivity. Qed.

Lemma quiet_emit st op : quiet (@emit B st op).
Proof. intro w. reflexivity. Qed.

Lemma quiet_call (A : Type) st op (f : B -> Res B A) : quiet (call st op f).
Proof.
  intro w. unfold call. destruct (f (backend w)); reflexivity.
Qed.

Lemma quiet_bind (A C : Type) (m : M B A) (k : A -> M B C) :
  quiet m -> (forall a, quiet (k a)) -> quiet (bind m k).
Proof.
  intros Hm Hk w. unfold bind. specialize (Hm w).
  destruct (m w) as [a w1|e w1]; simpl in *.
  - rewrite (Hk a w1). exact Hm.
  - exact Hm.
Qed.

(** Whatever the block does, a [finally] that assigns the verbosity
    decides its value on both exits. *)
Lemma try_finally_restores (A : Type) (m : M B A) v w :
  verbosity (world_of (try_finally m (set_verbosity v) w)) = v.
Proof.
  unfold try_finally, set_verbosity. destruct (m w); reflexivity.
Qed.

Lemma adds_ret P (A : Type) (a : A) : adds P (@ret B A a).
Proof. intro w. exists []. rewrite app_nil_r. split; [reflexivity|constructor]. Qed.

Lemma adds_raise P (A : Type) e : adds P (@raise B A e).
Proof. intro w. exists []. rewrite app_nil_r. split; [reflexivity|constructor]. Qed.

Lemma adds_set_verbosity P v : adds P (@set_verbosity B v).
Proof. intro w. exists []. rewrite app_nil_r. split; [reflexivity|constructor]. Qed.

Lemma adds_get_verbosity P : adds P (@get_verbosity B).
Proof. intro w. exists []. rewrite app_nil_r. split; [reflexivity|constructor]. Qed.

Lemma adds_emit (P : Event -> Prop) st op : P (st, op) -> adds P (@emit B st op).
Proof.
  intros H w. exists [(st, op)]. split; [reflexivity|].
  constructor; [exact H|constructor].
Qed.

Lemma adds_call (P : Event -> Prop) (A : Type) st op (f : B -> Res B A) :
  P (st, op) -> adds P (call st op f).
Proof.
  intros H w. exists [(st, op)]. unfold call.
  destruct (f (backend w)); (split; [reflexivity|]);
    (constructor; [exact H|constructor]).
Qed.

Lemma adds_bind P (A C : Type) (m : M B A) (k : A -> M B C) :
  adds P m -> (forall a, adds P (k a)) -> adds P (bind m k).
Proof.
  intros Hm Hk w. unfold bind. destruct (Hm w) as [d [Hd Pd]].
  destruct (m w) as [a w1|e w1]; simpl in *.
  - destruct (Hk a w1) as [d' [Hd' Pd']].
    exists (d ++ d'). rewrite Hd', Hd, app_assoc. split; [reflexivity|].
    apply Forall_app. split; assumption.
  - exists d. split; assumption.
Qed.

Lemma adds_try_finally P (A : Type) (m : M B A) (fin : M B unit) :
  adds P m -> adds P fin -> adds P (try_finally m fin).
Proof.
  intros Hm Hf w. unfold try_finally. destruct (Hm w) as [d [Hd Pd]].
  destruct (m w) as [a w1|e w1]; simpl in *;
    destruct (Hf w1) as [d' [Hd' Pd']];
    exists (d ++ d'); (split; [|apply Forall_app; split; assumption]);
    destruct (fin w1); simpl in *; rewrite Hd', Hd, app_assoc; reflexivity.
Qed.

Lemma adds_getitem P (V : Type) k (d : Dict V) : adds P (@getitem B V k d).
Proof.
  unfold getitem. destruct (dict_get k d); [apply adds_ret|apply adds_raise].
Qed.

Lemma adds_getattr P r attr : adds P (@getattr B r attr).
Proof.
  unfold getattr. destruct (dict_get attr r); [apply adds_ret|apply adds_raise].
Qed.

Lemma adds_getattrs P rs attr : adds P (@getattrs B rs attr).
Proof.
  induction rs as [|r rs IH]; simpl.
  - apply adds_ret.
  - apply adds_bind; [apply adds_getattr|intro v].
    apply adds_bind; [exact IH|intro vs]. apply adds_ret.
Qed.

(** The events of a stage, when only other stages were at work. *)
Lemma stage_events_app st (tr d : list Event) :
  Forall (fun e => fst e <> st) d ->
  stage_events st (tr ++ d) = stage_events st tr.
Proof.
  intro H. unfold stage_events. rewrite filter_app.
  induction H as [|e d He _ IH]; simpl.
  - apply app_nil_r.
  - destruct e as [s o]; simpl in *.
    destruct s, st; simpl; try exact IH; exfalso; apply He; reflexivity.
Qed.

End Laws.

Create HintDb adds.
Create HintDb quiet.

#[export] Hint Resolve adds_ret adds_raise adds_set_verbosity
  adds_get_verbosity adds_getitem adds_getattr adds_getattrs : adds.
#[export] Hint Resolve quiet_ret quiet_raise quiet_emit quiet_call : quiet.

Ltac adds_step :=
  match goal with
  | |- adds _ (bind _ _) => apply adds_bind; [|intro]
  | |- adds _ (call _ _ _) =>
      apply adds_call; simpl; solve [reflexivity | discriminate | auto]
  | |- adds _ (emit _ _) =>
      apply adds_emit; simpl; solve [reflexivity | discriminate | auto]
  | |- adds _ (try_finally _ _) => apply adds_try_finally
  | |- adds _ (if ?c then _ else _) => destruct c
  | |- adds _ (match ?x with _ => _ end) => destruct x
  | |- adds _ (let (_, _) := ?x in _) => destruct x
  | |- adds _ _ => solve [auto with adds]
  end.

(** ** Which stages each function works in *)

Section Stages.

Variable B : Type.
Variable ops : Backend B.

Lemma adds_weaken (P Q : Event -> Prop) (A : Type) (m : M B A) :
  (forall e, P e -> Q e) -> adds P m -> adds Q m.
Proof.
  intros HPQ Hm w. destruct (Hm w) as [d [Hd Pd]]. exists d.
  split; [exact Hd|]. eapply Forall_impl; [exact HPQ|exact Pd].
Qed.

Lemma adds_save_labels_using labels_using field acc :
  adds (fun e => fst e = CrossInstance)
       (save_labels_using ops labels_using field acc).
Proof.
  revert acc. induction labels_using as [|r rs IH]; intro acc; simpl.
  - apply adds_ret.
  - repeat adds_step; apply IH.
Qed.

Lemma adds_from_using values field using_ kwargs :
  adds (fun e => fst e = CrossInstance)
       (register_labels_from_using_instance ops values field using_ kwargs).
Proof.
  unfold register_labels_from_using_instance.
  destruct using_ as [u|]; [|apply adds_ret].
  destruct (negb (u =? "default")%string); [|apply adds_ret].
  repeat adds_step; apply adds_save_labels_using.
Qed.

Lemma adds_with_parent values field feature_name :
  adds (fun e => fst e = HierarchyLink)
       (register_ulabels_with_parent ops values field feature_name).
Proof.
  unfold register_ulabels_with_parent. repeat adds_step.
Qed.

Lemma adds_log_items labels_type feature_name model_field validated_only items :
  adds (fun e => fst e = Report)
       (@log_items B labels_type feature_name model_field validated_only
                   items).
Proof.
  induction items as [|item rest IH]; simpl.
  - apply adds_ret.
  - apply adds_bind; [|intros _; exact IH].
    unfold log_item. repeat adds_step.
Qed.

Lemma adds_log labels_registered feature_name model_field validated_only :
  adds (fun e => fst e = Report)
       (@log_registered_labels B labels_registered feature_name model_field
                               validated_only).
Proof. apply adds_log_items. Qed.

Lemma adds_not_in_bucket P xs key d : adds P (@not_in_bucket B xs key d).
Proof.
  induction xs as [|i rest IH]; simpl.
  - apply adds_ret.
  - repeat adds_step; exact IH.
Qed.

Lemma adds_not_in_buckets P cols k1 k2 d :
  adds P (@not_in_buckets B cols k1 k2 d).
Proof.
  induction cols as [|c rest IH]; simpl.
  - apply adds_ret.
  - apply adds_bind; [apply adds_getitem|intro b1].
    apply adds_bind.
    + destruct (negb (str_in c b1)); repeat adds_step.
    + intro here. apply adds_bind; [exact IH|intro keep]. apply adds_ret.
Qed.

Lemma adds_placeholder_records registry field vals kwargs acc :
  adds (fun e => fst e = Placeholder)
       (placeholder_records ops registry field vals kwargs acc).
Proof.
  revert kwargs acc. induction vals as [|v rest IH]; intros kwargs acc; simpl.
  - apply adds_ret.
  - apply adds_bind; [adds_step|intro r]. apply IH.
Qed.

Lemma adds_from_values_records registry field kwargs nvl :
  adds (fun e => fst e = PublicReference)
       (from_values_records ops registry field kwargs nvl).
Proof. unfold from_values_records. repeat adds_step. Qed.

(** With [validated_only] in force the [try] block never reaches the
    placeholder stage. *)
Lemma adds_try_validated_only values field feature_name using_ kwargs df v :
  adds (fun e => fst e <> Placeholder)
       (register_labels_try ops values field feature_name using_ true kwargs
                            df v).
Proof.
  unfold register_labels_try, placeholder_stage.
  change (negb true) with false. cbv iota.
  apply adds_bind; [apply adds_set_verbosity|intros _].
  apply adds_bind; [adds_step|intro irc].
  destruct (Nat.eqb _ 0); [repeat adds_step|].
  apply adds_bind.
  { eapply adds_weaken; [|apply adds_from_using].
    intros e He. rewrite He. discriminate. }
  intro res.
  apply adds_bind.
  { eapply adds_weaken; [|apply adds_from_values_records].
    intros e He. rewrite He. discriminate. }
  intro fvr.
  apply adds_bind; [adds_step|intros _].
  apply adds_bind; [apply adds_getattrs|intro fp].
  apply adds_bind; [apply adds_not_in_bucket|intro wr].
  apply adds_bind; [apply adds_ret|intro lr].
  apply adds_bind; [|intros _; apply adds_ret].
  destruct (is_ULabel (field_model field) && (field_name field =? "name")%string);
    [|apply adds_ret].
  eapply adds_weaken; [|apply adds_with_parent].
  intros e He. rewrite He. discriminate.
Qed.

End Stages.

(** ** Control flow of [register_labels], for any backend *)

Section Orchestrator.

Variable B : Type.
Variable ops : Backend B.

Lemma quiet_log_items labels_type feature_name model_field validated_only
    items :
  quiet (@log_items B labels_type feature_name model_field validated_only
                    items).
Proof.
  induction items as [|[key labels] rest IH]; simpl.
  - apply quiet_ret.
  - apply quiet_bind; [|intros _; exact IH].
    unfold log_item.
    destruct (Nat.ltb 0 (List.length labels)); [|apply quiet_ret].
    destruct ((key =? "without reference")%string && validated_only);
      apply quiet_emit.
Qed.

(** C5. Whatever the verbosity was before a call of [register_labels], and
    whether the call returns or raises at any point, the verbosity after
    the call is the one before it. *)
Theorem verbosity_restored values field feature_name using_ validated_only
    kwargs df (w : World B) :
  verbosity (world_of (register_labels ops values field feature_name using_
                                       validated_only kwargs df w))
  = verbosity w.
Proof.
  unfold register_labels.
  set (kw := match kwargs with None => [] | Some k => k end).
  set (vo := if negb (reg_public (field_model field)) then false
             else validated_only).
  unfold bind at 1.
  pose proof (quiet_call Start (OCheckOrganism (dict_get "organism" kw))
                (check_if_registry_needs_organism ops (field_model field)
                   (dict_get "organism" kw)) w) as Hcall.
  destruct (call Start _ _ w) as [c w1|e w1]; simpl in Hcall; [|exact Hcall].
  unfold bind at 1. unfold get_verbosity at 1.
  unfold bind at 1.
  pose proof (try_finally_restores
                (register_labels_try ops values field feature_name using_ vo
                                     kw df (verbosity w1))
                (verbosity w1) w1) as Hfin.
  destruct (try_finally _ _ w1) as [flow w2|e w2]; simpl in Hfin.
  - destruct flow as [|lr].
    + simpl. congruence.
    + pose proof (quiet_log_items
                    (if (feature_name =? "feature")%string
                     then "features" else "labels")
                    feature_name
                    (reg_name (field_model field) ++ "." ++ field_name field)%string
                    vo lr w2) as Hlog.
      unfold bind, log_registered_labels.
      destruct (log_items _ _ _ _ lr w2) as [u w3|e w3]; simpl in *;
        congruence.
  - simpl. congruence.
Qed.

(** C4. When the local inspection reports no non-validated value, the call
    returns at once: after the organism check and that inspection no
    further collaborator is called, the backend is as the inspection left
    it, nothing is reported, and the verbosity is back. *)
Theorem noop_on_full_validation values field feature_name using_
    validated_only kwargs df (w : World B) c b1 irc b2 :
  let kw := match kwargs with None => [] | Some k => k end in
  check_if_registry_needs_organism ops (field_model field)
    (dict_get "organism" kw) (backend w) = Ok c b1 ->
  inspect ops (current (field_model field)) values field kw b1 = Ok irc b2 ->
  non_validated irc = [] ->
  register_labels ops values field feature_name using_ validated_only
                  kwargs df w
  = Ok None
       {| verbosity := verbosity w;
          trace := trace w
                   ++ [(Start, OCheckOrganism (dict_get "organism" kw));
                       (LocalInspect,
                        OInspect (current (field_model field)) values)];
          backend := b2 |}.
Proof.
  intros kw Hcheck Hinspect Hnil. subst kw.
  unfold register_labels.
  erewrite bind_Ok_intro; [|apply call_Ok_intro; exact Hcheck].
  erewrite bind_Ok_intro; [|reflexivity].
  erewrite bind_Ok_intro.
  2:{ unfold try_finally, register_labels_try.
      erewrite bind_Ok_intro; [|reflexivity].
      erewrite bind_Ok_intro; [|apply call_Ok_intro; exact Hinspect].
      rewrite Hnil. simpl. reflexivity. }
  simpl. rewrite <- app_assoc. reflexivity.
Qed.

(** C6. Without a using instance, or with the local sentinel ["default"],
    the cross-instance stage hands back [([], values)] and leaves the world
    untouched: no collaborator is called. *)
Theorem using_absent_is_noop values field kwargs (w : World B) :
  register_labels_from_using_instance ops values field None kwargs w
  = Ok ([], values) w
  /\ register_labels_from_using_instance ops values field (Some "default")
                                         kwargs w
     = Ok ([], values) w.
Proof. split; reflexivity. Qed.

(** C2, as the code has it. A call of [register_labels] that returns hands
    back [None]: the bucket map built in the [try] block goes to
    [log_registered_labels] and nowhere else, and no parent label is handed
    back. *)
Theorem register_labels_returns_None values field feature_name using_
    validated_only kwargs df (w : World B) rv w' :
  register_labels ops values field feature_name using_ validated_only
                  kwargs df w = Ok rv w' ->
  rv = None /\
  exists c w0 flow w1,
    let kw := match kwargs with None => [] | Some k => k end in
    let vo := if negb (reg_public (field_model field)) then false
              else validated_only in
    call Start (OCheckOrganism (dict_get "organism" kw))
         (check_if_registry_needs_organism ops (field_model field)
                                           (dict_get "organism" kw)) w
    = Ok c w0 /\
    try_finally
      (register_labels_try ops values field feature_name using_ vo kw df
                           (verbosity w0))
      (set_verbosity (verbosity w0)) w0 = Ok flow w1 /\
    match flow with
    | Returned => w' = w1
    | FellThrough labels_registered =>
        log_registered_labels labels_registered feature_name
          (reg_name (field_model field) ++ "." ++ field_name field)%string
          vo w1 = Ok tt w'
    end.
Proof.
  unfold register_labels. intro H.
  apply bind_Ok in H. destruct H as (c & w0 & Hc & H).
  apply bind_Ok in H. destruct H as (v & w0' & Hv & H).
  unfold get_verbosity in Hv. inversion Hv; subst v w0'; clear Hv.
  apply bind_Ok in H. destruct H as (flow & w1 & Hflow & H).
  destruct flow as [|lr].
  - unfold ret in H. inversion H; subst. split; [reflexivity|].
    exists c, w0, Returned, w'. simpl. auto.
  - apply bind_Ok in H. destruct H as (u & w2 & Hlog & H).
    unfold ret in H. inversion H; subst. split; [reflexivity|].
    exists c, w0, (FellThrough lr), w1. simpl. destruct u. auto.
Qed.

(** C3, as the code has it. When the caller passes [validated_only=True]
    and the registry has a [public] attribute, the placeholder stage does
    not run: the call adds no placeholder event to the trace, on either
    exit. *)
Theorem validated_only_skips_placeholders values field feature_name using_
    kwargs df (w : World B) :
  reg_public (field_model field) = true ->
  stage_events Placeholder
    (trace (world_of (register_labels ops values field feature_name using_
                                      true kwargs df w)))
  = stage_events Placeholder (trace w).
Proof.
  intro Hpub.
  assert (Hadds : adds (fun e => fst e <> Placeholder)
                       (register_labels ops values field feature_name using_
                                        true kwargs df)).
  { unfold register_labels. rewrite Hpub. simpl negb. cbv iota.
    apply adds_bind; [adds_step|intros _].
    apply adds_bind; [apply adds_get_verbosity|intro v].
    apply adds_bind.
    - apply adds_try_finally;
        [apply adds_try_validated_only|apply adds_set_verbosity].
    - intros [|lr]; [apply adds_ret|].
      apply adds_bind; [|intros _; apply adds_ret].
      eapply adds_weaken; [|apply adds_log].
      intros e He. rewrite He. discriminate. }
  destruct (Hadds w) as [d [Hd Pd]]. rewrite Hd.
  apply stage_events_app. exact Pd.
Qed.

End Orchestrator.

(** ** Facts about the data *)

Lemma dict_get_set_same (V : Type) k (v : V) d :
  dict_get k (dict_set k v d) = Some v.
Proof.
  induction d as [|[k' v'] d IH]; simpl.
  - rewrite String.eqb_refl. reflexivity.
  - destruct (String.eqb k k') eqn:E; simpl; rewrite E; [reflexivity|exact IH].
Qed.

Lemma dict_get_set_other (V : Type) k k' (v : V) d :
  k <> k' -> dict_get k (dict_set k' v d) = dict_get k d.
Proof.
  intro Hne. induction d as [|[k0 v0] d IH]; simpl.
  - apply String.eqb_neq in Hne. rewrite Hne. reflexivity.
  - destruct (String.eqb k' k0) eqn:E; simpl.
    + apply String.eqb_eq in E. subst k0.
      apply String.eqb_neq in Hne. rewrite Hne. reflexivity.
    + destruct (String.eqb k k0); [reflexivity|exact IH].
Qed.

Lemma str_in_In x xs : str_in x xs = true <-> In x xs.
Proof.
  unfold str_in. rewrite existsb_exists. split.
  - intros [y [Hy E]]. apply String.eqb_eq in E. subst. exact Hy.
  - intro H. exists x. split; [exact H|apply String.eqb_refl].
Qed.

Lemma str_in_not_In x xs : str_in x xs = false <-> ~ In x xs.
Proof.
  rewrite <- str_in_In. destruct (str_in x xs); split; intro H;
    try reflexivity; try discriminate; try congruence;
    exfalso; apply H; reflexivity.
Qed.

Lemma In_distinct x xs : In x (distinct xs) <-> In x xs.
Proof.
  induction xs as [|y ys IH]; simpl; [tauto|].
  rewrite filter_In, IH. split.
  - intros [H|[H _]]; auto.
  - intros [H|H]; [auto|].
    destruct (String.eqb x y) eqn:E.
    + apply String.eqb_eq in E. auto.
    + right. split; [exact H|reflexivity].
Qed.

Lemma Rec_eqb_eq a b : Rec_eqb a b = true <-> a = b.
Proof.
  revert b. induction a as [|[k v] a IH]; intros [|[k' v'] b]; simpl;
    try (split; [discriminate|discriminate]); try tauto.
  rewrite !andb_true_iff, IH, !String.eqb_eq. split.
  - intros [[-> ->] ->]. reflexivity.
  - intro H. inversion H. auto.
Qed.

Lemma rec_in_In r rs : rec_in r rs = true <-> In r rs.
Proof.
  unfold rec_in. rewrite existsb_exists. split.
  - intros [y [Hy E]]. apply Rec_eqb_eq in E. subst. exact Hy.
  - intro H. exists r. split; [exact H|]. apply Rec_eqb_eq. reflexivity.
Qed.

Lemma has_attr_get attr v r :
  has_attr attr v r = true <-> dict_get attr r = Some v.
Proof.
  unfold has_attr. destruct (dict_get attr r) as [x|].
  - rewrite String.eqb_eq. split; congruence.
  - split; discriminate.
Qed.

Lemma has_attr_attr_of attr v r :
  has_attr attr v r = true -> attr_of attr r = v.
Proof.
  intro H. apply has_attr_get in H. unfold attr_of. rewrite H. reflexivity.
Qed.

Lemma known_In attr rs v :
  known attr rs v = true <-> exists r, In r rs /\ dict_get attr r = Some v.
Proof.
  unfold known. rewrite existsb_exists.
  split; intros [r [Hr H]]; exists r; (split; [exact Hr|]);
    apply has_attr_get; exact H.
Qed.

(** *** Persisting records *)

Lemma persist_incl r rs x : In x rs -> In x (persist r rs).
Proof.
  unfold persist. destruct (rec_in r rs); [auto|].
  intro H. apply in_or_app. auto.
Qed.

Lemma persist_In r rs : In r (persist r rs).
Proof.
  unfold persist. destruct (rec_in r rs) eqn:E.
  - apply rec_in_In. exact E.
  - apply in_or_app. right. left. reflexivity.
Qed.

Lemma persist_present r rs : In r rs -> persist r rs = rs.
Proof.
  intro H. unfold persist. apply rec_in_In in H. rewrite H. reflexivity.
Qed.

Lemma persist_inv r rs x : In x (persist r rs) -> In x rs \/ x = r.
Proof.
  unfold persist. destruct (rec_in r rs); [auto|].
  intro H. apply in_app_or in H. destruct H as [H|[H|[]]]; auto.
Qed.

Lemma persist_all_incl rs stored x :
  In x stored -> In x (persist_all rs stored).
Proof.
  unfold persist_all. revert stored.
  induction rs as [|r rs IH]; intros stored H; simpl; [exact H|].
  apply IH. apply persist_incl. exact H.
Qed.

Lemma persist_all_In rs stored x :
  In x rs -> In x (persist_all rs stored).
Proof.
  unfold persist_all. revert stored.
  induction rs as [|r rs IH]; intros stored H; simpl; [destruct H|].
  destruct H as [->|H].
  - apply (persist_all_incl rs). apply persist_In.
  - apply IH. exact H.
Qed.

Lemma persist_all_inv rs stored x :
  In x (persist_all rs stored) -> In x stored \/ In x rs.
Proof.
  unfold persist_all. revert stored.
  induction rs as [|r rs IH]; intros stored H; simpl in *; [auto|].
  apply IH in H. destruct H as [H|H]; [|auto].
  apply persist_inv in H. destruct H as [H|H]; auto.
Qed.

Lemma persist_all_present rs stored :
  (forall r, In r rs -> In r stored) -> persist_all rs stored = stored.
Proof.
  unfold persist_all. revert stored.
  induction rs as [|r rs IH]; intros stored H; simpl; [reflexivity|].
  rewrite persist_present by (apply H; left; reflexivity).
  apply IH. intros x Hx. apply H. right. exact Hx.
Qed.

Lemma known_incl attr rs rs' v :
  (forall r, In r rs -> In r rs') ->
  known attr rs v = true -> known attr rs' v = true.
Proof.
  intros Hincl H. apply known_In in H. destruct H as [r [Hr H]].
  apply known_In. exists r. auto.
Qed.

(** ** The comprehensions, evaluated *)

Section Comprehensions.

Variable B : Type.

Lemma retrace_id (w : World B) : retrace w (trace w) (backend w) = w.
Proof. destruct w. reflexivity. Qed.

Lemma not_in_bucket_eval xs key d bucket (w : World B) :
  dict_get key d = Some bucket ->
  not_in_bucket xs key d w
  = Ok (filter (fun i => negb (str_in i bucket)) xs) w.
Proof.
  intro Hget. induction xs as [|i rest IH]; simpl; [reflexivity|].
  unfold bind, getitem. rewrite Hget. unfold ret at 1.
  fold (@not_in_bucket B). rewrite IH. unfold ret.
  destruct (negb (str_in i bucket)); reflexivity.
Qed.

Lemma not_in_buckets_eval cols k1 k2 d b1 b2 (w : World B) :
  dict_get k1 d = Some b1 ->
  dict_get k2 d = Some b2 ->
  not_in_buckets cols k1 k2 d w
  = Ok (filter (fun c => negb (str_in c b1) && negb (str_in c b2)) cols) w.
Proof.
  intros H1 H2. induction cols as [|c rest IH]; simpl; [reflexivity|].
  erewrite bind_Ok_intro; [|unfold getitem; rewrite H1; reflexivity].
  erewrite (@bind_Ok_intro B bool _ _ _ _
              (negb (str_in c b1) && negb (str_in c b2)) w).
  - erewrite bind_Ok_intro; [|exact IH]. unfold ret.
    destruct (negb (str_in c b1) && negb (str_in c b2)); reflexivity.
  - destruct (negb (str_in c b1)); simpl; [|reflexivity].
    erewrite bind_Ok_intro; [|unfold getitem; rewrite H2; reflexivity].
    reflexivity.
Qed.

Lemma getattrs_eval rs attr (w : World B) :
  Forall (fun r => dict_get attr r <> None) rs ->
  getattrs rs attr w = Ok (map (attr_of attr) rs) w.
Proof.
  intro H. induction H as [|r rs Hr _ IH]; simpl; [reflexivity|].
  unfold bind, getattr, attr_of.
  destruct (dict_get attr r) as [v|]; [|congruence].
  unfold ret at 1. fold (@getattrs B). rewrite IH. reflexivity.
Qed.

End Comprehensions.

(** ** The stages, evaluated on the store *)

Lemma with_local_local st : with_local st (local st) = st.
Proof. destruct st. reflexivity. Qed.

Lemma save_labels_using_store labels field acc (w : World Store) :
  Forall (fun r => dict_get (field_name field) r <> None) labels ->
  exists tr,
    save_labels_using store_ops labels field acc w
    = Ok (acc ++ map (attr_of (field_name field)) labels)
         (retrace w tr
            (with_local (backend w)
                        (persist_all labels (local (backend w))))).
Proof.
  intro H. revert acc w.
  induction H as [|r rs Hr _ IH]; intros acc w; simpl.
  - exists (trace w). rewrite app_nil_r.
    unfold persist_all. simpl. rewrite with_local_local, retrace_id.
    reflexivity.
  - destruct (dict_get (field_name field) r) as [v|] eqn:E; [|congruence].
    set (w1 := retrace w (trace w ++ [(CrossInstance, ORecordSave r)])
                 (with_local (backend w) (persist r (local (backend w))))).
    destruct (IH (acc ++ [v]) w1) as [tr Htr]. exists tr.
    erewrite bind_Ok_intro with (w1 := w1); [|reflexivity].
    erewrite bind_Ok_intro with (a := v) (w1 := w1);
      [|unfold getattr; rewrite E; reflexivity].
    rewrite Htr. unfold attr_of at 2. rewrite E.
    rewrite <- app_assoc. reflexivity.
Qed.

Lemma using_labels_have_attr field rs vals :
  Forall (fun r => dict_get (field_name field) r <> None)
         (using_labels field rs vals).
Proof.
  apply Forall_forall. intros r Hr. unfold using_labels in Hr.
  apply filter_In in Hr. destruct Hr as [_ Hr]. unfold attr_in in Hr.
  destruct (dict_get (field_name field) r); [discriminate|discriminate Hr].
Qed.

Lemma In_using_labels field rs vals x :
  In x (map (attr_of (field_name field)) (using_labels field rs vals))
  <-> In x vals /\ known (field_name field) rs x = true.
Proof.
  rewrite in_map_iff. unfold using_labels. split.
  - intros [r [Hx Hr]]. apply filter_In in Hr. destruct Hr as [Hr Hin].
    unfold attr_in in Hin. unfold attr_of in Hx.
    destruct (dict_get (field_name field) r) as [v|] eqn:E; [|discriminate].
    subst v. apply str_in_In in Hin. apply filter_In in Hin.
    rewrite In_distinct in Hin. exact Hin.
  - intros [Hv Hk]. pose proof Hk as Hk'. apply known_In in Hk.
    destruct Hk as [r [Hr E]]. exists r. split.
    + unfold attr_of. rewrite E. reflexivity.
    + apply filter_In. split; [exact Hr|]. unfold attr_in. rewrite E.
      apply str_in_In. apply filter_In. rewrite In_distinct. auto.
Qed.

Lemma using_stage_local vals field using_ kwargs (w : World Store) :
  using_ = None \/ using_ = Some "default" ->
  register_labels_from_using_instance store_ops vals field using_ kwargs w
  = Ok ([], vals) w.
Proof. intros [->| ->]; reflexivity. Qed.

Lemma using_stage_unknown vals field u kwargs (w : World Store) :
  String.eqb u "default" = false ->
  dict_get u (instances (backend w)) = None ->
  exists tr,
    register_labels_from_using_instance store_ops vals field (Some u) kwargs w
    = Raise (UnknownInstance u) (retrace w tr (backend w)).
Proof.
  intros Hu Hget. unfold register_labels_from_using_instance.
  rewrite Hu. simpl negb. cbv iota.
  eexists. apply bind_Raise_intro.
  unfold call, store_ops, registry_using, store_registry_using.
  rewrite Hget. reflexivity.
Qed.

Lemma using_stage_remote vals field u kwargs rs (w : World Store) :
  String.eqb u "default" = false ->
  dict_get u (instances (backend w)) = Some rs ->
  exists tr,
    register_labels_from_using_instance store_ops vals field (Some u) kwargs w
    = Ok (map (attr_of (field_name field)) (using_labels field rs vals),
          filter (fun v => negb (known (field_name field) rs v))
                 (distinct vals))
         (retrace w tr
            (with_local (backend w)
               (persist_all (using_labels field rs vals)
                            (local (backend w))))).
Proof.
  intros Hu Hget. unfold register_labels_from_using_instance.
  rewrite Hu. change (negb false) with true. cbv iota zeta.
  set (kw := match kwargs with Some k => k | None => [] end).
  set (h := {| h_registry := field_model field; h_instance := Some u |}).
  set (w1 := retrace w (trace w ++ [(CrossInstance, ORegistryUsing u)])
               (backend w)).
  erewrite bind_Ok_intro with (a := h) (w1 := w1).
  2:{ unfold call, store_ops, registry_using, store_registry_using.
      rewrite Hget. reflexivity. }
  set (iru := {| validated := filter (known (field_name field) rs)
                                     (distinct vals);
                 non_validated :=
                   filter (fun v => negb (known (field_name field) rs v))
                          (distinct vals) |}).
  set (w2 := retrace w (trace w1 ++ [(CrossInstance, OInspect h vals)])
               (backend w)).
  erewrite bind_Ok_intro with (a := iru) (w1 := w2).
  2:{ unfold call, store_ops, inspect, store_inspect, records_of.
      simpl. rewrite Hget. reflexivity. }
  set (w3 := retrace w (trace w2 ++ [(CrossInstance,
                                      OFilterIn h (validated iru))])
               (backend w)).
  erewrite bind_Ok_intro with (a := using_labels field rs vals) (w1 := w3).
  2:{ unfold call, store_ops, filter_in, store_filter_in, records_of.
      simpl. rewrite Hget. reflexivity. }
  destruct (save_labels_using_store field [] w3
              (using_labels_have_attr field rs vals)) as [tr Htr].
  exists tr. erewrite bind_Ok_intro; [|exact Htr]. reflexivity.
Qed.

(** *** The public reference stage *)

Lemma record_for_attr field st v r :
  In r (record_for field st v) -> dict_get (field_name field) r = Some v.
Proof.
  unfold record_for.
  destruct (find (has_attr (field_name field) v) (local st)) as [r0|] eqn:E.
  - intros [<-|[]]. apply find_some in E. apply has_attr_get. apply E.
  - destruct (str_in v (public st)); [|intros []].
    intros [<-|[]]. simpl. rewrite String.eqb_refl. reflexivity.
Qed.

Lemma find_known attr v rs :
  find (has_attr attr v) rs = None <-> known attr rs v = false.
Proof.
  unfold known. induction rs as [|r rs IH]; simpl; [tauto|].
  destruct (has_attr attr v r); simpl; [split; discriminate|exact IH].
Qed.

Lemma record_for_nil field st v :
  resolvable field st v = false -> record_for field st v = [].
Proof.
  unfold resolvable, record_for. intro H.
  apply orb_false_iff in H. destruct H as [Hk Hp].
  apply find_known in Hk. rewrite Hk, Hp. reflexivity.
Qed.

Lemma record_for_names field st vs :
  map (attr_of (field_name field)) (flat_map (record_for field st) vs)
  = filter (resolvable field st) vs.
Proof.
  induction vs as [|v vs IH]; simpl; [reflexivity|].
  rewrite map_app, IH. unfold resolvable at 2, record_for.
  destruct (find (has_attr (field_name field) v) (local st)) as [r|] eqn:E.
  - assert (Hk : known (field_name field) (local st) v = true).
    { destruct (known (field_name field) (local st) v) eqn:K;
        [reflexivity|]. apply find_known in K. congruence. }
    rewrite Hk. simpl. apply find_some in E. destruct E as [_ E].
    rewrite (has_attr_attr_of _ _ _ E). reflexivity.
  - apply find_known in E. rewrite E. simpl.
    destruct (str_in v (public st)); simpl; [|reflexivity].
    unfold attr_of. simpl. rewrite String.eqb_refl. reflexivity.
Qed.

Lemma records_for_have_attr field st vs :
  Forall (fun r => dict_get (field_name field) r <> None)
         (flat_map (record_for field st) vs).
Proof.
  apply Forall_forall. intros r Hr. apply in_flat_map in Hr.
  destruct Hr as [v [_ Hr]]. apply record_for_attr in Hr. congruence.
Qed.

Lemma from_values_records_store registry field kwargs nvl (w : World Store) :
  exists tr,
    from_values_records store_ops registry field kwargs nvl w
    = Ok (flat_map (record_for field (backend w)) (distinct nvl))
         (retrace w tr (backend w)).
Proof.
  unfold from_values_records. destruct nvl as [|x nvl].
  - exists (trace w). simpl. rewrite retrace_id. reflexivity.
  - eexists. reflexivity.
Qed.

Lemma using_stage_store vals field using_ kwargs (w : World Store) :
  match using_outcome field (backend w) using_ vals with
  | Some (from_using, nvl, st2) =>
      exists tr,
        register_labels_from_using_instance store_ops vals field using_
                                            kwargs w
        = Ok (from_using, nvl) (retrace w tr st2)
  | None =>
      exists e w',
        register_labels_from_using_instance store_ops vals field using_
                                            kwargs w
        = Raise e w'
  end.
Proof.
  unfold using_outcome, remote_instance.
  destruct using_ as [u|].
  - destruct (String.eqb u "default") eqn:Hu.
    + exists (trace w). rewrite retrace_id.
      unfold register_labels_from_using_instance. rewrite Hu. reflexivity.
    + destruct (dict_get u (instances (backend w))) as [rs|] eqn:Hget.
      * apply using_stage_remote; assumption.
      * destruct (@using_stage_unknown vals field u kwargs w Hu Hget)
          as [tr Htr].
        eexists. eexists. exact Htr.
  - exists (trace w). rewrite retrace_id. reflexivity.
Qed.

(** *** The placeholder stage *)

Lemma placeholder_records_store registry field vals kwargs acc
    (w : World Store) :
  exists tr,
    placeholder_records store_ops registry field vals kwargs acc w
    = Ok (acc ++ placeholder_kwargs_seq registry field vals kwargs)
         (retrace w tr (backend w)).
Proof.
  revert kwargs acc w.
  induction vals as [|x vals IH]; intros kwargs acc w; simpl.
  - exists (trace w). rewrite app_nil_r, retrace_id. reflexivity.
  - set (kw := placeholder_kwargs registry field x kwargs).
    set (w1 := retrace w (trace w ++ [(Placeholder, OConstruct kw)])
                 (backend w)).
    destruct (IH kw (acc ++ [kw]) w1) as [tr Htr]. exists tr.
    erewrite bind_Ok_intro with (a := kw) (w1 := w1); [|reflexivity].
    etransitivity; [exact Htr|].
    rewrite <- app_assoc. reflexivity.
Qed.

(** *** The hierarchy linker *)

Lemma linker_store values field feature_name (w : World Store) :
  is_ULabel (field_model field) = true ->
  match linker_outcome field feature_name values (backend w) with
  | Some st' =>
      exists tr,
        register_ulabels_with_parent store_ops values field feature_name w
        = Ok tt (retrace w tr st')
  | None =>
      exists tr,
        register_ulabels_with_parent store_ops values field feature_name w
        = Raise MultipleResultsFound (retrace w tr (backend w))
  end.
Proof.
  intro HU. unfold linker_outcome, register_ulabels_with_parent.
  rewrite HU. change (negb true) with false. cbv iota zeta.
  set (nm := ("is_" ++ feature_name)%string).
  set (all := flat_map (record_for field (backend w)) (distinct values)).
  set (w1 := retrace w (trace w ++ [(HierarchyLink, OFromValues values)])
               (backend w)).
  set (w2 := retrace w (trace w1 ++ [(HierarchyLink, OOneOrNone nm)])
               (backend w)).
  destruct (filter (has_attr "name" nm) (local (backend w)))
    as [|r [|r' rest]] eqn:Hf.
  - eexists.
    erewrite bind_Ok_intro with (a := all) (w1 := w1); [|reflexivity].
    erewrite bind_Ok_intro with (a := @None Rec) (w1 := w2).
    2:{ unfold call, store_ops, filter_one_or_none, store_one_or_none.
        simpl. rewrite Hf. reflexivity. }
    cbv iota.
    erewrite bind_Ok_intro; [|reflexivity].
    reflexivity.
  - eexists.
    erewrite bind_Ok_intro with (a := all) (w1 := w1); [|reflexivity].
    erewrite bind_Ok_intro with (a := Some r) (w1 := w2).
    2:{ unfold call, store_ops, filter_one_or_none, store_one_or_none.
        simpl. rewrite Hf. reflexivity. }
    cbv iota.
    erewrite bind_Ok_intro; [|reflexivity].
    reflexivity.
  - eexists.
    erewrite bind_Ok_intro with (a := all) (w1 := w1); [|reflexivity].
    apply bind_Raise_intro.
    unfold call, store_ops, filter_one_or_none, store_one_or_none.
    simpl. rewrite Hf. reflexivity.
Qed.

(** *** The report *)

Lemma log_items_state (B : Type) labels_type feature_name model_field
    validated_only items (w : World B) :
  exists tr,
    log_items labels_type feature_name model_field validated_only items w
    = Ok tt (retrace w tr (backend w)).
Proof.
  revert w. induction items as [|[key labels] rest IH]; intro w; simpl.
  - exists (trace w). rewrite retrace_id. reflexivity.
  - assert (H1 : exists tr1,
               log_item labels_type feature_name model_field validated_only
                        (key, labels) w
               = Ok tt (retrace w tr1 (backend w))).
    { unfold log_item.
      destruct (Nat.ltb 0 (List.length labels)).
      - destruct ((key =? "without reference")%string && validated_only);
          eexists; reflexivity.
      - exists (trace w). rewrite retrace_id. reflexivity. }
    destruct H1 as [tr1 H1].
    destruct (IH (retrace w tr1 (backend w))) as [tr Htr].
    exists tr. erewrite bind_Ok_intro; [|exact H1]. exact Htr.
Qed.

Lemma dict_get_set_some (V : Type) k k' (v : V) d :
  dict_get k d <> None -> dict_get k (dict_set k' v d) <> None.
Proof.
  intro H. destruct (string_dec k k') as [->|Hne].
  - rewrite dict_get_set_same. discriminate.
  - rewrite dict_get_set_other by exact Hne. exact H.
Qed.

Lemma getitem_bucket (B : Type) key lr (w : World B) :
  dict_get key lr <> None -> getitem key lr w = Ok (bucket key lr) w.
Proof.
  intro H. unfold getitem, bucket.
  destruct (dict_get key lr); [reflexivity|congruence].
Qed.

Lemma dict_get_bucket key lr :
  dict_get key lr <> None -> dict_get key lr = Some (bucket key lr).
Proof.
  intro H. unfold bucket. destruct (dict_get key lr); [reflexivity|congruence].
Qed.

Lemma placeholder_generic_store registry field kwargs lr (w : World Store) :
  dict_get "without reference" lr <> None ->
  exists tr,
    (vals <- getitem "without reference" lr ;;
     non_validated_records <-
       placeholder_records store_ops registry field vals kwargs [] ;;
     call Placeholder (OSave non_validated_records)
          (ln_save store_ops non_validated_records) ;;;
     ret lr) w
    = Ok lr
         (retrace w tr
            (with_local (backend w)
               (persist_all
                  (placeholder_kwargs_seq registry field
                     (bucket "without reference" lr) kwargs)
                  (local (backend w))))).
Proof.
  intro Hwr.
  erewrite bind_Ok_intro; [|apply getitem_bucket; exact Hwr].
  destruct (placeholder_records_store registry field
              (bucket "without reference" lr) kwargs [] w) as [tr1 H1].
  erewrite bind_Ok_intro; [|exact H1].
  eexists. erewrite bind_Ok_intro; [|reflexivity]. reflexivity.
Qed.

Lemma placeholder_stage_store registry field using_ validated_only kwargs df
    lr (w : World Store) :
  dict_get "from public" lr <> None ->
  dict_get (from_key using_) lr <> None ->
  dict_get "without reference" lr <> None ->
  exists tr,
    placeholder_stage store_ops registry field using_ validated_only kwargs
                      df lr w
    = Ok (fst (placeholder_outcome registry field using_ validated_only
                                   kwargs df lr (backend w)))
         (retrace w tr
            (snd (placeholder_outcome registry field using_ validated_only
                                      kwargs df lr (backend w)))).
Proof.
  intros Hfp Hfu Hwr. unfold placeholder_stage, placeholder_outcome.
  destruct validated_only;
    [change (negb true) with false|change (negb false) with true];
    cbv iota.
  - exists (trace w). simpl. rewrite retrace_id. reflexivity.
  - destruct df as [df'|];
      [destruct (is_Feature registry)|];
      try (apply placeholder_generic_store; exact Hwr).
    set (recs := map (fun col => [("name", col)]) (columns df')).
    set (w1 := retrace w (trace w ++ [(Placeholder, OFromDf df')])
                 (backend w)).
    erewrite bind_Ok_intro with (a := recs) (w1 := w1); [|reflexivity].
    erewrite bind_Ok_intro;
      [|apply not_in_buckets_eval; apply dict_get_bucket; assumption].
    eexists. erewrite bind_Ok_intro; [|reflexivity]. reflexivity.
Qed.

Lemma buckets_after_public_keys using_ fu fp nvl :
  let lr := buckets_after_public using_ fu fp nvl in
  dict_get "from public" lr <> None
  /\ dict_get (from_key using_) lr <> None
  /\ dict_get "without reference" lr <> None.
Proof.
  unfold buckets_after_public. cbv zeta. repeat split.
  - apply dict_get_set_some. rewrite dict_get_set_same. discriminate.
  - apply dict_get_set_some. apply dict_get_set_some.
    rewrite dict_get_set_same. discriminate.
  - rewrite dict_get_set_same. discriminate.
Qed.

(** The [try] block of [register_labels] computes [store_outcome]. *)
Lemma register_labels_try_store values field feature_name using_
    validated_only kwargs df v (w : World Store) :
  match unresolved field (backend w) values with
  | [] =>
      exists tr,
        register_labels_try store_ops values field feature_name using_
                            validated_only kwargs df v w
        = Ok Returned {| verbosity := v; trace := tr; backend := backend w |}
  | _ :: _ =>
      match store_outcome values field feature_name using_ validated_only
                          kwargs df (backend w) with
      | Some (lr, st') =>
          exists tr,
            register_labels_try store_ops values field feature_name using_
                                validated_only kwargs df v w
            = Ok (FellThrough lr)
                 {| verbosity := "error"; trace := tr; backend := st' |}
      | None =>
          exists e w',
            register_labels_try store_ops values field feature_name using_
                                validated_only kwargs df v w
            = Raise e w'
      end
  end.
Proof.
  set (registry := field_model field).
  set (N := unresolved field (backend w) values).
  set (w0 := {| verbosity := "error"; trace := trace w;
                backend := backend w |}).
  set (irc := {| validated := filter (known (field_name field)
                                            (local (backend w)))
                                     (distinct values);
                 non_validated := N |}).
  set (w1 := retrace w0
               (trace w ++ [(LocalInspect, OInspect (current registry) values)])
               (backend w)).
  assert (Hhead :
            register_labels_try store_ops values field feature_name using_
                                validated_only kwargs df v w
            = (if Nat.eqb (List.length N) 0
               then (set_verbosity v ;;; ret Returned)
               else
                res <- register_labels_from_using_instance store_ops N field
                         using_ (Some kwargs) ;;
                let labels_registered :=
                  dict_set (from_key using_) (fst res)
                           [("from public", []); ("without reference", [])] in
                let non_validated_labels := snd res in
                from_values_records <-
                  from_values_records store_ops registry field kwargs
                                      non_validated_labels ;;
                call PublicReference (OSave from_values_records)
                     (ln_save store_ops from_values_records) ;;;
                from_public <- getattrs from_values_records
                                        (field_name field) ;;
                let labels_registered :=
                  dict_set "from public" from_public labels_registered in
                without <- not_in_bucket non_validated_labels "from public"
                                         labels_registered ;;
                let labels_registered :=
                  dict_set "without reference" without labels_registered in
                labels_registered <-
                  placeholder_stage store_ops registry field using_
                                    validated_only kwargs df
                                    labels_registered ;;
                (if is_ULabel registry
                    && String.eqb (field_name field) "name"
                 then register_ulabels_with_parent store_ops values field
                                                   feature_name
                 else ret tt) ;;;
                ret (FellThrough labels_registered)) w1).
  { reflexivity. }
  destruct N as [|x N'] eqn:HN.
  - eexists. rewrite Hhead. reflexivity.
  - unfold store_outcome. fold N. rewrite HN. fold registry.
    change (Nat.eqb (List.length (x :: N')) 0) with false in Hhead.
    cbv iota in Hhead.
    pose proof (using_stage_store (x :: N') field using_ (Some kwargs) w1)
      as Husing.
    change (backend w1) with (backend w) in Husing.
    destruct (using_outcome field (backend w) using_ (x :: N'))
      as [[[fu nvl] st2]|].
    2:{ destruct Husing as (e & w' & Husing). exists e, w'.
        rewrite Hhead. apply bind_Raise_intro. exact Husing. }
    destruct Husing as [tr2 Husing].
    set (fvr := public_records field st2 nvl).
    set (st3 := with_local st2 (persist_all fvr (local st2))).
    set (lr2 := buckets_after_public using_ fu
                  (map (attr_of (field_name field)) fvr) nvl).
    destruct (from_values_records_store registry field kwargs nvl
                (retrace w1 tr2 st2)) as [tr3 Hfv].
    change (backend (retrace w1 tr2 st2)) with st2 in Hfv.
    fold (public_records field st2 nvl) in Hfv. fold fvr in Hfv.
    destruct (buckets_after_public_keys using_ fu
                (map (attr_of (field_name field)) fvr) nvl)
      as (Kfp & Kfu & Kwr).
    fold lr2 in Kfp, Kfu, Kwr.
    set (w3 := retrace w1 (tr3 ++ [(PublicReference, OSave fvr)]) st3).
    destruct (@placeholder_stage_store registry field using_ validated_only
                kwargs df lr2 w3 Kfp Kfu Kwr) as [tr4 Hph].
    change (backend w3) with st3 in Hph.
    destruct (placeholder_outcome registry field using_ validated_only kwargs
                df lr2 st3) as [lr3 st4] eqn:Hpo.
    simpl fst in Hph. simpl snd in Hph.
    match type of Hhead with
    | _ = ?rhs =>
        assert (Hrun : rhs
                       = ((if is_ULabel registry
                              && String.eqb (field_name field) "name"
                           then register_ulabels_with_parent store_ops values
                                                             field feature_name
                           else ret tt) ;;;
                          ret (FellThrough lr3)) (retrace w3 tr4 st4))
    end.
    { erewrite bind_Ok_intro; [|exact Husing]. cbv beta zeta.
      simpl fst. simpl snd.
      erewrite bind_Ok_intro; [|exact Hfv].
      erewrite bind_Ok_intro with (w1 := w3); [|reflexivity].
      erewrite bind_Ok_intro;
        [|apply getattrs_eval; apply records_for_have_attr].
      erewrite bind_Ok_intro;
        [|apply not_in_bucket_eval; apply dict_get_set_same].
      erewrite bind_Ok_intro; [|exact Hph].
      reflexivity. }
    rewrite Hrun in Hhead. clear Hrun. rename Hhead into Hrun.
    cbv zeta. unfold registry in *.
    destruct (is_ULabel (field_model field)
              && String.eqb (field_name field) "name") eqn:Hlink.
    + apply andb_true_iff in Hlink. destruct Hlink as [HU _].
      pose proof (@linker_store values field feature_name
                                (retrace w3 tr4 st4) HU) as Hl.
      change (backend (retrace w3 tr4 st4)) with st4 in Hl.
      destruct (linker_outcome field feature_name values st4) as [st5|].
      * destruct Hl as [tr5 Hl]. eexists. rewrite Hrun.
        erewrite bind_Ok_intro; [|exact Hl]. reflexivity.
      * destruct Hl as [tr5 Hl]. eexists. eexists. rewrite Hrun.
        apply bind_Raise_intro. exact Hl.
    + eexists. rewrite Hrun. reflexivity.
Qed.

(** [register_labels] on the store: the organism check, then the [try]
    block, then the report. *)
Lemma register_labels_store values field feature_name using_ validated_only
    (kwargs : option Kwargs) df (w : World Store) :
  let kw := match kwargs with None => [] | Some k => k end in
  let vo := if negb (reg_public (field_model field)) then false
            else validated_only in
  if organism_scoped (backend w)
     && match dict_get "organism" kw with None => true | Some _ => false end
  then
    exists tr,
      register_labels store_ops values field feature_name using_
                      validated_only kwargs df w
      = Raise ValidationError (retrace w tr (backend w))
  else
    match unresolved field (backend w) values with
    | [] =>
        exists tr,
          register_labels store_ops values field feature_name using_
                          validated_only kwargs df w
          = Ok None (retrace w tr (backend w))
    | _ :: _ =>
        match store_outcome values field feature_name using_ vo kw df
                            (backend w) with
        | Some (lr, st') =>
            exists tr,
              register_labels store_ops values field feature_name using_
                              validated_only kwargs df w
              = Ok None (retrace w tr st')
        | None =>
            exists e w',
              register_labels store_ops values field feature_name using_
                              validated_only kwargs df w
              = Raise e w'
        end
    end.
Proof.
  intros kw vo. subst kw vo. unfold register_labels. cbv zeta.
  generalize (match kwargs with None => [] | Some k => k end). intro kw.
  generalize (if negb (reg_public (field_model field)) then false
              else validated_only). intro vo.
  set (w0 := retrace w (trace w ++ [(Start, OCheckOrganism
                                              (dict_get "organism" kw))])
               (backend w)).
  destruct (organism_scoped (backend w)
            && match dict_get "organism" kw with
               | None => true
               | Some _ => false
               end) eqn:Hchk.
  - exists (trace w0). apply bind_Raise_intro.
    unfold call, store_ops, check_if_registry_needs_organism,
      store_check_organism.
    apply andb_true_iff in Hchk. destruct Hchk as [Hs Ho]. rewrite Hs.
    destruct (dict_get "organism" kw); [discriminate|reflexivity].
  - assert (Hcall : exists c,
              call Start (OCheckOrganism (dict_get "organism" kw))
                   (check_if_registry_needs_organism store_ops
                      (field_model field) (dict_get "organism" kw)) w
              = Ok c w0).
    { unfold call, store_ops, check_if_registry_needs_organism,
        store_check_organism.
      destruct (organism_scoped (backend w)); simpl in Hchk.
      - destruct (dict_get "organism" kw); [|discriminate].
        eexists. reflexivity.
      - eexists. reflexivity. }
    destruct Hcall as [c Hcall].
    pose proof (register_labels_try_store values field feature_name using_
                  vo kw df (verbosity w0) w0) as Htry.
    change (backend w0) with (backend w) in Htry.
    destruct (unresolved field (backend w) values) as [|x N'].
    + destruct Htry as [tr Htry]. exists tr.
      erewrite bind_Ok_intro; [|exact Hcall].
      erewrite bind_Ok_intro; [|reflexivity].
      erewrite bind_Ok_intro;
        [|unfold try_finally; rewrite Htry; reflexivity].
      reflexivity.
    + destruct (store_outcome values field feature_name using_ vo kw df
                              (backend w)) as [[lr st']|].
      * destruct Htry as [tr Htry].
        set (w2 := retrace w tr st').
        destruct (log_items_state
                    (if (feature_name =? "feature")%string
                     then "features" else "labels")
                    feature_name
                    (reg_name (field_model field) ++ "."
                     ++ field_name field)%string
                    vo lr w2) as [tr' Hlog].
        exists tr'.
        erewrite bind_Ok_intro; [|exact Hcall].
        erewrite bind_Ok_intro; [|reflexivity].
        erewrite bind_Ok_intro with (w1 := w2);
          [|unfold try_finally; rewrite Htry; reflexivity].
        cbv iota beta.
        erewrite bind_Ok_intro; [|exact Hlog]. reflexivity.
      * destruct Htry as (e & w' & Htry).
        eexists. eexists.
        erewrite bind_Ok_intro; [|exact Hcall].
        erewrite bind_Ok_intro; [|reflexivity].
        apply bind_Raise_intro.
        unfold try_finally. rewrite Htry. reflexivity.
Qed.

(** ** The bucket map *)

Lemma from_key_not_without using_ : from_key using_ <> "without reference".
Proof. unfold from_key. destruct using_; simpl; discriminate. Qed.

Lemma from_key_public using_ :
  from_key using_ = "from public" <-> using_ = Some "public".
Proof.
  unfold from_key. split.
  - destruct using_ as [u|]; simpl; intro H.
    + inversion H. reflexivity.
    + discriminate H.
  - intros ->. reflexivity.
Qed.

Lemma bucket_set_same key b lr : bucket key (dict_set key b lr) = b.
Proof. unfold bucket. rewrite dict_get_set_same. reflexivity. Qed.

Lemma bucket_set_other key key' b lr :
  key <> key' -> bucket key (dict_set key' b lr) = bucket key lr.
Proof.
  intro H. unfold bucket. rewrite dict_get_set_other by exact H. reflexivity.
Qed.

Lemma buckets_after_public_without using_ fu fp nvl :
  bucket "without reference" (buckets_after_public using_ fu fp nvl)
  = filter (fun i => negb (str_in i fp)) nvl.
Proof. unfold buckets_after_public. apply bucket_set_same. Qed.

Lemma buckets_after_public_public using_ fu fp nvl :
  bucket "from public" (buckets_after_public using_ fu fp nvl) = fp.
Proof.
  unfold buckets_after_public.
  rewrite bucket_set_other by discriminate. apply bucket_set_same.
Qed.

Lemma buckets_after_public_using using_ fu fp nvl :
  using_ <> Some "public" ->
  bucket (from_key using_) (buckets_after_public using_ fu fp nvl) = fu.
Proof.
  intro Hu. unfold buckets_after_public.
  rewrite bucket_set_other by apply from_key_not_without.
  rewrite bucket_set_other
    by (intro E; apply Hu; apply from_key_public; exact E).
  apply bucket_set_same.
Qed.

(** The bucket map the placeholder stage leaves. *)
Lemma placeholder_outcome_buckets registry field using_ validated_only kwargs
    df lr st :
  fst (placeholder_outcome registry field using_ validated_only kwargs df
                           lr st)
  = if df_path registry validated_only df then
      dict_set "without reference"
        (filter (fun c =>
                   negb (str_in c (bucket "from public" lr))
                   && negb (str_in c (bucket (from_key using_) lr)))
                match df with Some df' => columns df' | None => [] end)
        lr
    else lr.
Proof.
  unfold placeholder_outcome, df_path.
  destruct validated_only; simpl; [reflexivity|].
  destruct df as [df'|]; [|reflexivity].
  destruct (is_Feature registry); reflexivity.
Qed.

(** ** The cross-instance stage on the store *)

Section UsingOutcome.

Variables (field : FieldAttr) (st : Store) (using_ : option string).
Variables (vals fu nvl : list string) (st2 : Store).
Hypothesis Huo : using_outcome field st using_ vals = Some (fu, nvl, st2).

Lemma using_outcome_cases :
  (remote_instance using_ = None /\ fu = [] /\ nvl = vals /\ st2 = st)
  \/ (exists u rs,
         remote_instance using_ = Some u
         /\ dict_get u (instances st) = Some rs
         /\ fu = map (attr_of (field_name field)) (using_labels field rs vals)
         /\ nvl = filter (fun v => negb (known (field_name field) rs v))
                         (distinct vals)
         /\ st2 = with_local st (persist_all (using_labels field rs vals)
                                             (local st))).
Proof.
  unfold using_outcome in Huo.
  destruct (remote_instance using_) as [u|].
  - destruct (dict_get u (instances st)) as [rs|] eqn:E; [|discriminate].
    inversion Huo; subst. right. exists u, rs. auto 6.
  - inversion Huo; subst. left. auto.
Qed.

Lemma using_from_sub x : In x fu -> In x vals.
Proof.
  destruct using_outcome_cases as [(_ & -> & _)|(u & rs & _ & _ & -> & _)].
  - intros [].
  - intro H. apply In_using_labels in H. apply H.
Qed.

Lemma using_left_sub x : In x nvl -> In x vals.
Proof.
  destruct using_outcome_cases as [(_ & _ & -> & _)|(u & rs & _ & _ & _ & -> & _)].
  - auto.
  - intro H. apply filter_In in H. apply In_distinct. apply H.
Qed.

Lemma using_disjoint x : In x fu -> In x nvl -> False.
Proof.
  destruct using_outcome_cases
    as [(_ & -> & _)|(u & rs & _ & _ & -> & -> & _)].
  - intros [].
  - intros H1 H2. apply In_using_labels in H1. destruct H1 as [_ H1].
    apply filter_In in H2. destruct H2 as [_ H2]. rewrite H1 in H2.
    discriminate H2.
Qed.

Lemma using_cover x : In x vals -> In x fu \/ In x nvl.
Proof.
  destruct using_outcome_cases
    as [(_ & _ & -> & _)|(u & rs & _ & _ & -> & -> & _)].
  - auto.
  - intro H. destruct (known (field_name field) rs x) eqn:K.
    + left. apply In_using_labels. auto.
    + right. apply filter_In. rewrite In_distinct. rewrite K. auto.
Qed.

Lemma using_store_grows r : In r (local st) -> In r (local st2).
Proof.
  destruct using_outcome_cases
    as [(_ & _ & _ & ->)|(u & rs & _ & _ & _ & _ & ->)].
  - auto.
  - simpl. apply persist_all_incl.
Qed.

Lemma using_store_frame :
  instances st2 = instances st /\ public st2 = public st
  /\ links st2 = links st /\ organism_scoped st2 = organism_scoped st.
Proof.
  destruct using_outcome_cases
    as [(_ & _ & _ & ->)|(u & rs & _ & _ & _ & _ & ->)]; auto.
Qed.

(** A value copied from the using instance is known locally afterwards. *)
Lemma using_from_known x :
  In x fu -> known (field_name field) (local st2) x = true.
Proof.
  destruct using_outcome_cases
    as [(_ & -> & _)|(u & rs & _ & _ & -> & _ & ->)].
  - intros [].
  - intro H. apply in_map_iff in H. destruct H as [r [Hx Hr]].
    apply known_In. exists r. split.
    + simpl. apply persist_all_In. exact Hr.
    + pose proof (using_labels_have_attr field rs vals) as Hall.
      rewrite Forall_forall in Hall. specialize (Hall r Hr).
      unfold attr_of in Hx.
      destruct (dict_get (field_name field) r); congruence.
Qed.

End UsingOutcome.

(** ** The [try] block on the store, taken apart *)

Lemma try_fell_through values field feature_name using_ validated_only
    kwargs df v (w : World Store) lr w' :
  register_labels_try store_ops values field feature_name using_
                      validated_only kwargs df v w
  = Ok (FellThrough lr) w' ->
  unresolved field (backend w) values <> []
  /\ store_outcome values field feature_name using_ validated_only kwargs df
                   (backend w) = Some (lr, backend w').
Proof.
  intro H.
  pose proof (register_labels_try_store values field feature_name using_
                validated_only kwargs df v w) as Hs.
  destruct (unresolved field (backend w) values) as [|x N'].
  - destruct Hs as [tr Hs]. rewrite Hs in H. discriminate H.
  - split; [discriminate|].
    destruct (store_outcome values field feature_name using_ validated_only
                            kwargs df (backend w)) as [[lr0 st']|].
    + destruct Hs as [tr Hs]. rewrite Hs in H. inversion H. reflexivity.
    + destruct Hs as (e & w0 & Hs). rewrite Hs in H. discriminate H.
Qed.

Lemma store_outcome_inv values field feature_name using_ validated_only
    kwargs df st lr st' :
  store_outcome values field feature_name using_ validated_only kwargs df st
  = Some (lr, st') ->
  exists fu nvl st2,
    using_outcome field st using_ (unresolved field st values)
    = Some (fu, nvl, st2)
    /\ let fvr := public_records field st2 nvl in
       let st3 := with_local st2 (persist_all fvr (local st2)) in
       let lr2 := buckets_after_public using_ fu
                    (filter (resolvable field st2) (distinct nvl)) nvl in
       let po := placeholder_outcome (field_model field) field using_
                   validated_only kwargs df lr2 st3 in
       lr = fst po
       /\ if is_ULabel (field_model field)
             && String.eqb (field_name field) "name"
          then linker_outcome field feature_name values (snd po) = Some st'
          else st' = snd po.
Proof.
  unfold store_outcome. intro H.
  destruct (using_outcome field st using_ (unresolved field st values))
    as [[[fu nvl] st2]|]; [|discriminate].
  exists fu, nvl, st2. split; [reflexivity|]. cbv zeta.
  unfold public_records in *. rewrite record_for_names in H.
  destruct (placeholder_outcome (field_model field) field using_
              validated_only kwargs df
              (buckets_after_public using_ fu
                 (filter (resolvable field st2) (distinct nvl)) nvl)
              (with_local st2
                 (persist_all (flat_map (record_for field st2) (distinct nvl))
                              (local st2)))) as [lr3 st4].
  simpl fst. simpl snd.
  destruct (is_ULabel (field_model field)
            && String.eqb (field_name field) "name").
  - destruct (linker_outcome field feature_name values st4) as [st5|];
      [|discriminate].
    inversion H. auto.
  - inversion H. auto.
Qed.

Lemma buckets_after_public_explicit using_ fu fp nvl :
  using_ <> Some "public" ->
  buckets_after_public using_ fu fp nvl
  = [("from public", fp);
     ("without reference", filter (fun i => negb (str_in i fp)) nvl);
     (from_key using_, fu)].
Proof.
  intro Hu. unfold buckets_after_public.
  assert (E1 : String.eqb (from_key using_) "from public" = false).
  { apply String.eqb_neq. intro E. apply Hu. apply from_key_public.
    exact E. }
  assert (E2 : String.eqb (from_key using_) "without reference" = false).
  { apply String.eqb_neq. apply from_key_not_without. }
  cbv zeta. cbn [dict_set]. rewrite E1, E2. reflexivity.
Qed.

(** The buckets the [try] block reports, under a using name other than
    ["public"]. *)
Lemma store_outcome_buckets values field feature_name using_ validated_only
    kwargs df st lr st' :
  using_ <> Some "public" ->
  store_outcome values field feature_name using_ validated_only kwargs df st
  = Some (lr, st') ->
  exists fu nvl st2,
    using_outcome field st using_ (unresolved field st values)
    = Some (fu, nvl, st2)
    /\ let fp := filter (resolvable field st2) (distinct nvl) in
       lr = [("from public", fp);
             ("without reference",
              if df_path (field_model field) validated_only df
              then filter (fun c => negb (str_in c fp) && negb (str_in c fu))
                          match df with
                          | Some df' => columns df'
                          | None => []
                          end
              else filter (fun i => negb (str_in i fp)) nvl);
             (from_key using_, fu)].
Proof.
  intros Hu H. apply store_outcome_inv in H.
  destruct H as (fu & nvl & st2 & Huo & H). cbv zeta in H.
  destruct H as [Hlr _]. exists fu, nvl, st2. split; [exact Huo|].
  cbv zeta. rewrite Hlr, placeholder_outcome_buckets.
  rewrite buckets_after_public_public, buckets_after_public_using by exact Hu.
  rewrite buckets_after_public_explicit by exact Hu.
  destruct (df_path (field_model field) validated_only df); reflexivity.
Qed.

Lemma explicit_buckets using_ (a b c : list string) :
  using_ <> Some "public" ->
  let lr := [("from public", a); ("without reference", b);
             (from_key using_, c)] in
  bucket "from public" lr = a
  /\ bucket "without reference" lr = b
  /\ bucket (from_key using_) lr = c.
Proof.
  intro Hu. cbv zeta. unfold bucket.
  assert (E1 : String.eqb (from_key using_) "from public" = false).
  { apply String.eqb_neq. intro E. apply Hu. apply from_key_public.
    exact E. }
  assert (E2 : String.eqb (from_key using_) "without reference" = false).
  { apply String.eqb_neq. apply from_key_not_without. }
  cbn [dict_get]. rewrite E1, E2, !String.eqb_refl.
  repeat split; reflexivity.
Qed.

(** ** Partition of the unresolved values *)

(** C1, as the code has it. For a call that gets past the local inspection
    and whose using name is not the literal ["public"]: the remainder is
    not empty, the bucket map has exactly the three keys, the three buckets
    are pairwise disjoint, and "from <using>" and "from public" hold
    unresolved values only.  Off the dataframe path the three buckets
    together are exactly the unresolved values; on the dataframe path
    (feature registry, dataframe supplied, placeholders wanted) "without
    reference" is instead the column labels found in neither other
    bucket. *)
Theorem buckets_partition_unresolved values field feature_name using_
    validated_only kwargs df v (w : World Store) lr w' :
  register_labels_try store_ops values field feature_name using_
                      validated_only kwargs df v w
  = Ok (FellThrough lr) w' ->
  using_ <> Some "public" ->
  let N := unresolved field (backend w) values in
  let fu := bucket (from_key using_) lr in
  let fp := bucket "from public" lr in
  let wr := bucket "without reference" lr in
  N <> []
  /\ map fst lr = ["from public"; "without reference"; from_key using_]
  /\ (forall x, In x fu -> In x fp -> False)
  /\ (forall x, In x fu -> In x wr -> False)
  /\ (forall x, In x fp -> In x wr -> False)
  /\ (forall x, In x fu -> In x N)
  /\ (forall x, In x fp -> In x N)
  /\ (df_path (field_model field) validated_only df = false ->
      forall x, In x N <-> In x fu \/ In x fp \/ In x wr)
  /\ (forall df', df = Some df' ->
      df_path (field_model field) validated_only df = true ->
      wr = filter (fun c => negb (str_in c fp) && negb (str_in c fu))
                  (columns df')).
Proof.
  intros H Hu. apply try_fell_through in H. destruct H as [HN H].
  apply store_outcome_buckets in H; [|exact Hu].
  destruct H as (fu0 & nvl & st2 & Huo & Hlr). cbv zeta in Hlr.
  set (fp0 := filter (resolvable field st2) (distinct nvl)) in *.
  set (wr0 := if df_path (field_model field) validated_only df
              then filter (fun c => negb (str_in c fp0)
                                    && negb (str_in c fu0))
                          match df with
                          | Some df' => columns df'
                          | None => []
                          end
              else filter (fun i => negb (str_in i fp0)) nvl) in *.
  destruct (@explicit_buckets using_ fp0 wr0 fu0 Hu) as (Bp & Bw & Bu).
  cbv zeta in Bp, Bw, Bu. rewrite <- Hlr in Bp, Bw, Bu.
  cbv zeta. rewrite Bp, Bw, Bu.
  assert (Hfp : forall x, In x fp0 -> In x nvl).
  { intros x Hx. apply filter_In in Hx. apply In_distinct. apply Hx. }
  split; [exact HN|]. split; [rewrite Hlr; reflexivity|].
  split; [intros x Hx Hp; eapply using_disjoint; eauto|].
  split.
  { intros x Hx Hw. unfold wr0 in Hw.
    destruct (df_path (field_model field) validated_only df).
    - apply filter_In in Hw. destruct Hw as [_ Hw].
      apply andb_true_iff in Hw. destruct Hw as [_ Hw].
      apply str_in_In in Hx. rewrite Hx in Hw. discriminate Hw.
    - apply filter_In in Hw. destruct Hw as [Hw _].
      eapply using_disjoint; eauto. }
  split.
  { intros x Hx Hw. unfold wr0 in Hw. apply str_in_In in Hx.
    destruct (df_path (field_model field) validated_only df);
      apply filter_In in Hw; destruct Hw as [_ Hw].
    - apply andb_true_iff in Hw. destruct Hw as [Hw _].
      rewrite Hx in Hw. discriminate Hw.
    - rewrite Hx in Hw. discriminate Hw. }
  split; [intros x Hx; eapply using_from_sub; eauto|].
  split; [intros x Hx; eapply using_left_sub; eauto|].
  split.
  - intros Hdf x. unfold wr0. rewrite Hdf. split.
    + intro Hx.
      destruct (@using_cover _ _ _ _ _ _ _ Huo x Hx) as [Hf|Hn]; [auto|].
      destruct (str_in x fp0) eqn:E.
      * right. left. apply str_in_In. exact E.
      * right. right. apply filter_In. rewrite E. auto.
    + intros [Hx|[Hx|Hx]].
      * eapply using_from_sub; eauto.
      * eapply using_left_sub; eauto.
      * apply filter_In in Hx. eapply using_left_sub; [eauto|apply Hx].
  - intros df' -> Hdf. unfold wr0. rewrite Hdf. reflexivity.
Qed.

(** The three-tissue call gets past the local inspection, off the
    dataframe path: its buckets are exactly the unresolved values. *)
Lemma buckets_partition_unresolved_witness :
  exists lr w',
    register_labels_try store_ops Examples.tissue_values Examples.tissue
                        "tissue" (Some "atlas") true [] None "warning"
                        (initial "warning" Examples.tissue_store)
    = Ok (FellThrough lr) w'
    /\ forall x,
         In x (unresolved Examples.tissue Examples.tissue_store
                          Examples.tissue_values)
         <-> In x (bucket (from_key (Some "atlas")) lr)
             \/ In x (bucket "from public" lr)
             \/ In x (bucket "without reference" lr).
Proof.
  eexists. eexists. split; [vm_compute; reflexivity|].
  refine (proj1 (proj2 (proj2 (proj2 (proj2 (proj2 (proj2 (proj2
    (@buckets_partition_unresolved Examples.tissue_values Examples.tissue
       "tissue" (Some "atlas") true [] None "warning"
       (initial "warning" Examples.tissue_store) _ _ _ _)))))))) _).
  - vm_compute. reflexivity.
  - discriminate.
  - reflexivity.
Defined.

(** C1 as stated fails on the dataframe path: with the feature ["age"]
    already validated locally and a dataframe with the columns ["age"] and
    ["dose"], "without reference" holds ["age"], which is not among the
    unresolved values. *)
Lemma df_path_bucket_counterexample :
  exists lr w',
    register_labels_try store_ops ["age"; "dose"] Examples.feature "feature"
                        None false [] (Some Examples.measurements) "warning"
                        (initial "warning" Examples.feature_store)
    = Ok (FellThrough lr) w'
    /\ In "age" (bucket "without reference" lr)
    /\ ~ In "age" (unresolved Examples.feature Examples.feature_store
                              ["age"; "dose"]).
Proof.
  eexists. eexists. split; [vm_compute; reflexivity|]. split.
  - vm_compute. left. reflexivity.
  - vm_compute. intros [H|[]]. discriminate H.
Qed.

(** ** Precedence of the using instance *)

(** C8, as the code has it. A value the local registry does not validate
    and the using instance does is reported under "from <using>", and under
    neither "from public" nor "without reference", whatever the public
    reference knows and on every path of the placeholder stage (using name
    other than ["default"] and ["public"]). *)
Theorem using_takes_precedence values field feature_name u validated_only
    kwargs df v (w : World Store) lr w' rs x :
  register_labels_try store_ops values field feature_name (Some u)
                      validated_only kwargs df v w
  = Ok (FellThrough lr) w' ->
  u <> "default" ->
  u <> "public" ->
  dict_get u (instances (backend w)) = Some rs ->
  In x (unresolved field (backend w) values) ->
  known (field_name field) rs x = true ->
  In x (bucket (from_key (Some u)) lr)
  /\ ~ In x (bucket "from public" lr)
  /\ ~ In x (bucket "without reference" lr).
Proof.
  intros H Hd Hp Hrs HxN Hk.
  assert (Hu : Some u <> Some "public") by congruence.
  apply try_fell_through in H. destruct H as [_ H].
  apply store_outcome_buckets in H; [|exact Hu].
  destruct H as (fu & nvl & st2 & Huo & Hlr). cbv zeta in Hlr.
  match type of Hlr with
  | _ = [(_, ?a); (_, ?b); (_, ?c)] =>
      destruct (@explicit_buckets (Some u) a b c Hu) as (Bp & Bw & Bu)
  end.
  cbv zeta in Bp, Bw, Bu. rewrite <- Hlr in Bp, Bw, Bu.
  rewrite Bp, Bw, Bu. clear Bp Bw Bu Hlr.
  assert (Hin : In x fu).
  { destruct (@using_outcome_cases _ _ _ _ _ _ _ Huo)
      as [(Hr & _)|(u' & rs' & Hr & Hget & -> & _)];
      unfold remote_instance in Hr;
      apply String.eqb_neq in Hd; rewrite Hd in Hr; [discriminate Hr|].
    inversion Hr; subst u'. rewrite Hrs in Hget.
    inversion Hget; subst rs'.
    apply In_using_labels. split; [exact HxN|exact Hk]. }
  assert (Hleft : ~ In x nvl)
    by (intro Hc; eapply using_disjoint; eauto).
  split; [exact Hin|]. split; intro Hc.
  - apply filter_In in Hc. apply Hleft. apply In_distinct. apply Hc.
  - destruct (df_path (field_model field) validated_only df);
      apply filter_In in Hc; destruct Hc as [Hc1 Hc2].
    + apply andb_true_iff in Hc2. destruct Hc2 as [_ Hc2].
      apply str_in_In in Hin. rewrite Hin in Hc2. discriminate Hc2.
    + exact (Hleft Hc1).
Qed.

(** On the three-tissue call ["heart"] is unresolved locally and validated
    by ["atlas"]. *)
Lemma using_takes_precedence_witness :
  exists lr w',
    register_labels_try store_ops Examples.tissue_values Examples.tissue
                        "tissue" (Some "atlas") true [] None "warning"
                        (initial "warning" Examples.tissue_store)
    = Ok (FellThrough lr) w'
    /\ In "heart" (bucket (from_key (Some "atlas")) lr)
    /\ ~ In "heart" (bucket "from public" lr)
    /\ ~ In "heart" (bucket "without reference" lr).
Proof.
  eexists. eexists. split; [vm_compute; reflexivity|].
  eapply (@using_takes_precedence Examples.tissue_values Examples.tissue
           "tissue" "atlas" true [] None "warning"
           (initial "warning" Examples.tissue_store) _ _
           [Examples.named "heart"] "heart").
  - vm_compute. reflexivity.
  - discriminate.
  - discriminate.
  - reflexivity.
  - vm_compute. left. reflexivity.
  - reflexivity.
Defined.

(** C8 as stated fails for a value the local registry validates too:
    ["liver"] is an input value and the instance ["atlas"] holds it, yet it
    is not reported under "from atlas". *)
Lemma using_takes_precedence_counterexample :
  exists lr w',
    register_labels_try store_ops Examples.tissue_values Examples.tissue
                        "tissue" (Some "atlas") true [] None "warning"
                        (initial "warning" Examples.shared_store)
    = Ok (FellThrough lr) w'
    /\ In "liver" Examples.tissue_values
    /\ known "name" [Examples.named "heart"; Examples.named "liver"] "liver"
       = true
    /\ dict_get "atlas" (instances Examples.shared_store)
       = Some [Examples.named "heart"; Examples.named "liver"]
    /\ ~ In "liver" (bucket (from_key (Some "atlas")) lr).
Proof.
  eexists. eexists. split; [vm_compute; reflexivity|].
  split; [left; reflexivity|].
  split; [reflexivity|]. split; [reflexivity|].
  vm_compute. intros [H|[]]. discriminate H.
Qed.

(** For a using instance named ["public"] the key [f"from {using}"] is
    ["from public"]: line 128 overwrites what line 112 stored, and
    ["heart"], copied from the instance, is reported in no bucket. *)
Lemma using_named_public_overwritten :
  exists lr w',
    register_labels_try store_ops Examples.tissue_values Examples.tissue
                        "tissue" (Some "public") true [] None "warning"
                        (initial "warning" Examples.public_named_store)
    = Ok (FellThrough lr) w'
    /\ lr = [("from public", []); ("without reference", ["unknowntissue"])]
    /\ In (Examples.named "heart") (local (backend w')).
Proof.
  eexists. eexists. split; [vm_compute; reflexivity|].
  split; [reflexivity|]. vm_compute. right. left. reflexivity.
Qed.

(** ** The placeholder stage on the store *)

Lemma placeholder_kwargs_seq_In registry field vals kwargs x :
  In x vals ->
  exists kw0,
    In (placeholder_kwargs registry field x kw0)
       (placeholder_kwargs_seq registry field vals kwargs).
Proof.
  revert kwargs. induction vals as [|y vals IH]; intros kwargs H;
    [destruct H|].
  simpl. destruct H as [->|H].
  - exists kwargs. left. reflexivity.
  - destruct (IH (placeholder_kwargs registry field y kwargs) H)
      as [kw0 Hkw]. exists kw0. right. exact Hkw.
Qed.

Lemma linker_outcome_grows field feature_name values st st' r :
  linker_outcome field feature_name values st = Some st' ->
  In r (local st) -> In r (local st').
Proof.
  unfold linker_outcome.
  destruct (filter (has_attr "name" ("is_" ++ feature_name)%string)
                   (local st)) as [|p [|q rest]];
    intro H; inversion H; subst; simpl; [apply persist_incl|auto].
Qed.

Lemma linker_outcome_frame field feature_name values st st' :
  linker_outcome field feature_name values st = Some st' ->
  instances st' = instances st /\ public st' = public st
  /\ organism_scoped st' = organism_scoped st.
Proof.
  unfold linker_outcome.
  destruct (filter (has_attr "name" ("is_" ++ feature_name)%string)
                   (local st)) as [|p [|q rest]];
    intro H; inversion H; subst; simpl; auto.
Qed.

(** The store the placeholder stage leaves holds what it held. *)
Lemma placeholder_outcome_grows registry field using_ validated_only kwargs
    df lr st r :
  In r (local st) ->
  In r (local (snd (placeholder_outcome registry field using_ validated_only
                                        kwargs df lr st))).
Proof.
  intro H. unfold placeholder_outcome.
  destruct validated_only; [exact H|].
  destruct df as [df'|]; [destruct (is_Feature registry)|]; simpl;
    apply persist_all_incl; exact H.
Qed.

Lemma placeholder_outcome_frame registry field using_ validated_only kwargs
    df lr st :
  let st' := snd (placeholder_outcome registry field using_ validated_only
                                      kwargs df lr st) in
  instances st' = instances st /\ public st' = public st
  /\ links st' = links st /\ organism_scoped st' = organism_scoped st.
Proof.
  unfold placeholder_outcome.
  destruct validated_only; [simpl; auto|].
  destruct df as [df'|]; [destruct (is_Feature registry)|]; simpl; auto.
Qed.

(** Every value of "without reference" has its placeholder in the store
    the stage leaves. *)
Lemma placeholder_outcome_creates registry field using_ kwargs df lr st x :
  let po := placeholder_outcome registry field using_ false kwargs df lr st in
  In x (bucket "without reference" (fst po)) ->
  if df_path registry false df
  then In [("name", x)] (local (snd po))
  else exists kw0,
         In (placeholder_kwargs registry field x kw0) (local (snd po)).
Proof.
  unfold placeholder_outcome, df_path. simpl negb. cbv zeta. cbv iota.
  destruct df as [df'|]; [destruct (is_Feature registry)|]; simpl.
  - rewrite bucket_set_same. intro H. apply filter_In in H.
    apply persist_all_In. apply in_map_iff. exists x. split; [reflexivity|].
    apply H.
  - intro H.
    destruct (placeholder_kwargs_seq_In registry field _ kwargs x H)
      as [kw0 Hkw].
    exists kw0. apply persist_all_In. exact Hkw.
  - intro H.
    destruct (placeholder_kwargs_seq_In registry field _ kwargs x H)
      as [kw0 Hkw].
    exists kw0. apply persist_all_In. exact Hkw.
Qed.

(** ** The claims on the example calls *)

Ltac find_in := repeat (first [left; reflexivity | right]).

(** A call on values the local registry validates in full. *)
Lemma noop_on_full_validation_witness :
  register_labels store_ops ["liver"] Examples.tissue "tissue"
                  (Some "atlas") true None None
                  (initial "warning" Examples.tissue_store)
  = Ok None
       {| verbosity := "warning";
          trace := [(Start, OCheckOrganism None);
                    (LocalInspect,
                     OInspect (current (field_model Examples.tissue))
                              ["liver"])];
          backend := Examples.tissue_store |}.
Proof.
  refine (@noop_on_full_validation Store store_ops ["liver"] Examples.tissue
            "tissue" (Some "atlas") true None None
            (initial "warning" Examples.tissue_store) false
            Examples.tissue_store
            {| validated := ["liver"]; non_validated := [] |}
            Examples.tissue_store _ _ _); reflexivity.
Defined.

(** The three-tissue call on labels returns, and returns [None]. *)
Lemma register_labels_returns_None_witness :
  exists rv w',
    register_labels store_ops Examples.tissue_values Examples.ulabel "tissue"
                    (Some "atlas") true None None
                    (initial "warning" Examples.tissue_store)
    = Ok rv w'
    /\ rv = None.
Proof.
  eexists. eexists. split; [vm_compute; reflexivity|].
  refine (proj1 (@register_labels_returns_None Store store_ops
                   Examples.tissue_values Examples.ulabel "tissue"
                   (Some "atlas") true None None
                   (initial "warning" Examples.tissue_store) _ _ _)).
  vm_compute. reflexivity.
Defined.

(** C2 as stated fails: the three-tissue call on labels fills two buckets
    and creates the parent label ["is_tissue"], and hands back neither. *)
Lemma returns_report_counterexample :
  let r := register_labels store_ops Examples.tissue_values Examples.ulabel
             "tissue" (Some "atlas") true None None
             (initial "warning" Examples.tissue_store) in
  (forall report w', r <> Ok (Some report) w')
  /\ (exists w', r = Ok None w')
  /\ In (Examples.named "is_tissue") (local (backend (world_of r)))
  /\ ~ In (Examples.named "is_tissue") (local Examples.tissue_store).
Proof.
  cbv zeta. split; [|split; [|split]].
  - intros report w'. vm_compute. discriminate.
  - eexists. vm_compute. reflexivity.
  - vm_compute. find_in.
  - vm_compute. intros [H|[]]. discriminate H.
Qed.

(** The three-tissue scenario: no placeholder is made, the registry ends
    with ["liver"] and ["heart"] only, and ["unknowntissue"] is reported
    and not registered. *)
Lemma validated_only_skips_placeholders_witness :
  let r := register_labels store_ops Examples.tissue_values Examples.tissue
             "tissue" (Some "atlas") true None None
             (initial "warning" Examples.tissue_store) in
  stage_events Placeholder (trace (world_of r)) = []
  /\ local (backend (world_of r))
     = [Examples.named "liver"; Examples.named "heart"]
  /\ stage_events Report (trace (world_of r))
     = [(Report,
         OLogWarning {| log_count := 1;
                        log_labels_type := "labels";
                        log_key := "without reference";
                        log_model_field := "Tissue.name";
                        log_labels := ["unknowntissue"];
                        log_feature_name := "tissue" |});
        (Report,
         OLogSuccess {| log_count := 1;
                        log_labels_type := "labels";
                        log_key := "from atlas";
                        log_model_field := "Tissue.name";
                        log_labels := ["heart"];
                        log_feature_name := "tissue" |})].
Proof.
  cbv zeta. split; [|split; vm_compute; reflexivity].
  exact (@validated_only_skips_placeholders Store store_ops
           Examples.tissue_values Examples.tissue "tissue" (Some "atlas")
           None None (initial "warning" Examples.tissue_store) eq_refl).
Defined.

(** C3 as stated fails for a registry without a [public] attribute: the
    caller passes [validated_only=True], and the placeholder for
    ["unknowntissue"] is constructed and saved all the same. *)
Lemma validated_only_counterexample :
  let r := register_labels store_ops Examples.tissue_values Examples.ulabel
             "tissue" (Some "atlas") true None None
             (initial "warning" Examples.tissue_store) in
  In (Placeholder, OConstruct (Examples.named "unknowntissue"))
     (trace (world_of r))
  /\ In (Placeholder, OSave [Examples.named "unknowntissue"])
        (trace (world_of r))
  /\ In (Examples.named "unknowntissue") (local (backend (world_of r)))
  /\ ~ In (Examples.named "unknowntissue") (local Examples.tissue_store).
Proof.
  cbv zeta. split; [|split; [|split]].
  - vm_compute. find_in.
  - vm_compute. find_in.
  - vm_compute. find_in.
  - vm_compute. intros [H|[]]. discriminate H.
Qed.

(** ** The parent label *)

(** One call of the linker on the store, with the calls it makes. *)
Lemma linker_call_store values field feature_name (w : World Store) w' :
  register_ulabels_with_parent store_ops values field feature_name w
  = Ok tt w' ->
  exists p d,
    trace w' = trace w ++ d
    /\ List.length (filter is_parent_construct d) <= 1
    /\ links_under p d
    /\ parents feature_name (backend w') = [p]
    /\ (forall p0,
          parents feature_name (backend w) = [p0] ->
          p = p0
          /\ filter is_parent_construct d = []
          /\ local (backend w') = local (backend w)).
Proof.
  unfold register_ulabels_with_parent.
  destruct (is_ULabel (field_model field));
    [change (negb true) with false
    |change (negb false) with true; cbv iota; intro H; discriminate H].
  cbv iota zeta.
  set (nm := ("is_" ++ feature_name)%string).
  set (all := flat_map (record_for field (backend w)) (distinct values)).
  set (w1 := retrace w (trace w ++ [(HierarchyLink, OFromValues values)])
               (backend w)).
  set (w2 := retrace w (trace w1 ++ [(HierarchyLink, OOneOrNone nm)])
               (backend w)).
  intro H.
  erewrite bind_Ok_intro with (a := all) (w1 := w1) in H; [|reflexivity].
  unfold parents. fold nm.
  destruct (filter (has_attr "name" nm) (local (backend w)))
    as [|r [|r' rest]] eqn:Hf.
  - erewrite bind_Ok_intro with (a := @None Rec) (w1 := w2) in H.
    2:{ unfold call, store_ops, filter_one_or_none, store_one_or_none.
        simpl. rewrite Hf. reflexivity. }
    cbv iota in H.
    erewrite bind_Ok_intro in H; [|reflexivity].
    unfold call, store_ops, children_add, store_children_add in H.
    inversion H; subst w'; clear H. simpl.
    exists [("name", nm)].
    exists [(HierarchyLink, OFromValues values);
            (HierarchyLink, OOneOrNone nm);
            (HierarchyLink, OConstruct [("name", nm)]);
            (HierarchyLink, ORecordSave [("name", nm)]);
            (HierarchyLink, OChildrenAdd [("name", nm)] all)].
    split; [rewrite <- !app_assoc; reflexivity|].
    split; [simpl; lia|].
    split.
    { intros parent children Hin. simpl in Hin.
      destruct Hin as [E|[E|[E|[E|[E|[]]]]]]; inversion E. reflexivity. }
    split.
    { unfold persist.
      assert (Hnot : rec_in [("name", nm)] (local (backend w)) = false).
      { destruct (rec_in [("name", nm)] (local (backend w))) eqn:E;
          [|reflexivity].
        apply rec_in_In in E.
        assert (Hin : In [("name", nm)]
                         (filter (has_attr "name" nm) (local (backend w)))).
        { apply filter_In. split; [exact E|].
          apply has_attr_get. simpl. reflexivity. }
        rewrite Hf in Hin. destruct Hin. }
      rewrite Hnot. rewrite filter_app, Hf. simpl.
      unfold has_attr. simpl. rewrite String.eqb_refl. reflexivity. }
    intros p0 Hp. discriminate Hp.
  - erewrite bind_Ok_intro with (a := Some r) (w1 := w2) in H.
    2:{ unfold call, store_ops, filter_one_or_none, store_one_or_none.
        simpl. rewrite Hf. reflexivity. }
    cbv iota in H.
    erewrite bind_Ok_intro in H; [|reflexivity].
    unfold call, store_ops, children_add, store_children_add in H.
    inversion H; subst w'; clear H. simpl.
    exists r.
    exists [(HierarchyLink, OFromValues values);
            (HierarchyLink, OOneOrNone nm);
            (HierarchyLink, OChildrenAdd r all)].
    split; [rewrite <- !app_assoc; reflexivity|].
    split; [simpl; lia|].
    split.
    { intros parent children Hin. simpl in Hin.
      destruct Hin as [E|[E|[E|[]]]]; inversion E. reflexivity. }
    split; [exact Hf|].
    intros p0 Hp. inversion Hp. repeat split; reflexivity.
  - erewrite bind_Raise_intro in H; [discriminate H|].
    unfold call, store_ops, filter_one_or_none, store_one_or_none.
    simpl. rewrite Hf. reflexivity.
Qed.

(** Once the parent is stored, further calls find it and construct
    nothing. *)
Lemma link_calls_reuse calls field feature_name p (w : World Store) w' :
  parents feature_name (backend w) = [p] ->
  link_calls store_ops calls field feature_name w = Ok tt w' ->
  exists d,
    trace w' = trace w ++ d
    /\ filter is_parent_construct d = []
    /\ links_under p d
    /\ local (backend w') = local (backend w).
Proof.
  revert w. induction calls as [|values calls IH]; intros w Hp H.
  - simpl in H. inversion H; subst. exists [].
    rewrite app_nil_r. repeat split; try reflexivity.
    intros parent children [].
  - simpl in H. apply bind_Ok in H. destruct H as ([] & w1 & H1 & H).
    apply linker_call_store in H1.
    destruct H1 as (p1 & d1 & Ht1 & _ & Hl1 & Hp1 & Hsame).
    destruct (Hsame p Hp) as (-> & Hc1 & Hloc1).
    destruct (IH w1 Hp1 H) as (d & Ht & Hc & Hl & Hloc).
    exists (d1 ++ d). rewrite Ht, Ht1, <- app_assoc.
    split; [reflexivity|]. split.
    + rewrite filter_app, Hc1, Hc. reflexivity.
    + split.
      * intros parent children Hin. apply in_app_or in Hin.
        destruct Hin as [Hin|Hin]; [eapply Hl1|eapply Hl]; exact Hin.
      * congruence.
Qed.

(** C7. Over any number of calls of the hierarchy linker for one feature
    name, one after the other on the store: the first call leaves exactly
    one record named [is_<feature_name>]; all calls together construct at
    most one record, and the calls after the first construct none; every
    [children.add], of the first call and of the later ones, is called on
    that one record, and it is still the only one of its name at the
    end. *)
Theorem parent_created_at_most_once values calls field feature_name
    (w w' : World Store) :
  link_calls store_ops (values :: calls) field feature_name w = Ok tt w' ->
  exists w1 p d1 d,
    register_ulabels_with_parent store_ops values field feature_name w
    = Ok tt w1
    /\ trace w1 = trace w ++ d1
    /\ trace w' = trace w1 ++ d
    /\ List.length (filter is_parent_construct (d1 ++ d)) <= 1
    /\ filter is_parent_construct d = []
    /\ parents feature_name (backend w1) = [p]
    /\ parents feature_name (backend w') = [p]
    /\ links_under p (d1 ++ d).
Proof.
  intro H. simpl in H. apply bind_Ok in H.
  destruct H as ([] & w1 & H1 & H). pose proof H1 as H1'.
  apply linker_call_store in H1.
  destruct H1 as (p & d1 & Ht1 & Hc1 & Hl1 & Hp1 & _).
  destruct (@link_calls_reuse _ _ _ _ _ _ Hp1 H) as (d & Ht & Hc & Hl & Hloc).
  exists w1, p, d1, d.
  split; [exact H1'|]. split; [exact Ht1|]. split; [exact Ht|].
  split; [rewrite filter_app, Hc, app_nil_r; exact Hc1|].
  split; [exact Hc|]. split; [exact Hp1|]. split.
  - unfold parents in *. rewrite Hloc. exact Hp1.
  - intros parent children Hin. apply in_app_or in Hin.
    destruct Hin as [Hin|Hin]; [eapply Hl1|eapply Hl]; exact Hin.
Qed.

(** Three calls for the feature ["tissue"] on a registry without the
    parent label. *)
Lemma parent_created_at_most_once_witness :
  exists w',
    link_calls store_ops [["liver"]; ["heart"]; ["liver"; "heart"]]
               Examples.ulabel "tissue"
               (initial "warning" Examples.labels_store)
    = Ok tt w'
    /\ exists w1 p d1 d,
       register_ulabels_with_parent store_ops ["liver"] Examples.ulabel
         "tissue" (initial "warning" Examples.labels_store)
       = Ok tt w1
    /\ trace w1 = [] ++ d1
    /\ trace w' = trace w1 ++ d
    /\ List.length (filter is_parent_construct (d1 ++ d)) <= 1
    /\ filter is_parent_construct d = []
    /\ parents "tissue" (backend w1) = [p]
    /\ parents "tissue" (backend w') = [p]
    /\ links_under p (d1 ++ d).
Proof.
  eexists. split; [vm_compute; reflexivity|].
  apply (@parent_created_at_most_once ["liver"]
           [["heart"]; ["liver"; "heart"]] Examples.ulabel "tissue"
           (initial "warning" Examples.labels_store)).
  vm_compute. reflexivity.
Defined.

(** ** A second call *)

Lemma grows_refl st : grows st st.
Proof. unfold grows. auto. Qed.

Lemma grows_trans st1 st2 st3 : grows st1 st2 -> grows st2 st3 -> grows st1 st3.
Proof.
  unfold grows. intros (A1 & B1 & C1 & D1) (A2 & B2 & C2 & D2).
  repeat split; try congruence. auto.
Qed.

Lemma grows_persist_all st rs :
  grows st (with_local st (persist_all rs (local st))).
Proof.
  unfold grows. simpl. repeat split. intros r. apply persist_all_incl.
Qed.

Lemma grows_known field st st' x :
  grows st st' ->
  known (field_name field) (local st) x = true ->
  known (field_name field) (local st') x = true.
Proof. intros [H _]. apply known_incl. exact H. Qed.

Lemma In_unresolved field st values x :
  In x (unresolved field st values)
  <-> In x values /\ known (field_name field) (local st) x = false.
Proof.
  unfold unresolved. rewrite filter_In, In_distinct.
  destruct (known (field_name field) (local st) x); simpl;
    split; intros [H1 H2]; split; auto; discriminate.
Qed.

Lemma unresolved_shrinks field st st' values x :
  grows st st' ->
  In x (unresolved field st' values) -> In x (unresolved field st values).
Proof.
  intros Hg H. apply In_unresolved in H. destruct H as [Hv Hk].
  apply In_unresolved. split; [exact Hv|].
  destruct (known (field_name field) (local st) x) eqn:K; [|reflexivity].
  rewrite (grows_known field x Hg K) in Hk. discriminate Hk.
Qed.

Lemma filter_none (A : Type) (p : A -> bool) l :
  (forall x, In x l -> p x = false) -> filter p l = [].
Proof.
  induction l as [|a l IH]; intro H; simpl; [reflexivity|].
  rewrite (H a) by (left; reflexivity).
  apply IH. intros x Hx. apply H. right. exact Hx.
Qed.

Lemma flat_map_none (A C : Type) (f : A -> list C) l :
  (forall x, In x l -> f x = []) -> flat_map f l = [].
Proof.
  induction l as [|a l IH]; intro H; simpl; [reflexivity|].
  rewrite (H a) by (left; reflexivity). simpl.
  apply IH. intros x Hx. apply H. right. exact Hx.
Qed.

Lemma no_element (A : Type) (l : list A) : (forall x, ~ In x l) -> l = [].
Proof.
  destruct l as [|a l]; [reflexivity|]. intro H.
  exfalso. apply (H a). left. reflexivity.
Qed.

Lemma using_labels_none field rs vals :
  (forall x, In x vals -> known (field_name field) rs x = false) ->
  using_labels field rs vals = [].
Proof.
  intro H. unfold using_labels.
  rewrite (@filter_none _ (known (field_name field) rs) (distinct vals)).
  - apply filter_none. intros r _. unfold attr_in.
    destruct (dict_get (field_name field) r); reflexivity.
  - intros x Hx. apply H. apply In_distinct. exact Hx.
Qed.

Lemma dict_set_set (V : Type) k (v1 v2 : V) d :
  dict_set k v2 (dict_set k v1 d) = dict_set k v2 d.
Proof.
  induction d as [|[k' v'] d IH]; simpl.
  - rewrite String.eqb_refl. reflexivity.
  - destruct (String.eqb k k') eqn:E; simpl; rewrite E;
      [reflexivity|rewrite IH; reflexivity].
Qed.

(** The placeholder of a value carries the value under the field, unless
    the field is the ["type"] of a feature, which line 149 overwrites. *)
Lemma placeholder_kwargs_attr registry field x kw :
  is_Feature registry && String.eqb (field_name field) "type" = false ->
  dict_get (field_name field) (placeholder_kwargs registry field x kw)
  = Some x.
Proof.
  intro H. unfold placeholder_kwargs.
  destruct (is_Feature registry); simpl in H.
  - apply String.eqb_neq in H.
    rewrite dict_get_set_other by exact H. apply dict_get_set_same.
  - apply dict_get_set_same.
Qed.

(** In that case every placeholder is the same record. *)
Lemma placeholder_kwargs_seq_type registry field vals kw r :
  is_Feature registry && String.eqb (field_name field) "type" = true ->
  In r (placeholder_kwargs_seq registry field vals kw) ->
  r = dict_set "type" "category" kw.
Proof.
  intro H. apply andb_true_iff in H. destruct H as [HF Ht].
  apply String.eqb_eq in Ht.
  assert (Hone : forall x k,
             placeholder_kwargs registry field x k
             = dict_set "type" "category" k).
  { intros x k. unfold placeholder_kwargs. rewrite HF, Ht.
    apply dict_set_set. }
  revert kw. induction vals as [|x vals IH]; intros kw Hin; [destruct Hin|].
  simpl in Hin. rewrite Hone in Hin. destruct Hin as [<-|Hin].
  - reflexivity.
  - apply IH in Hin. rewrite Hin. apply dict_set_set.
Qed.

Lemma placeholder_outcome_store registry field using_ validated_only kwargs
    df lr st :
  snd (placeholder_outcome registry field using_ validated_only kwargs df
                           lr st)
  = with_local st
      (persist_all (placeholder_saved registry field validated_only kwargs
                                      df lr)
                   (local st)).
Proof.
  unfold placeholder_outcome, placeholder_saved, df_path.
  destruct validated_only; simpl.
  - symmetry. apply with_local_local.
  - destruct df as [df'|]; [destruct (is_Feature registry)|]; reflexivity.
Qed.

Lemma store_outcome_intro values field feature_name using_ validated_only
    kwargs df st fu nvl st2 st' :
  using_outcome field st using_ (unresolved field st values)
  = Some (fu, nvl, st2) ->
  let fvr := public_records field st2 nvl in
  let st3 := with_local st2 (persist_all fvr (local st2)) in
  let lr2 := buckets_after_public using_ fu
               (filter (resolvable field st2) (distinct nvl)) nvl in
  let po := placeholder_outcome (field_model field) field using_
              validated_only kwargs df lr2 st3 in
  (if is_ULabel (field_model field) && String.eqb (field_name field) "name"
   then linker_outcome field feature_name values (snd po) = Some st'
   else st' = snd po) ->
  store_outcome values field feature_name using_ validated_only kwargs df st
  = Some (fst po, st').
Proof.
  intros Huo. cbv zeta. intro Hlink. unfold store_outcome. rewrite Huo.
  cbv zeta. unfold public_records in *. rewrite record_for_names.
  destruct (placeholder_outcome (field_model field) field using_
              validated_only kwargs df
              (buckets_after_public using_ fu
                 (filter (resolvable field st2) (distinct nvl)) nvl)
              (with_local st2
                 (persist_all (flat_map (record_for field st2) (distinct nvl))
                              (local st2)))) as [lr3 st4].
  simpl fst in *. simpl snd in *.
  destruct (is_ULabel (field_model field)
            && String.eqb (field_name field) "name").
  - rewrite Hlink. reflexivity.
  - rewrite Hlink. reflexivity.
Qed.

Lemma record_for_some field st v :
  resolvable field st v = true ->
  exists r, In r (record_for field st v).
Proof.
  unfold resolvable, record_for. intro H.
  destruct (find (has_attr (field_name field) v) (local st)) as [r|] eqn:E.
  - exists r. left. reflexivity.
  - apply find_known in E. rewrite E in H. simpl in H. rewrite H.
    eexists. left. reflexivity.
Qed.

Lemma linker_outcome_parent field feature_name values st st' :
  linker_outcome field feature_name values st = Some st' ->
  exists p, parents feature_name st' = [p].
Proof.
  unfold linker_outcome, parents.
  set (nm := ("is_" ++ feature_name)%string).
  destruct (filter (has_attr "name" nm) (local st))
    as [|p [|q rest]] eqn:Hf;
    intro H; inversion H; subst; clear H; cbn [local with_local with_links].
  - exists [("name", nm)]. unfold persist.
    assert (Hnot : rec_in [("name", nm)] (local st) = false).
    { destruct (rec_in [("name", nm)] (local st)) eqn:E; [|reflexivity].
      apply rec_in_In in E.
      assert (Hin : In [("name", nm)]
                       (filter (has_attr "name" nm) (local st))).
      { apply filter_In. split; [exact E|].
        apply has_attr_get. simpl. reflexivity. }
      rewrite Hf in Hin. destruct Hin. }
    rewrite Hnot, filter_app, Hf. simpl.
    unfold has_attr. simpl. rewrite String.eqb_refl. reflexivity.
  - exists p. exact Hf.
Qed.

Lemma linker_outcome_found field feature_name values st p :
  parents feature_name st = [p] ->
  exists st',
    linker_outcome field feature_name values st = Some st'
    /\ local st' = local st /\ grows st st'.
Proof.
  unfold parents, linker_outcome. intro H. rewrite H.
  eexists. split; [reflexivity|]. split; [reflexivity|].
  unfold grows. simpl. auto.
Qed.

Lemma placeholder_saved_cases registry field validated_only kwargs df lr r :
  In r (placeholder_saved registry field validated_only kwargs df lr) ->
  validated_only = false
  /\ (df_path registry validated_only df = true
      \/ df_path registry validated_only df = false
         /\ In r (placeholder_kwargs_seq registry field
                    (bucket "without reference" lr) kwargs)).
Proof.
  unfold placeholder_saved. destruct validated_only; [intros []|].
  intro H. split; [reflexivity|].
  destruct (df_path registry false df); auto.
Qed.

Lemma placeholder_saved_df registry field validated_only kwargs df lr lr' :
  df_path registry validated_only df = true ->
  placeholder_saved registry field validated_only kwargs df lr
  = placeholder_saved registry field validated_only kwargs df lr'.
Proof.
  unfold placeholder_saved. intro H. rewrite H. reflexivity.
Qed.

Lemma placeholder_saved_generic registry field validated_only kwargs df lr :
  validated_only = false ->
  df_path registry validated_only df = false ->
  placeholder_saved registry field validated_only kwargs df lr
  = placeholder_kwargs_seq registry field (bucket "without reference" lr)
                           kwargs.
Proof.
  unfold placeholder_saved. intros -> H. rewrite H. reflexivity.
Qed.

Section SecondCall.

Variables (values : list string) (field : FieldAttr) (feature_name : string).
Variables (using_ : option string) (validated_only : bool).
Variables (kwargs : Kwargs) (df : option DataFrame).
Variables (st st' : Store) (fu nvl : list string) (st2 : Store).

Let registry := field_model field.
Let fp := filter (resolvable field st2) (distinct nvl).
Let st3 :=
  with_local st2 (persist_all (public_records field st2 nvl) (local st2)).
Let lr2 := buckets_after_public using_ fu fp nvl.
Let po := placeholder_outcome registry field using_ validated_only kwargs df
                              lr2 st3.

(** The first call: its cross-instance stage, and how it ends. *)
Hypothesis Huo :
  using_outcome field st using_ (unresolved field st values)
  = Some (fu, nvl, st2).
Hypothesis Hlink :
  if is_ULabel registry && String.eqb (field_name field) "name"
  then linker_outcome field feature_name values (snd po) = Some st'
  else st' = snd po.

Lemma first_grows_using : grows st st2.
Proof.
  destruct (@using_store_frame _ _ _ _ _ _ _ Huo) as (A & B & _ & D).
  unfold grows. repeat split; try assumption.
  intros r. eapply using_store_grows. exact Huo.
Qed.

Lemma first_grows_placeholder : grows st3 (snd po).
Proof.
  unfold po. rewrite placeholder_outcome_store. apply grows_persist_all.
Qed.

Lemma first_grows_linker : grows (snd po) st'.
Proof.
  destruct (is_ULabel registry && String.eqb (field_name field) "name").
  - destruct (@linker_outcome_frame _ _ _ _ _ Hlink) as (A & B & D).
    unfold grows. repeat split; try assumption.
    intros r. eapply linker_outcome_grows. exact Hlink.
  - rewrite Hlink. apply grows_refl.
Qed.

Lemma first_grows_public : grows st2 st3.
Proof. apply grows_persist_all. Qed.

Lemma first_grows_from_public : grows st3 st'.
Proof.
  eapply grows_trans; [apply first_grows_placeholder|].
  apply first_grows_linker.
Qed.

Lemma first_grows_from_using : grows st2 st'.
Proof.
  eapply grows_trans; [apply first_grows_public|].
  apply first_grows_from_public.
Qed.

Lemma first_grows : grows st st'.
Proof.
  eapply grows_trans; [apply first_grows_using|].
  apply first_grows_from_using.
Qed.

(** What the first call resolved is known to the local registry when it
    ends. *)
Lemma known_from_using x :
  In x fu -> known (field_name field) (local st') x = true.
Proof.
  intro H. eapply grows_known; [apply first_grows_from_using|].
  eapply using_from_known; eauto.
Qed.

Lemma known_from_public x :
  In x nvl -> resolvable field st2 x = true ->
  known (field_name field) (local st') x = true.
Proof.
  intros Hx Hr. eapply grows_known; [apply first_grows_from_public|].
  destruct (@record_for_some _ _ _ Hr) as [r Hin].
  apply known_In. exists r. split.
  - unfold st3. simpl. apply persist_all_In. unfold public_records.
    apply in_flat_map. exists x. split; [|exact Hin].
    apply In_distinct. exact Hx.
  - eapply record_for_attr. exact Hin.
Qed.

Lemma known_placeholder x :
  validated_only = false ->
  df_path registry validated_only df = false ->
  is_Feature registry && String.eqb (field_name field) "type" = false ->
  In x (bucket "without reference" lr2) ->
  known (field_name field) (local st') x = true.
Proof.
  intros Hvo Hdf Hedge Hx.
  eapply grows_known; [apply first_grows_linker|].
  pose proof (@placeholder_outcome_creates registry field using_ kwargs df
                lr2 st3 x) as Hc.
  cbv zeta in Hc. unfold po. rewrite Hvo in *.
  assert (Hfst : fst (placeholder_outcome registry field using_ false kwargs
                                          df lr2 st3) = lr2).
  { rewrite placeholder_outcome_buckets, Hdf. reflexivity. }
  rewrite Hfst, Hdf in Hc. destruct (Hc Hx) as [kw0 Hin].
  apply known_In. eexists. split; [exact Hin|].
  apply placeholder_kwargs_attr. exact Hedge.
Qed.

(** A value still unresolved after the first call was left over by every
    stage of it. *)
Lemma still_unresolved x :
  In x (unresolved field st' values) ->
  In x (unresolved field st values)
  /\ ~ In x fu
  /\ In x nvl
  /\ resolvable field st2 x = false
  /\ In x (bucket "without reference" lr2).
Proof.
  intro H.
  pose proof (@unresolved_shrinks field _ _ values x first_grows H) as HN.
  apply In_unresolved in H. destruct H as [_ Hk].
  assert (Hfu : ~ In x fu).
  { intro Hin. rewrite (known_from_using x Hin) in Hk. discriminate Hk. }
  assert (Hnvl : In x nvl).
  { destruct (@using_cover _ _ _ _ _ _ _ Huo x HN) as [Hc|Hc];
      [contradiction|exact Hc]. }
  assert (Hres : resolvable field st2 x = false).
  { destruct (resolvable field st2 x) eqn:E; [|reflexivity].
    rewrite (known_from_public x Hnvl E) in Hk. discriminate Hk. }
  repeat split; try assumption.
  unfold lr2. rewrite buckets_after_public_without.
  apply filter_In. split; [exact Hnvl|].
  destruct (str_in x fp) eqn:E; [|reflexivity].
  apply str_in_In in E. unfold fp in E. apply filter_In in E.
  destruct E as [_ E]. rewrite Hres in E. discriminate E.
Qed.

(** The second call: nothing is left for the using instance to give. *)
Lemma second_using :
  exists nvl2,
    using_outcome field st' using_ (unresolved field st' values)
    = Some ([], nvl2, st')
    /\ forall x, In x nvl2 -> In x (unresolved field st' values).
Proof.
  destruct first_grows as (_ & Hinst & _ & _).
  destruct (@using_outcome_cases _ _ _ _ _ _ _ Huo)
    as [(Hr & _)|(u & rs & Hr & Hget & Hfu & _)].
  - exists (unresolved field st' values). unfold using_outcome.
    rewrite Hr. split; [reflexivity|auto].
  - exists (filter (fun v => negb (known (field_name field) rs v))
                   (distinct (unresolved field st' values))).
    unfold using_outcome. rewrite Hr, Hinst, Hget.
    rewrite using_labels_none.
    + simpl. unfold persist_all. simpl. rewrite with_local_local.
      split; [reflexivity|].
      intros x Hx. apply filter_In in Hx. apply In_distinct. apply Hx.
    + intros x Hx. destruct (known (field_name field) rs x) eqn:K;
        [|reflexivity].
      destruct (still_unresolved x Hx) as (HN & Hnot & _).
      exfalso. apply Hnot. rewrite Hfu. apply In_using_labels. auto.
Qed.

(** Nor for the public reference. *)
Lemma second_public nvl2 :
  (forall x, In x nvl2 -> In x (unresolved field st' values)) ->
  public_records field st' nvl2 = [].
Proof.
  intro Hsub. unfold public_records. apply flat_map_none.
  intros x Hx. apply (proj1 (In_distinct _ _)) in Hx. apply Hsub in Hx.
  apply record_for_nil. unfold resolvable.
  destruct (still_unresolved x Hx) as (_ & _ & _ & Hres & _).
  apply In_unresolved in Hx. destruct Hx as [_ Hk]. rewrite Hk. simpl.
  destruct first_grows_from_using as (_ & _ & Hpub & _).
  rewrite Hpub. unfold resolvable in Hres.
  apply orb_false_iff in Hres. apply Hres.
Qed.

Lemma placeholder_kwargs_seq_value vals kw r :
  In r (placeholder_kwargs_seq registry field vals kw) ->
  exists x, In x vals.
Proof.
  destruct vals as [|x vals]; [intros []|]. intros _. exists x.
  left. reflexivity.
Qed.

(** And every record the placeholder stage would save is stored. *)
Lemma second_placeholder lr r :
  (forall x, In x (bucket "without reference" lr) ->
             In x (unresolved field st' values)) ->
  In r (placeholder_saved registry field validated_only kwargs df lr) ->
  In r (local st').
Proof.
  intros Hsub Hr.
  assert (Hfirst : forall r0,
             In r0 (placeholder_saved registry field validated_only kwargs
                                      df lr2) ->
             In r0 (local st')).
  { intros r0 H0. destruct first_grows_linker as (Hg & _). apply Hg.
    unfold po. rewrite placeholder_outcome_store. simpl.
    apply persist_all_In. exact H0. }
  destruct (@placeholder_saved_cases _ _ _ _ _ _ _ Hr)
    as (Hvo & [Hdf|(Hdf & Hseq)]).
  - apply Hfirst.
    rewrite (@placeholder_saved_df registry field validated_only kwargs df
               lr2 lr Hdf).
    exact Hr.
  - destruct (@placeholder_kwargs_seq_value _ _ _ Hseq) as [x Hx].
    apply Hsub in Hx.
    destruct (still_unresolved x Hx) as (_ & _ & _ & _ & Hw).
    destruct (is_Feature registry && String.eqb (field_name field) "type")
      eqn:Hedge.
    + destruct (placeholder_kwargs_seq_In registry field _ kwargs x Hw)
        as [kw0 Hin].
      pose proof (@placeholder_kwargs_seq_type _ _ _ _ _ Hedge Hin) as E1.
      pose proof (@placeholder_kwargs_seq_type _ _ _ _ _ Hedge Hseq) as E2.
      apply Hfirst.
      rewrite (@placeholder_saved_generic registry field validated_only
                 kwargs df lr2 Hvo Hdf).
      rewrite E2, <- E1. exact Hin.
    + exfalso. apply In_unresolved in Hx. destruct Hx as [_ Hk].
      rewrite (@known_placeholder x Hvo Hdf Hedge Hw) in Hk.
      discriminate Hk.
Qed.

(** The second call gets through, and the records of the local registry
    are those the first call left. *)
Lemma second_outcome :
  exists lr' st'',
    store_outcome values field feature_name using_ validated_only kwargs df
                  st'
    = Some (lr', st'')
    /\ local st'' = local st'
    /\ (is_ULabel registry && String.eqb (field_name field) "name" = false ->
        links st'' = links st').
Proof.
  destruct second_using as (nvl2 & Huo2 & Hsub).
  pose proof (@store_outcome_intro values field feature_name using_
                validated_only kwargs df st' [] nvl2 st') as Hintro.
  cbv zeta in Hintro.
  rewrite (second_public nvl2 Hsub) in Hintro.
  change (persist_all [] (local st')) with (local st') in Hintro.
  rewrite !with_local_local in Hintro.
  set (lr2' := buckets_after_public using_ []
                 (filter (resolvable field st') (distinct nvl2)) nvl2)
    in Hintro.
  set (po2 := placeholder_outcome (field_model field) field using_
                validated_only kwargs df lr2' st') in Hintro.
  assert (Hloc : local (snd po2) = local st').
  { unfold po2. rewrite placeholder_outcome_store. simpl.
    apply persist_all_present. intros r Hr.
    apply (second_placeholder lr2'); [|exact Hr].
    intros x Hx. unfold lr2' in Hx.
    rewrite buckets_after_public_without in Hx.
    apply filter_In in Hx. apply Hsub. apply Hx. }
  pose proof Hlink as Hl. unfold registry in Hl.
  assert (Hc : is_ULabel (field_model field)
               && String.eqb (field_name field) "name" = true
               \/ is_ULabel (field_model field)
                  && String.eqb (field_name field) "name" = false)
    by (destruct (is_ULabel (field_model field)
                  && String.eqb (field_name field) "name"); auto).
  destruct Hc as [Hc|Hc]; rewrite Hc in Hl, Hintro.
  - destruct (@linker_outcome_parent _ _ _ _ _ Hl) as [p Hp].
    assert (Hp2 : parents feature_name (snd po2) = [p]).
    { unfold parents in *. rewrite Hloc. exact Hp. }
    destruct (@linker_outcome_found field feature_name values _ _ Hp2)
      as (st'' & Hl2 & Hloc2 & _).
    exists (fst po2), st''. split; [|split].
    + apply (Hintro st'' Huo2 Hl2).
    + congruence.
    + unfold registry. rewrite Hc. discriminate.
  - exists (fst po2), (snd po2). split; [|split].
    + apply (Hintro (snd po2) Huo2 eq_refl).
    + exact Hloc.
    + intros _. unfold po2.
      apply (placeholder_outcome_frame (field_model field) field using_
               validated_only kwargs df lr2' st').
Qed.

(** When the first call made a placeholder for every value it could not
    resolve, nothing is left unresolved. *)
Lemma second_all_known :
  validated_only = false ->
  df_path registry validated_only df = false ->
  is_Feature registry && String.eqb (field_name field) "type" = false ->
  unresolved field st' values = [].
Proof.
  intros Hvo Hdf Hedge. apply no_element. intros x Hx.
  destruct (still_unresolved x Hx) as (_ & _ & _ & _ & Hw).
  apply In_unresolved in Hx. destruct Hx as [_ Hk].
  rewrite (@known_placeholder x Hvo Hdf Hedge Hw) in Hk. discriminate Hk.
Qed.

End SecondCall.

(** A call made again on the world the first one left returns too, and
    the records of the local registry after it are exactly those before
    it; where labels have no public reference, the parent links are those
    before it as well. *)
Lemma second_call_returns values field feature_name using_
    validated_only (kwargs : option Kwargs) df (w w1 : World Store) rv :
  register_labels store_ops values field feature_name using_ validated_only
                  kwargs df w = Ok rv w1 ->
  (exists w2,
      register_labels store_ops values field feature_name using_
                      validated_only kwargs df w1 = Ok None w2
      /\ local (backend w2) = local (backend w1)
      /\ ((is_ULabel (field_model field) = true ->
           reg_public (field_model field) = false) ->
          links (backend w2) = links (backend w1)))
  /\ (forall (B : Type) (ops : Backend B) registry fld kw (wB : World B),
         from_values_records ops registry fld kw [] wB = Ok [] wB).
Proof.
  intro H. split; [|intros; reflexivity].
  pose proof (register_labels_store values field feature_name using_
                validated_only kwargs df w) as P1.
  cbv zeta in P1.
  assert (P2 := fun w1 =>
            register_labels_store values field feature_name using_
              validated_only kwargs df w1).
  cbv zeta in P2.
  revert P1 P2.
  generalize (match kwargs with None => [] | Some k => k end : Kwargs).
  assert (Hforce : reg_public (field_model field) = false ->
                   (if negb (reg_public (field_model field)) then false
                    else validated_only) = false)
    by (intros ->; reflexivity).
  revert Hforce.
  generalize (if negb (reg_public (field_model field)) then false
              else validated_only).
  intros vo Hforce kw P1 P2.
  destruct (organism_scoped (backend w)
            && match dict_get "organism" kw with
               | None => true
               | Some _ => false
               end) eqn:Hchk.
  { destruct P1 as [tr P1]. rewrite P1 in H. discriminate H. }
  destruct (unresolved field (backend w) values) as [|x N'] eqn:HN.
  - destruct P1 as [tr P1]. rewrite P1 in H. inversion H; subst rv w1.
    specialize (P2 (retrace w tr (backend w))).
    change (backend (retrace w tr (backend w))) with (backend w) in P2.
    rewrite Hchk, HN in P2. destruct P2 as [tr2 P2].
    eexists. split; [exact P2|]. split; reflexivity.
  - destruct (store_outcome values field feature_name using_ vo kw df
                            (backend w)) as [[lr st']|] eqn:Hso.
    2:{ destruct P1 as (e & w0 & P1). rewrite P1 in H. discriminate H. }
    destruct P1 as [tr P1]. rewrite P1 in H. inversion H; subst rv w1.
    apply store_outcome_inv in Hso.
    destruct Hso as (fu & nvl & st2 & Huo & Hso). cbv zeta in Hso.
    destruct Hso as [_ Hlink].
    pose proof (@first_grows values field feature_name using_ vo kw df
                  (backend w) st' fu nvl st2 Huo Hlink) as Hg.
    destruct Hg as (_ & _ & _ & Horg).
    specialize (P2 (retrace w tr st')).
    change (backend (retrace w tr st')) with st' in P2.
    rewrite Horg, Hchk in P2.
    destruct (unresolved field st' values) as [|y N2] eqn:HN2.
    + destruct P2 as [tr2 P2]. eexists. split; [exact P2|].
      split; reflexivity.
    + destruct (@second_outcome values field feature_name using_ vo kw df
                  (backend w) st' fu nvl st2 Huo Hlink)
        as (lr' & st'' & Hso2 & Hloc & Hlinks).
      rewrite Hso2 in P2. destruct P2 as [tr2 P2].
      eexists. split; [exact P2|]. split; [exact Hloc|].
      intro Hlabels. simpl.
      assert (HUc : is_ULabel (field_model field) = true
                    \/ is_ULabel (field_model field) = false)
        by (destruct (is_ULabel (field_model field)); auto).
      destruct HUc as [HU|HU].
      * exfalso.
        assert (Hvo : vo = false) by (apply Hforce; apply Hlabels;
                                      exact HU).
        assert (HF : is_Feature (field_model field) = false).
        { clear - HU. unfold is_ULabel, is_Feature in *.
          destruct (reg_class (field_model field)); congruence. }
        assert (Hall : unresolved field st' values = []).
        { apply (@second_all_known values field feature_name using_ vo kw
                   df (backend w) st' fu nvl st2 Huo Hlink Hvo).
          - unfold df_path. rewrite HF.
            destruct df; rewrite andb_false_r; reflexivity.
          - rewrite HF. reflexivity. }
        rewrite Hall in HN2. discriminate HN2.
      * apply Hlinks. rewrite HU. reflexivity.
Qed.

(** * Further properties of the module *)

(** ** The report *)

(** The messages of [log_registered_labels], bucket by bucket. *)
Lemma log_items_events (B : Type) labels_type feature_name model_field
    validated_only items (w : World B) :
  exists d,
    log_items labels_type feature_name model_field validated_only items w
    = Ok tt (retrace w (trace w ++ d) (backend w))
    /\ Forall2 (reports labels_type feature_name model_field validated_only)
               (filter nonempty_bucket items) d.
Proof.
  revert w. induction items as [|[key labels] rest IH]; intro w.
  - exists []. simpl. rewrite app_nil_r, retrace_id.
    split; [reflexivity|constructor].
  - simpl filter. unfold nonempty_bucket at 1. simpl snd.
    cbn [log_items]. unfold log_item.
    destruct (Nat.ltb 0 (List.length labels)).
    + set (msg := {| log_count := List.length labels;
                     log_labels_type := labels_type;
                     log_key := key;
                     log_model_field := model_field;
                     log_labels := labels;
                     log_feature_name := feature_name |}).
      destruct ((key =? "without reference")%string && validated_only)
        eqn:E.
      * destruct (IH (retrace w (trace w ++ [(Report, OLogWarning msg)])
                             (backend w))) as (d & Hd & Hr).
        exists ((Report, OLogWarning msg) :: d). split.
        -- erewrite bind_Ok_intro; [|reflexivity].
           etransitivity; [exact Hd|]. unfold retrace. simpl.
           rewrite <- app_assoc. reflexivity.
        -- constructor; [|exact Hr]. left. simpl. auto.
      * destruct (IH (retrace w (trace w ++ [(Report, OLogSuccess msg)])
                             (backend w))) as (d & Hd & Hr).
        exists ((Report, OLogSuccess msg) :: d). split.
        -- erewrite bind_Ok_intro; [|reflexivity].
           etransitivity; [exact Hd|]. unfold retrace. simpl.
           rewrite <- app_assoc. reflexivity.
        -- constructor; [|exact Hr]. right. simpl. auto.
    + destruct (IH w) as (d & Hd & Hr). exists d. split; [|exact Hr].
      erewrite bind_Ok_intro; [|reflexivity]. exact Hd.
Qed.

(** X1. [log_registered_labels] never raises and touches nothing but the
    trace: it adds one logger message for every bucket with at least one
    label, in the order of the dict, and none for an empty bucket; the
    message of a bucket reports the bucket's labels, their number, the
    kind of labels and the model field. *)
Theorem log_one_message_per_bucket (B : Type) labels_registered feature_name
    model_field validated_only (w : World B) :
  exists d,
    log_registered_labels labels_registered feature_name model_field
                          validated_only w
    = Ok tt (retrace w (trace w ++ d) (backend w))
    /\ Forall2
         (fun item e =>
            fst e = Report
            /\ exists m,
                 (snd e = OLogWarning m \/ snd e = OLogSuccess m)
                 /\ log_labels m = snd item
                 /\ log_count m = List.length (snd item)
                 /\ log_labels_type m
                    = (if String.eqb feature_name "feature"
                       then "features" else "labels")
                 /\ log_model_field m = model_field)
         (filter nonempty_bucket labels_registered) d.
Proof.
  unfold log_registered_labels.
  destruct (log_items_events
              (if (feature_name =? "feature")%string
               then "features" else "labels")
              feature_name model_field validated_only labels_registered w)
    as (d & Hd & Hr).
  exists d. split; [exact Hd|]. clear Hd.
  induction Hr as [|item e items d' Hre Hrest IH]; constructor;
    [|exact IH].
  destruct Hre as [[_ ->]|[_ ->]]; simpl;
    (split; [reflexivity|]); eexists;
    (split; [eauto|]); simpl; auto.
Qed.

Lemma Forall2_In_right (A C : Type) (R : A -> C -> Prop) l d e :
  Forall2 R l d -> In e d -> exists a, In a l /\ R a e.
Proof.
  intro H. induction H as [|a c l d Hac _ IH]; intros Hin; [destruct Hin|].
  destruct Hin as [<-|Hin].
  - exists a. split; [left; reflexivity|exact Hac].
  - destruct (IH Hin) as [a' [Ha' Hr]]. exists a'. split; [right|]; assumption.
Qed.

Lemma Forall2_In_left (A C : Type) (R : A -> C -> Prop) l d a :
  Forall2 R l d -> In a l -> exists e, In e d /\ R a e.
Proof.
  intro H. induction H as [|a' c l d Hac _ IH]; intros Hin; [destruct Hin|].
  destruct Hin as [<-|Hin].
  - exists c. split; [left; reflexivity|exact Hac].
  - destruct (IH Hin) as [e [He Hr]]. exists e. split; [right|]; assumption.
Qed.

(** X2. The warning of [log_registered_labels] is kept for values that
    were not registered: a warning is logged only under [validated_only],
    only for the bucket "without reference" and with the labels of that
    bucket; every other message is a success; and under [validated_only] a
    non-empty "without reference" bucket always gets its warning. *)
Theorem warning_only_without_reference (B : Type) labels_registered
    feature_name model_field validated_only (w : World B) :
  exists d,
    log_registered_labels labels_registered feature_name model_field
                          validated_only w
    = Ok tt (retrace w (trace w ++ d) (backend w))
    /\ (forall m,
           In (Report, OLogWarning m) d ->
           validated_only = true
           /\ log_key m = "without reference"
           /\ In ("without reference", log_labels m) labels_registered)
    /\ (forall m,
           In (Report, OLogSuccess m) d ->
           validated_only = false \/ log_key m <> "without reference")
    /\ (validated_only = true ->
        forall labels,
          In ("without reference", labels) labels_registered ->
          labels <> [] ->
          exists m, In (Report, OLogWarning m) d /\ log_labels m = labels).
Proof.
  unfold log_registered_labels.
  destruct (log_items_events
              (if (feature_name =? "feature")%string
               then "features" else "labels")
              feature_name model_field validated_only labels_registered w)
    as (d & Hd & Hr).
  exists d. split; [exact Hd|]. split; [|split].
  - intros m Hin.
    destruct (@Forall2_In_right _ _ _ _ _ _ Hr Hin) as ([key labels] & Hit & Hrep).
    apply filter_In in Hit. destruct Hit as [Hit _].
    destruct Hrep as [[Hc E]|[_ E]]; [|discriminate E].
    inversion E; subst m. simpl in *.
    apply andb_true_iff in Hc. destruct Hc as [Hk Hv].
    apply String.eqb_eq in Hk. subst key. auto.
  - intros m Hin.
    destruct (@Forall2_In_right _ _ _ _ _ _ Hr Hin) as ([key labels] & _ & Hrep).
    destruct Hrep as [[_ E]|[Hc E]]; [discriminate E|].
    inversion E; subst m. simpl in *.
    apply andb_false_iff in Hc. destruct Hc as [Hk|Hv]; [right|left; auto].
    apply String.eqb_neq. exact Hk.
  - intros Hv labels Hin Hne.
    assert (Hf : In ("without reference", labels)
                    (filter nonempty_bucket labels_registered)).
    { apply filter_In. split; [exact Hin|].
      unfold nonempty_bucket. simpl. destruct labels; [congruence|].
      reflexivity. }
    destruct (@Forall2_In_left _ _ _ _ _ _ Hr Hf) as (e & He & Hrep).
    destruct Hrep as [[_ E]|[Hc E]].
    + eexists. split; [rewrite <- E; exact He|]. reflexivity.
    + simpl in Hc. rewrite Hv in Hc. discriminate Hc.
Qed.

(** ** The cross-instance stage *)

(** X3. On the store, a cross-instance stage that returns has split its
    input: every input value is reported as copied or handed on, never
    both; with a using instance the copied values are those it validates
    and the values handed on those it does not; every copied value is
    validated by the local registry afterwards; no stored record is lost
    and the parent links are untouched. *)
Theorem cross_instance_splits values field using_ kwargs (w : World Store)
    from_using left_over w' :
  register_labels_from_using_instance store_ops values field using_ kwargs w
  = Ok (from_using, left_over) w' ->
  (forall x, In x values <-> In x from_using \/ In x left_over)
  /\ (forall x, In x from_using -> In x left_over -> False)
  /\ (forall u rs,
         remote_instance using_ = Some u ->
         dict_get u (instances (backend w)) = Some rs ->
         (forall x, In x from_using -> known (field_name field) rs x = true)
         /\ (forall x, In x left_over ->
                       known (field_name field) rs x = false))
  /\ (forall x, In x from_using ->
                known (field_name field) (local (backend w')) x = true)
  /\ grows (backend w) (backend w')
  /\ links (backend w') = links (backend w)
  /\ verbosity w' = verbosity w.
Proof.
  intro H.
  pose proof (using_stage_store values field using_ kwargs w) as P.
  destruct (using_outcome field (backend w) using_ values)
    as [[[fu nvl] st2]|] eqn:Huo.
  2:{ destruct P as (e & w0 & P). rewrite P in H. discriminate H. }
  destruct P as [tr P]. rewrite P in H. inversion H; subst. clear H P.
  simpl backend. simpl verbosity.
  split.
  { intro x. split.
    - apply (@using_cover _ _ _ _ _ _ _ Huo).
    - intros [Hx|Hx];
        [eapply using_from_sub|eapply using_left_sub]; eauto. }
  split; [intros x; apply (@using_disjoint _ _ _ _ _ _ _ Huo)|].
  split.
  { intros u rs Hr Hget.
    destruct (@using_outcome_cases _ _ _ _ _ _ _ Huo)
      as [(Hr' & _)|(u' & rs' & Hr' & Hget' & -> & -> & _)];
      rewrite Hr in Hr'; [discriminate Hr'|].
    inversion Hr'; subst u'. rewrite Hget in Hget'.
    inversion Hget'; subst rs'. split; intros x Hx.
    - apply In_using_labels in Hx. apply Hx.
    - apply filter_In in Hx. destruct Hx as [_ Hx].
      destruct (known (field_name field) rs x); [discriminate Hx|].
      reflexivity. }
  split; [intros x; apply (@using_from_known _ _ _ _ _ _ _ Huo)|].
  destruct (@using_store_frame _ _ _ _ _ _ _ Huo) as (A & B0 & C & D).
  split; [|split; [exact C|reflexivity]].
  unfold grows. repeat split; try assumption.
  intros r. apply (@using_store_grows _ _ _ _ _ _ _ Huo).
Qed.

(** ["heart"] and ["unknowntissue"] against the instance ["atlas"]. *)
Lemma cross_instance_splits_witness :
  exists w',
    register_labels_from_using_instance store_ops ["heart"; "unknowntissue"]
      Examples.tissue (Some "atlas") None
      (initial "warning" Examples.tissue_store)
    = Ok (["heart"], ["unknowntissue"]) w'
    /\ known "name" (local (backend w')) "heart" = true.
Proof.
  eexists. split; [vm_compute; reflexivity|].
  refine (proj1 (proj2 (proj2 (proj2
    (@cross_instance_splits ["heart"; "unknowntissue"] Examples.tissue
       (Some "atlas") None (initial "warning" Examples.tissue_store)
       ["heart"] ["unknowntissue"] _ _)))) "heart" _).
  - vm_compute. reflexivity.
  - left. reflexivity.
Defined.

Lemma using_outcome_again field st using_ vals fu nvl st2 :
  using_outcome field st using_ vals = Some (fu, nvl, st2) ->
  using_outcome field st2 using_ vals = Some (fu, nvl, st2).
Proof.
  intro Huo.
  destruct (@using_outcome_cases _ _ _ _ _ _ _ Huo)
    as [(Hr & -> & -> & ->)|(u & rs & Hr & Hget & -> & -> & ->)].
  - exact Huo.
  - unfold using_outcome. rewrite Hr. simpl instances. rewrite Hget.
    simpl local.
    rewrite (@persist_all_present (using_labels field rs vals)
               (persist_all (using_labels field rs vals) (local st))).
    + reflexivity.
    + intros r Hr'. apply persist_all_In. exact Hr'.
Qed.

(** X4. On the store the cross-instance stage is safe to repeat: called
    again on the world it left, with the same arguments, it returns the
    same pair and leaves the registry as it is. *)
Theorem cross_instance_repeatable values field using_ kwargs
    (w w1 : World Store) res :
  register_labels_from_using_instance store_ops values field using_ kwargs w
  = Ok res w1 ->
  exists tr,
    register_labels_from_using_instance store_ops values field using_
                                        kwargs w1
    = Ok res (retrace w1 tr (backend w1)).
Proof.
  intro H.
  pose proof (using_stage_store values field using_ kwargs w) as P.
  destruct (using_outcome field (backend w) using_ values)
    as [[[fu nvl] st2]|] eqn:Huo.
  2:{ destruct P as (e & w0 & P). rewrite P in H. discriminate H. }
  destruct P as [tr P]. rewrite P in H. inversion H; subst. clear H P.
  pose proof (using_stage_store values field using_ kwargs
                                (retrace w tr st2)) as P2.
  simpl backend in *.
  rewrite (@using_outcome_again _ _ _ _ _ _ _ Huo) in P2.
  exact P2.
Qed.

Lemma cross_instance_repeatable_witness :
  exists w1 tr,
    register_labels_from_using_instance store_ops ["heart"; "unknowntissue"]
      Examples.tissue (Some "atlas") None
      (initial "warning" Examples.tissue_store)
    = Ok (["heart"], ["unknowntissue"]) w1
    /\ register_labels_from_using_instance store_ops
         ["heart"; "unknowntissue"] Examples.tissue (Some "atlas") None w1
       = Ok (["heart"], ["unknowntissue"]) (retrace w1 tr (backend w1)).
Proof.
  eexists.
  assert (H : register_labels_from_using_instance store_ops
                ["heart"; "unknowntissue"] Examples.tissue (Some "atlas")
                None (initial "warning" Examples.tissue_store)
              = Ok (["heart"], ["unknowntissue"]) _)
    by (vm_compute; reflexivity).
  destruct (@cross_instance_repeatable _ _ _ _ _ _ _ H) as [tr H2].
  exists tr. split; [exact H|exact H2].
Defined.

(** ** The hierarchy linker *)

Lemma link_in_In p c ls : link_in p c ls = true <-> In (p, c) ls.
Proof.
  unfold link_in. rewrite existsb_exists. split.
  - intros [[a b] [Hin H]]. simpl in H. apply andb_true_iff in H.
    destruct H as [Ha Hb]. apply Rec_eqb_eq in Ha. apply Rec_eqb_eq in Hb.
    subst. exact Hin.
  - intro H. exists (p, c). split; [exact H|]. simpl.
    apply andb_true_iff. split; apply Rec_eqb_eq; reflexivity.
Qed.

Lemma add_link_incl p c ls l : In l ls -> In l (add_link p ls c).
Proof.
  unfold add_link. destruct (link_in p c ls); [auto|].
  intro H. apply in_or_app. auto.
Qed.

Lemma add_links_incl p cs ls l :
  In l ls -> In l (fold_left (add_link p) cs ls).
Proof.
  revert ls. induction cs as [|c cs IH]; intros ls H; simpl; [exact H|].
  apply IH. apply add_link_incl. exact H.
Qed.

Lemma add_links_linked p cs ls c :
  In c cs -> In (p, c) (fold_left (add_link p) cs ls).
Proof.
  revert ls. induction cs as [|c' cs IH]; intros ls H; [destruct H|].
  simpl. destruct H as [->|H]; [|apply IH; exact H].
  apply add_links_incl. unfold add_link.
  destruct (link_in p c ls) eqn:E.
  - apply link_in_In. exact E.
  - apply in_or_app. right. left. reflexivity.
Qed.

Lemma add_links_present p cs ls :
  (forall c, In c cs -> In (p, c) ls) ->
  fold_left (add_link p) cs ls = ls.
Proof.
  revert ls. induction cs as [|c cs IH]; intros ls H; simpl; [reflexivity|].
  assert (E : add_link p ls c = ls).
  { unfold add_link.
    rewrite (proj2 (link_in_In p c ls) (H c (or_introl eq_refl))).
    reflexivity. }
  rewrite E. apply IH. intros c' Hc'. apply H. right. exact Hc'.
Qed.

(** The linker returns for the free-form label registry only. *)
Lemma linker_requires_ulabel (B : Type) (ops : Backend B) values field
    feature_name (w : World B) w' :
  register_ulabels_with_parent ops values field feature_name w = Ok tt w' ->
  is_ULabel (field_model field) = true.
Proof.
  unfold register_ulabels_with_parent.
  destruct (is_ULabel (field_model field)); [reflexivity|].
  intro H. discriminate H.
Qed.

(** What a linker call that returns has done to the store. *)
Lemma linker_outcome_links field feature_name values st st' :
  linker_outcome field feature_name values st = Some st' ->
  exists p,
    parents feature_name st' = [p]
    /\ links st'
       = fold_left (add_link p)
                   (flat_map (record_for field st) (distinct values))
                   (links st)
    /\ (forall p0, parents feature_name st = [p0] ->
                   p0 = p /\ local st' = local st).
Proof.
  intro H. destruct (linker_outcome_parent _ _ _ _ H) as [p Hp].
  exists p. split; [exact Hp|].
  unfold linker_outcome, parents in *.
  set (nm := ("is_" ++ feature_name)%string) in *.
  destruct (filter (has_attr "name" nm) (local st))
    as [|q [|q' rest]] eqn:Hf; inversion H; subst st'; clear H.
  - cbn [local links with_local with_links] in *.
    assert (p = [("name", nm)]).
    { assert (Hin : In [("name", nm)]
                       (filter (has_attr "name" nm)
                               (persist [("name", nm)] (local st)))).
      { apply filter_In. split; [apply persist_In|].
        apply has_attr_get. simpl. reflexivity. }
      rewrite Hp in Hin. destruct Hin as [<-|[]]. reflexivity. }
    subst p. split; [reflexivity|]. intros p0 E. discriminate E.
  - cbn [local links with_local with_links] in *.
    rewrite Hf in Hp. inversion Hp; subst q.
    split; [reflexivity|]. intros p0 E. inversion E. auto.
Qed.

(** X5. On the store, when the linker returns there is exactly one record
    named [is_<feature_name>], every value that is stored under the field
    or that the public reference can build has a record linked under it,
    and every earlier link is kept. *)
Theorem linker_links_every_label values field feature_name
    (w w' : World Store) :
  register_ulabels_with_parent store_ops values field feature_name w
  = Ok tt w' ->
  exists p,
    parents feature_name (backend w') = [p]
    /\ (forall v,
           In v values ->
           resolvable field (backend w) v = true ->
           exists r,
             dict_get (field_name field) r = Some v
             /\ In (p, r) (links (backend w')))
    /\ (forall l, In l (links (backend w)) -> In l (links (backend w')))
    /\ grows (backend w) (backend w').
Proof.
  intro H. pose proof (linker_requires_ulabel _ _ _ _ _ H) as HU.
  pose proof (@linker_store values field feature_name w HU) as P.
  destruct (linker_outcome field feature_name values (backend w))
    as [st'|] eqn:Hlo.
  2:{ destruct P as [tr P]. rewrite P in H. discriminate H. }
  destruct P as [tr P]. rewrite P in H. inversion H; subst w'. clear H P.
  simpl backend.
  destruct (linker_outcome_links _ _ _ _ Hlo) as (p & Hp & Hlinks & _).
  exists p. split; [exact Hp|]. split; [|split].
  - intros v Hv Hres. destruct (@record_for_some _ _ _ Hres) as [r Hr].
    exists r. split; [eapply record_for_attr; exact Hr|].
    rewrite Hlinks. apply add_links_linked. apply in_flat_map.
    exists v. split; [apply In_distinct; exact Hv|exact Hr].
  - intros l Hl. rewrite Hlinks. apply add_links_incl. exact Hl.
  - destruct (@linker_outcome_frame _ _ _ _ _ Hlo) as (A & B0 & D).
    unfold grows. repeat split; try assumption.
    intros r. eapply linker_outcome_grows. exact Hlo.
Qed.

Lemma linker_links_every_label_witness :
  exists w' p r,
    register_ulabels_with_parent store_ops ["liver"; "heart"]
      Examples.ulabel "tissue" (initial "warning" Examples.labels_store)
    = Ok tt w'
    /\ parents "tissue" (backend w') = [p]
    /\ dict_get "name" r = Some "heart"
    /\ In (p, r) (links (backend w')).
Proof.
  pose (w' := world_of (register_ulabels_with_parent store_ops
                          ["liver"; "heart"] Examples.ulabel "tissue"
                          (initial "warning" Examples.labels_store))).
  assert (H : register_ulabels_with_parent store_ops ["liver"; "heart"]
                Examples.ulabel "tissue"
                (initial "warning" Examples.labels_store)
              = Ok tt w') by (vm_compute; reflexivity).
  destruct (@linker_links_every_label _ _ _ _ _ H) as (p & Hp & Hall & _).
  destruct (Hall "heart") as (r & Hr & Hin);
    [right; left; reflexivity|reflexivity|].
  exists w', p, r. repeat split; assumption.
Defined.

(** X6. Once the parent label is stored, the linker is safe to repeat on
    the store: called again with the same values on the world it left, it
    returns and leaves records and links as they are. *)
Theorem linker_repeatable values field feature_name (w w1 : World Store) p :
  parents feature_name (backend w) = [p] ->
  register_ulabels_with_parent store_ops values field feature_name w
  = Ok tt w1 ->
  exists tr,
    register_ulabels_with_parent store_ops values field feature_name w1
    = Ok tt (retrace w1 tr (backend w1)).
Proof.
  intros Hp H. pose proof (linker_requires_ulabel _ _ _ _ _ H) as HU.
  pose proof (@linker_store values field feature_name w HU) as P.
  destruct (linker_outcome field feature_name values (backend w))
    as [st1|] eqn:Hlo.
  2:{ destruct P as [tr P]. rewrite P in H. discriminate H. }
  destruct P as [tr P]. rewrite P in H. inversion H; subst w1. clear H P.
  assert (Hagain : linker_outcome field feature_name values st1 = Some st1).
  { unfold linker_outcome, parents in *. rewrite Hp in Hlo.
    inversion Hlo; subst st1. cbn [local links with_links].
    rewrite Hp. f_equal.
    destruct (backend w) as [lo ins pu ls og].
    unfold with_links, record_for. cbn [local links public instances].
    f_equal.
    rewrite add_links_present; [reflexivity|].
    intros c Hc. apply add_links_linked. exact Hc. }
  pose proof (@linker_store values field feature_name (retrace w tr st1) HU)
    as P2.
  simpl backend in P2. rewrite Hagain in P2. exact P2.
Qed.

Lemma linker_repeatable_witness :
  exists w0 w1 tr,
    register_ulabels_with_parent store_ops ["liver"] Examples.ulabel
      "tissue" (initial "warning" Examples.labels_store) = Ok tt w0
    /\ register_ulabels_with_parent store_ops ["liver"; "heart"]
         Examples.ulabel "tissue" w0 = Ok tt w1
    /\ register_ulabels_with_parent store_ops ["liver"; "heart"]
         Examples.ulabel "tissue" w1
       = Ok tt (retrace w1 tr (backend w1)).
Proof.
  pose (w0 := world_of (register_ulabels_with_parent store_ops ["liver"]
                          Examples.ulabel "tissue"
                          (initial "warning" Examples.labels_store))).
  pose (w1 := world_of (register_ulabels_with_parent store_ops
                          ["liver"; "heart"] Examples.ulabel "tissue" w0)).
  assert (H0 : register_ulabels_with_parent store_ops ["liver"]
                 Examples.ulabel "tissue"
                 (initial "warning" Examples.labels_store)
               = Ok tt w0) by (vm_compute; reflexivity).
  assert (H1 : register_ulabels_with_parent store_ops ["liver"; "heart"]
                 Examples.ulabel "tissue" w0 = Ok tt w1)
    by (vm_compute; reflexivity).
  assert (Hp : parents "tissue" (backend w0) = [[("name", "is_tissue")]])
    by (vm_compute; reflexivity).
  destruct (@linker_repeatable _ _ _ _ _ _ Hp H1) as [tr H2].
  exists w0, w1, tr. split; [exact H0|]. split; [exact H1|exact H2].
Defined.

(** X7. With two or more records named [is_<feature_name>] in the store,
    the linker raises [MultipleResultsFound]: it creates no parent, adds
    no link and leaves the registry as it found it. *)
Theorem linker_rejects_duplicate_parents values field feature_name
    (w : World Store) :
  is_ULabel (field_model field) = true ->
  2 <= List.length (parents feature_name (backend w)) ->
  exists tr,
    register_ulabels_with_parent store_ops values field feature_name w
    = Raise MultipleResultsFound (retrace w tr (backend w)).
Proof.
  intros HU Hlen.
  pose proof (@linker_store values field feature_name w HU) as P.
  assert (Hlo : linker_outcome field feature_name values (backend w) = None).
  { unfold linker_outcome, parents in *.
    destruct (filter (has_attr "name" ("is_" ++ feature_name)%string)
                     (local (backend w))) as [|q [|q' rest]];
      simpl in Hlen; try lia. reflexivity. }
  rewrite Hlo in P. exact P.
Qed.

Lemma linker_rejects_duplicate_parents_witness :
  exists tr,
    let w := initial "warning"
               {| local := [[("name", "is_tissue")];
                            [("name", "is_tissue"); ("description", "old")];
                            [("name", "liver")]];
                  instances := []; public := []; links := [];
                  organism_scoped := false |} in
    register_ulabels_with_parent store_ops ["liver"] Examples.ulabel
      "tissue" w
    = Raise MultipleResultsFound (retrace w tr (backend w)).
Proof.
  apply (@linker_rejects_duplicate_parents ["liver"] Examples.ulabel
           "tissue"
           (initial "warning"
              {| local := [[("name", "is_tissue")];
                           [("name", "is_tissue"); ("description", "old")];
                           [("name", "liver")]];
                 instances := []; public := []; links := [];
                 organism_scoped := false |})).
  - reflexivity.
  - vm_compute. lia.
Defined.

(** ** The order of the stages, for any backend *)

Lemma in_stage_order_weaken lo lo' d :
  lo' <= lo -> in_stage_order lo d = true -> in_stage_order lo' d = true.
Proof.
  destruct d as [|e d]; simpl; [auto|].
  intros Hle H. apply andb_true_iff in H. destruct H as [H1 H2].
  apply andb_true_iff. split; [|exact H2].
  apply Nat.leb_le in H1. apply Nat.leb_le. lia.
Qed.

Lemma in_stage_order_app lo mid d1 d2 :
  lo <= mid ->
  in_stage_order lo d1 = true ->
  Forall (fun e => stage_rank (fst e) <= mid) d1 ->
  in_stage_order mid d2 = true ->
  in_stage_order lo (d1 ++ d2) = true.
Proof.
  revert lo. induction d1 as [|e d1 IH]; intros lo Hle H1 HF H2; simpl.
  - eapply in_stage_order_weaken; [exact Hle|exact H2].
  - simpl in H1. apply andb_true_iff in H1. destruct H1 as [Ha Hb].
    inversion HF; subst. apply andb_true_iff. split; [exact Ha|].
    apply IH; assumption.
Qed.

Lemma in_stage_order_one_stage s lo d :
  lo <= stage_rank s ->
  Forall (fun e => fst e = s) d ->
  in_stage_order lo d = true.
Proof.
  intros Hle H. revert lo Hle.
  induction H as [|e d He _ IH]; intros lo Hle; simpl; [reflexivity|].
  rewrite He. apply andb_true_iff. split; [apply Nat.leb_le; exact Hle|].
  apply IH. apply Nat.le_refl.
Qed.

Section StageOrder.

Variable B : Type.
Variable ops : Backend B.

Lemma staged_weaken (A : Type) lo hi lo' hi' (m : M B A) :
  lo' <= lo -> hi <= hi' -> staged lo hi m -> staged lo' hi' m.
Proof.
  intros Hlo Hhi Hm w. destruct (Hm w) as (d & Hd & Ho & Hf).
  exists d. split; [exact Hd|]. split.
  - eapply in_stage_order_weaken; [exact Hlo|exact Ho].
  - eapply Forall_impl; [|exact Hf]. simpl. intros e He. lia.
Qed.

Lemma staged_one_stage (A : Type) s (m : M B A) :
  adds (fun e => fst e = s) m -> staged (stage_rank s) (stage_rank s) m.
Proof.
  intros Hm w. destruct (Hm w) as (d & Hd & Hf).
  exists d. split; [exact Hd|]. split.
  - eapply in_stage_order_one_stage; [apply Nat.le_refl|exact Hf].
  - eapply Forall_impl; [|exact Hf]. simpl. intros e ->. apply Nat.le_refl.
Qed.

Lemma staged_silent (A : Type) lo hi (m : M B A) :
  adds (fun _ => False) m -> staged lo hi m.
Proof.
  intros Hm w. destruct (Hm w) as (d & Hd & Hf).
  destruct d as [|e d]; [|inversion Hf; contradiction].
  exists []. split; [exact Hd|]. split; [reflexivity|constructor].
Qed.

Lemma staged_bind (A C : Type) lo mid hi (m : M B A) (k : A -> M B C) :
  lo <= mid -> mid <= hi ->
  staged lo mid m -> (forall a, staged mid hi (k a)) ->
  staged lo hi (bind m k).
Proof.
  intros Hlo Hhi Hm Hk w. unfold bind.
  destruct (Hm w) as (d & Hd & Ho & Hf).
  destruct (m w) as [a w1|e w1]; simpl in *.
  - destruct (Hk a w1) as (d' & Hd' & Ho' & Hf').
    exists (d ++ d'). rewrite Hd', Hd, app_assoc. split; [reflexivity|].
    split.
    + eapply in_stage_order_app; eassumption.
    + apply Forall_app. split; [|exact Hf'].
      eapply Forall_impl; [|exact Hf]. simpl. intros e He. lia.
  - exists d. split; [exact Hd|]. split; [exact Ho|].
    eapply Forall_impl; [|exact Hf]. simpl. intros e' He. lia.
Qed.

Lemma staged_try_finally (A : Type) lo hi (m : M B A) (fin : M B unit) :
  lo <= hi ->
  staged lo hi m -> adds (fun _ => False) fin ->
  staged lo hi (try_finally m fin).
Proof.
  intros Hle Hm Hf w. unfold try_finally.
  destruct (Hm w) as (d & Hd & Ho & HF).
  assert (Hfin : forall w1, trace (world_of (fin w1)) = trace w1).
  { intro w1. destruct (Hf w1) as (d' & Hd' & HF').
    destruct d' as [|e d']; [|inversion HF'; contradiction].
    rewrite Hd'. apply app_nil_r. }
  exists d. split; [|split; assumption].
  destruct (m w) as [a w1|e w1]; simpl in *;
    specialize (Hfin w1); destruct (fin w1); simpl in *;
    rewrite Hfin; exact Hd.
Qed.

Lemma adds_placeholder_stage registry field using_ validated_only kwargs df
    lr :
  adds (fun e => fst e = Placeholder)
       (placeholder_stage ops registry field using_ validated_only kwargs df
                          lr).
Proof.
  unfold placeholder_stage.
  destruct (negb validated_only); [|apply adds_ret].
  destruct df as [df'|]; [destruct (is_Feature registry)|].
  - apply adds_bind; [adds_step|intro recs].
    apply adds_bind; [apply adds_not_in_buckets|intro wr].
    apply adds_bind; [adds_step|intros _]. apply adds_ret.
  - apply adds_bind; [apply adds_getitem|intro vals].
    apply adds_bind; [apply adds_placeholder_records|intro recs].
    apply adds_bind; [adds_step|intros _]. apply adds_ret.
  - apply adds_bind; [apply adds_getitem|intro vals].
    apply adds_bind; [apply adds_placeholder_records|intro recs].
    apply adds_bind; [adds_step|intros _]. apply adds_ret.
Qed.

(** A backend call and what follows it. *)
Lemma staged_after_call (A C : Type) st op (f : B -> Res B A)
    (k : A -> M B C) lo hi w :
  (forall a, staged lo hi (k a)) ->
  exists d,
    trace (world_of (bind (call st op f) k w)) = trace w ++ (st, op) :: d
    /\ in_stage_order lo d = true.
Proof.
  intro Hk. unfold bind, call.
  destruct (f (backend w)) as [a b|e b].
  - match goal with
    | |- context [k a ?w0] => destruct (Hk a w0) as (d & Hd & Ho & _)
    end.
    exists d. split; [|exact Ho].
    etransitivity; [exact Hd|]. simpl. rewrite <- app_assoc. reflexivity.
  - exists []. split; reflexivity.
Qed.

(** The [try] block works through its stages in the order of the text. *)
Lemma staged_try values field feature_name using_ validated_only kwargs df
    v :
  staged 1 5 (register_labels_try ops values field feature_name using_
                                  validated_only kwargs df v).
Proof.
  unfold register_labels_try. cbv zeta.
  apply staged_bind with (mid := 1); [lia|lia| |intros _].
  { apply staged_silent. apply adds_set_verbosity. }
  apply staged_bind with (mid := 1); [lia|lia| |intro irc].
  { apply (@staged_one_stage _ LocalInspect). adds_step. }
  destruct (Nat.eqb _ 0).
  { apply staged_silent. repeat adds_step. }
  apply staged_bind with (mid := 2); [lia|lia| |intro res].
  { apply staged_weaken with (lo := 2) (hi := 2); [lia|lia|].
    apply (@staged_one_stage _ CrossInstance). apply adds_from_using. }
  apply staged_bind with (mid := 3); [lia|lia| |intro fvr].
  { apply staged_weaken with (lo := 3) (hi := 3); [lia|lia|].
    apply (@staged_one_stage _ PublicReference).
    apply adds_from_values_records. }
  apply staged_bind with (mid := 3); [lia|lia| |intros _].
  { apply (@staged_one_stage _ PublicReference). adds_step. }
  apply staged_bind with (mid := 3); [lia|lia| |intro fp].
  { apply staged_silent. apply adds_getattrs. }
  apply staged_bind with (mid := 3); [lia|lia| |intro wr].
  { apply staged_silent. apply adds_not_in_bucket. }
  apply staged_bind with (mid := 4); [lia|lia| |intro lr].
  { apply staged_weaken with (lo := 4) (hi := 4); [lia|lia|].
    apply (@staged_one_stage _ Placeholder). apply adds_placeholder_stage. }
  apply staged_bind with (mid := 5); [lia|lia| |intros _].
  { destruct (is_ULabel (field_model field)
              && String.eqb (field_name field) "name").
    - apply staged_weaken with (lo := 5) (hi := 5); [lia|lia|].
      apply (@staged_one_stage _ HierarchyLink). apply adds_with_parent.
    - apply staged_silent. apply adds_ret. }
  apply staged_silent. apply adds_ret.
Qed.

(** X8. Whatever the backend answers, and on both exits, a call of
    [register_labels] first checks the organism and then works stage after
    stage: local inspection, using instance, public reference,
    placeholders, parent link, report.  No stage is entered again once a
    later one has begun; in particular nothing is saved after a message
    has been logged. *)
Theorem stages_run_in_order values field feature_name using_ validated_only
    (kwargs : option Kwargs) df (w : World B) :
  exists d,
    trace (world_of (register_labels ops values field feature_name using_
                                     validated_only kwargs df w))
    = trace w
      ++ (Start,
          OCheckOrganism
            (dict_get "organism"
                      (match kwargs with None => [] | Some k => k end)))
      :: d
    /\ in_stage_order (stage_rank LocalInspect) d = true.
Proof.
  unfold register_labels. cbv zeta.
  generalize (if negb (reg_public (field_model field)) then false
              else validated_only).
  intro vo.
  change (stage_rank LocalInspect) with 1.
  apply staged_after_call with (hi := 6). intros _.
  apply staged_bind with (mid := 1); [lia|lia| |intro v].
  { apply staged_silent. apply adds_get_verbosity. }
  apply staged_bind with (mid := 5); [lia|lia| |intro flow].
  { apply staged_try_finally; [lia| |apply adds_set_verbosity].
    apply staged_try. }
  destruct flow as [|lr].
  - apply staged_silent. apply adds_ret.
  - apply staged_bind with (mid := 6); [lia|lia| |intros _].
    + apply staged_weaken with (lo := 6) (hi := 6); [lia|lia|].
      apply (@staged_one_stage _ Report). apply adds_log.
    + apply staged_silent. apply adds_ret.
Qed.

End StageOrder.

(** ** When the parent link is made *)

Lemma adds_try_without_link (B : Type) (ops : Backend B) values field
    feature_name using_ validated_only kwargs df v :
  is_ULabel (field_model field) && String.eqb (field_name field) "name"
  = false ->
  adds (fun e => fst e <> HierarchyLink)
       (register_labels_try ops values field feature_name using_
                            validated_only kwargs df v).
Proof.
  intro Hflag. unfold register_labels_try. cbv zeta. rewrite Hflag.
  apply adds_bind; [apply adds_set_verbosity|intros _].
  apply adds_bind; [adds_step|intro irc].
  destruct (Nat.eqb _ 0); [repeat adds_step|].
  apply adds_bind.
  { eapply adds_weaken; [|apply adds_from_using].
    intros e He. rewrite He. discriminate. }
  intro res.
  apply adds_bind.
  { eapply adds_weaken; [|apply adds_from_values_records].
    intros e He. rewrite He. discriminate. }
  intro fvr.
  apply adds_bind; [adds_step|intros _].
  apply adds_bind; [apply adds_getattrs|intro fp].
  apply adds_bind; [apply adds_not_in_bucket|intro wr].
  apply adds_bind.
  { eapply adds_weaken; [|apply adds_placeholder_stage].
    intros e He. rewrite He. discriminate. }
  intro lr.
  apply adds_bind; [apply adds_ret|intros _; apply adds_ret].
Qed.

(** X9. Whatever the backend answers, and on both exits, a call of
    [register_labels] for a field other than the name of a free-form label
    never reaches the hierarchy linker: no label is looked up again, no
    parent is sought or created, and no child is added. *)
Theorem linker_only_for_label_names (B : Type) (ops : Backend B) values
    field feature_name using_ validated_only (kwargs : option Kwargs) df
    (w : World B) :
  is_ULabel (field_model field) && String.eqb (field_name field) "name"
  = false ->
  stage_events HierarchyLink
    (trace (world_of (register_labels ops values field feature_name using_
                                      validated_only kwargs df w)))
  = stage_events HierarchyLink (trace w).
Proof.
  intro Hflag.
  assert (Hadds : adds (fun e => fst e <> HierarchyLink)
                       (register_labels ops values field feature_name using_
                                        validated_only kwargs df)).
  { unfold register_labels. cbv zeta.
    apply adds_bind; [adds_step|intros _].
    apply adds_bind; [apply adds_get_verbosity|intro v].
    apply adds_bind.
    - apply adds_try_finally;
        [apply adds_try_without_link; exact Hflag|apply adds_set_verbosity].
    - intros [|lr]; [apply adds_ret|].
      apply adds_bind; [|intros _; apply adds_ret].
      eapply adds_weaken; [|apply adds_log].
      intros e He. rewrite He. discriminate. }
  destruct (Hadds w) as [d [Hd Pd]]. rewrite Hd.
  apply stage_events_app. exact Pd.
Qed.

Lemma linker_only_for_label_names_witness :
  stage_events HierarchyLink
    (trace (world_of (register_labels store_ops ["age"; "dose"]
                        Examples.feature "feature" None false None
                        (Some Examples.measurements)
                        (initial "warning" Examples.feature_store))))
  = [].
Proof.
  apply (@linker_only_for_label_names Store store_ops ["age"; "dose"]
           Examples.feature "feature" None false None
           (Some Examples.measurements)
           (initial "warning" Examples.feature_store)).
  reflexivity.
Defined.

(** ** What a call on the store leaves behind *)

(** A call that returns on the store: either every value was known and
    the store is untouched, or the stages ran to the store [st']. *)
Lemma register_labels_returned values field feature_name using_
    validated_only (kwargs : option Kwargs) df (w w' : World Store) rv :
  register_labels store_ops values field feature_name using_ validated_only
                  kwargs df w = Ok rv w' ->
  let kw := match kwargs with None => [] | Some k => k end in
  let vo := if negb (reg_public (field_model field)) then false
            else validated_only in
  verbosity w' = verbosity w
  /\ ((unresolved field (backend w) values = []
       /\ backend w' = backend w)
      \/ (unresolved field (backend w) values <> []
          /\ exists lr,
               store_outcome values field feature_name using_ vo kw df
                             (backend w) = Some (lr, backend w'))).
Proof.
  intros H kw vo.
  pose proof (register_labels_store values field feature_name using_
                validated_only kwargs df w) as P.
  cbv zeta in P. fold kw vo in P.
  destruct (organism_scoped (backend w)
            && match dict_get "organism" kw with
               | None => true
               | Some _ => false
               end).
  { destruct P as [tr P]. rewrite P in H. discriminate H. }
  destruct (unresolved field (backend w) values) as [|x N'].
  - destruct P as [tr P]. rewrite P in H. inversion H; subst.
    split; [reflexivity|]. left. split; reflexivity.
  - destruct (store_outcome values field feature_name using_ vo kw df
                            (backend w)) as [[lr st']|].
    2:{ destruct P as (e & w0 & P). rewrite P in H. discriminate H. }
    destruct P as [tr P]. rewrite P in H. inversion H; subst.
    split; [reflexivity|]. right. split; [discriminate|].
    exists lr. reflexivity.
Qed.

(** X10. On the store, when placeholders are not switched off, a call of
    [register_labels] that returns leaves every value known to the local
    registry: a local inspection of the same values finds nothing left to
    register.  The dataframe branch, which registers the columns instead,
    and the type field of features, whose placeholder gets the type
    [category], are set aside. *)
Theorem every_value_known_afterwards values field feature_name using_
    validated_only (kwargs : option Kwargs) df (w w' : World Store) rv :
  register_labels store_ops values field feature_name using_ validated_only
                  kwargs df w = Ok rv w' ->
  reg_public (field_model field) = false \/ validated_only = false ->
  is_Feature (field_model field) = false
  \/ (df = None /\ field_name field <> "type") ->
  unresolved field (backend w') values = []
  /\ (forall v, In v values ->
                known (field_name field) (local (backend w')) v = true).
Proof.
  intros H Hvo Hedge.
  assert (Hgoal : unresolved field (backend w') values = []).
  { destruct (register_labels_returned _ _ _ _ _ _ _ _ H) as [_ Hr].
    cbv zeta in Hr.
    assert (Evo : (if negb (reg_public (field_model field)) then false
                   else validated_only) = false).
    { destruct Hvo as [-> | ->]; [reflexivity|].
      destruct (negb (reg_public (field_model field))); reflexivity. }
    rewrite Evo in Hr.
    destruct Hr as [[HN Hb]|[HN [lr Hso]]].
    - rewrite Hb. exact HN.
    - apply store_outcome_inv in Hso.
      destruct Hso as (fu & nvl & st2 & Huo & Hso). cbv zeta in Hso.
      destruct Hso as [_ Hlink].
      apply (@second_all_known values field feature_name using_ false
               (match kwargs with None => [] | Some k => k end) df
               (backend w) (backend w') fu nvl st2 Huo Hlink eq_refl).
      + unfold df_path. simpl negb.
        destruct Hedge as [HF|[-> _]]; [|reflexivity].
        rewrite HF. destruct df; reflexivity.
      + destruct Hedge as [HF|[_ Hty]]; [rewrite HF; reflexivity|].
        apply andb_false_iff. right. apply String.eqb_neq. exact Hty. }
  split; [exact Hgoal|].
  intros v Hv.
  destruct (known (field_name field) (local (backend w')) v) eqn:Hk;
    [reflexivity|].
  assert (Hin : In v (unresolved field (backend w') values))
    by (apply In_unresolved; split; assumption).
  rewrite Hgoal in Hin. destruct Hin.
Qed.

Lemma every_value_known_afterwards_witness :
  exists w',
    register_labels store_ops Examples.tissue_values Examples.tissue
                    "tissue" (Some "atlas") false None None
                    (initial "warning" Examples.tissue_store)
    = Ok None w'
    /\ unresolved Examples.tissue (backend w') Examples.tissue_values = []
    /\ known "name" (local (backend w')) "unknowntissue" = true.
Proof.
  pose (w' := world_of
                (register_labels store_ops Examples.tissue_values
                   Examples.tissue "tissue" (Some "atlas") false None None
                   (initial "warning" Examples.tissue_store))).
  assert (H : register_labels store_ops Examples.tissue_values
                Examples.tissue "tissue" (Some "atlas") false None None
                (initial "warning" Examples.tissue_store)
              = Ok None w') by (vm_compute; reflexivity).
  destruct (@every_value_known_afterwards _ _ _ _ _ _ _ _ _ _ H)
    as [Hu Hall].
  - right. reflexivity.
  - right. split; [reflexivity|discriminate].
  - exists w'. split; [exact H|]. split; [exact Hu|].
    apply Hall. right. right. left. reflexivity.
Defined.

Lemma store_outcome_links values field feature_name using_ validated_only
    kwargs df st lr st' :
  store_outcome values field feature_name using_ validated_only kwargs df st
  = Some (lr, st') ->
  (forall l, In l (links st) -> In l (links st'))
  /\ (is_ULabel (field_model field) && String.eqb (field_name field) "name"
      = false -> links st' = links st).
Proof.
  intro Hso. apply store_outcome_inv in Hso.
  destruct Hso as (fu & nvl & st2 & Huo & Hso). cbv zeta in Hso.
  destruct Hso as [_ Hlink].
  destruct (@using_store_frame _ _ _ _ _ _ _ Huo) as (_ & _ & L2 & _).
  match type of Hlink with
  | context [snd ?po] =>
      assert (L4 : links (snd po) = links st)
  end.
  { match goal with
    | |- links (snd (placeholder_outcome ?r ?f ?u ?v ?k ?d ?l ?s)) = _ =>
        destruct (placeholder_outcome_frame r f u v k d l s)
          as (_ & _ & L3 & _)
    end.
    rewrite L3. simpl. exact L2. }
  destruct (is_ULabel (field_model field)
            && String.eqb (field_name field) "name").
  - destruct (linker_outcome_links _ _ _ _ Hlink) as (p & _ & Hl & _).
    split; [|discriminate].
    intros l Hin. rewrite Hl. apply add_links_incl. rewrite L4. exact Hin.
  - subst st'. split; [|intros _; exact L4].
    intros l Hin. rewrite L4. exact Hin.
Qed.

(** X11. On the store, a call of [register_labels] that returns removes
    nothing: every record and every parent link stored before the call is
    stored after it, and the using instances, the public reference and the
    organism setting are as they were.  Links are added for the name of a
    free-form label only. *)
Theorem returned_call_removes_nothing values field feature_name using_
    validated_only (kwargs : option Kwargs) df (w w' : World Store) rv :
  register_labels store_ops values field feature_name using_ validated_only
                  kwargs df w = Ok rv w' ->
  (forall r, In r (local (backend w)) -> In r (local (backend w')))
  /\ (forall l, In l (links (backend w)) -> In l (links (backend w')))
  /\ instances (backend w') = instances (backend w)
  /\ public (backend w') = public (backend w)
  /\ organism_scoped (backend w') = organism_scoped (backend w)
  /\ (is_ULabel (field_model field) && String.eqb (field_name field) "name"
      = false -> links (backend w') = links (backend w)).
Proof.
  intro H.
  destruct (register_labels_returned _ _ _ _ _ _ _ _ H) as [_ Hr].
  cbv zeta in Hr.
  destruct Hr as [[_ Hb]|[_ [lr Hso]]].
  - rewrite Hb. repeat split; auto.
  - destruct (store_outcome_links _ _ _ _ _ _ _ _ Hso) as [Hl1 Hl2].
    apply store_outcome_inv in Hso.
    destruct Hso as (fu & nvl & st2 & Huo & Hso). cbv zeta in Hso.
    destruct Hso as [_ Hlink].
    destruct (@first_grows values field feature_name using_ _ _ df
                (backend w) (backend w') fu nvl st2 Huo Hlink)
      as (G1 & G2 & G3 & G4).
    repeat split; assumption.
Qed.

Lemma returned_call_removes_nothing_witness :
  exists w',
    register_labels store_ops Examples.tissue_values Examples.tissue
                    "tissue" (Some "atlas") false None None
                    (initial "warning" Examples.tissue_store)
    = Ok None w'
    /\ In (Examples.named "liver") (local (backend w'))
    /\ instances (backend w') = instances Examples.tissue_store.
Proof.
  pose (w' := world_of
                (register_labels store_ops Examples.tissue_values
                   Examples.tissue "tissue" (Some "atlas") false None None
                   (initial "warning" Examples.tissue_store))).
  assert (H : register_labels store_ops Examples.tissue_values
                Examples.tissue "tissue" (Some "atlas") false None None
                (initial "warning" Examples.tissue_store)
              = Ok None w') by (vm_compute; reflexivity).
  destruct (@returned_call_removes_nothing _ _ _ _ _ _ _ _ _ _ H)
    as (Hloc & _ & Hinst & _).
  exists w'. split; [exact H|]. split; [|exact Hinst].
  apply Hloc. left. reflexivity.
Defined.

(** ** How a call on the store can fail *)

(** The [try] block on the store raises at the using instance or at the
    parent lookup, and nowhere else. *)
Lemma register_labels_try_raises values field feature_name using_
    validated_only kwargs df v (w : World Store) e w' :
  register_labels_try store_ops values field feature_name using_
                      validated_only kwargs df v w = Raise e w' ->
  (exists u,
      remote_instance using_ = Some u
      /\ dict_get u (instances (backend w)) = None
      /\ e = UnknownInstance u
      /\ backend w' = backend w)
  \/ (is_ULabel (field_model field) && String.eqb (field_name field) "name"
      = true
      /\ e = MultipleResultsFound
      /\ linker_outcome field feature_name values (backend w') = None
      /\ grows (backend w) (backend w')
      /\ links (backend w') = links (backend w)).
Proof.
  intro H.
  set (registry := field_model field).
  set (N := unresolved field (backend w) values).
  set (w0 := {| verbosity := "error"; trace := trace w;
                backend := backend w |}).
  set (irc := {| validated := filter (known (field_name field)
                                            (local (backend w)))
                                     (distinct values);
                 non_validated := N |}).
  set (w1 := retrace w0
               (trace w ++ [(LocalInspect, OInspect (current registry) values)])
               (backend w)).
  assert (Hhead :
            register_labels_try store_ops values field feature_name using_
                                validated_only kwargs df v w
            = (if Nat.eqb (List.length N) 0
               then (set_verbosity v ;;; ret Returned)
               else
                res <- register_labels_from_using_instance store_ops N field
                         using_ (Some kwargs) ;;
                let labels_registered :=
                  dict_set (from_key using_) (fst res)
                           [("from public", []); ("without reference", [])] in
                let non_validated_labels := snd res in
                from_values_records <-
                  from_values_records store_ops registry field kwargs
                                      non_validated_labels ;;
                call PublicReference (OSave from_values_records)
                     (ln_save store_ops from_values_records) ;;;
                from_public <- getattrs from_values_records
                                        (field_name field) ;;
                let labels_registered :=
                  dict_set "from public" from_public labels_registered in
                without <- not_in_bucket non_validated_labels "from public"
                                         labels_registered ;;
                let labels_registered :=
                  dict_set "without reference" without labels_registered in
                labels_registered <-
                  placeholder_stage store_ops registry field using_
                                    validated_only kwargs df
                                    labels_registered ;;
                (if is_ULabel registry
                    && String.eqb (field_name field) "name"
                 then register_ulabels_with_parent store_ops values field
                                                   feature_name
                 else ret tt) ;;;
                ret (FellThrough labels_registered)) w1).
  { reflexivity. }
  destruct N as [|x N'] eqn:HN.
  - rewrite Hhead in H. discriminate H.
  - change (Nat.eqb (List.length (x :: N')) 0) with false in Hhead.
    cbv iota in Hhead.
    pose proof (using_stage_store (x :: N') field using_ (Some kwargs) w1)
      as Husing.
    change (backend w1) with (backend w) in Husing.
    destruct (using_outcome field (backend w) using_ (x :: N'))
      as [[[fu nvl] st2]|] eqn:Huo.
    2:{ clear Husing. left. unfold using_outcome in Huo.
        destruct (remote_instance using_) as [u|] eqn:Hrem;
          [|discriminate Huo].
        destruct (dict_get u (instances (backend w))) eqn:Hget;
          [discriminate Huo|].
        assert (Hu : using_ = Some u /\ String.eqb u "default" = false).
        { unfold remote_instance in Hrem. destruct using_ as [u0|];
            [|discriminate Hrem].
          destruct (String.eqb u0 "default") eqn:E; [discriminate Hrem|].
          inversion Hrem; subst u0. auto. }
        destruct Hu as [Hu1 Hu2]. subst using_.
        destruct (@using_stage_unknown (x :: N') field u (Some kwargs) w1
                    Hu2 Hget) as [tr Hraise].
        rewrite Hhead in H.
        erewrite bind_Raise_intro in H; [|exact Hraise].
        inversion H; subst. exists u. repeat split; auto. }
    destruct Husing as [tr2 Husing].
    set (fvr := public_records field st2 nvl).
    set (st3 := with_local st2 (persist_all fvr (local st2))).
    set (lr2 := buckets_after_public using_ fu
                  (map (attr_of (field_name field)) fvr) nvl).
    destruct (from_values_records_store registry field kwargs nvl
                (retrace w1 tr2 st2)) as [tr3 Hfv].
    change (backend (retrace w1 tr2 st2)) with st2 in Hfv.
    fold (public_records field st2 nvl) in Hfv. fold fvr in Hfv.
    destruct (buckets_after_public_keys using_ fu
                (map (attr_of (field_name field)) fvr) nvl)
      as (Kfp & Kfu & Kwr).
    fold lr2 in Kfp, Kfu, Kwr.
    set (w3 := retrace w1 (tr3 ++ [(PublicReference, OSave fvr)]) st3).
    destruct (@placeholder_stage_store registry field using_ validated_only
                kwargs df lr2 w3 Kfp Kfu Kwr) as [tr4 Hph].
    change (backend w3) with st3 in Hph.
    destruct (placeholder_outcome registry field using_ validated_only kwargs
                df lr2 st3) as [lr3 st4] eqn:Hpo.
    simpl fst in Hph. simpl snd in Hph.
    match type of Hhead with
    | _ = ?rhs =>
        assert (Hrun : rhs
                       = ((if is_ULabel registry
                              && String.eqb (field_name field) "name"
                           then register_ulabels_with_parent store_ops values
                                                             field feature_name
                           else ret tt) ;;;
                          ret (FellThrough lr3)) (retrace w3 tr4 st4))
    end.
    { erewrite bind_Ok_intro; [|exact Husing]. cbv beta zeta.
      simpl fst. simpl snd.
      erewrite bind_Ok_intro; [|exact Hfv].
      erewrite bind_Ok_intro with (w1 := w3); [|reflexivity].
      erewrite bind_Ok_intro;
        [|apply getattrs_eval; apply records_for_have_attr].
      erewrite bind_Ok_intro;
        [|apply not_in_bucket_eval; apply dict_get_set_same].
      erewrite bind_Ok_intro; [|exact Hph].
      reflexivity. }
    rewrite Hrun in Hhead. clear Hrun. rename Hhead into Hrun.
    cbv zeta. unfold registry in *.
    destruct (is_ULabel (field_model field)
              && String.eqb (field_name field) "name") eqn:Hlink.
    + pose proof Hlink as Hflag.
      apply andb_true_iff in Hlink. destruct Hlink as [HU _].
      pose proof (@linker_store values field feature_name
                                (retrace w3 tr4 st4) HU) as Hl.
      change (backend (retrace w3 tr4 st4)) with st4 in Hl.
      destruct (linker_outcome field feature_name values st4) as [st5|]
        eqn:Hlo.
      * destruct Hl as [tr5 Hl]. rewrite Hrun in H.
        erewrite bind_Ok_intro in H; [|exact Hl]. discriminate H.
      * destruct Hl as [tr5 Hl]. rewrite Hrun in H.
        erewrite bind_Raise_intro in H; [|exact Hl].
        inversion H; subst e w'. right.
        change (backend (retrace (retrace w3 tr4 st4) tr5 st4)) with st4.
        split; [reflexivity|]. split; [reflexivity|].
        split; [exact Hlo|].
        assert (E4 : st4 = snd (placeholder_outcome (field_model field)
                                  field using_ validated_only kwargs df
                                  lr2 st3))
          by (rewrite Hpo; reflexivity).
        destruct (@using_store_frame _ _ _ _ _ _ _ Huo)
          as (A2 & B2 & L2 & D2).
        destruct (placeholder_outcome_frame (field_model field) field
                    using_ validated_only kwargs df lr2 st3)
          as (A4 & B4 & L4 & D4).
        rewrite <- E4 in A4, B4, L4, D4.
        split.
        { unfold grows. split; [|split; [|split]].
          - intros r Hr. rewrite E4.
            apply placeholder_outcome_grows. unfold st3. simpl.
            apply persist_all_incl.
            eapply using_store_grows; [exact Huo|exact Hr].
          - rewrite A4. simpl. exact A2.
          - rewrite B4. simpl. exact B2.
          - rewrite D4. simpl. exact D2. }
        rewrite L4. simpl. exact L2.
    + rewrite Hrun in H. discriminate H.
Qed.
Lemma bind_Raise (B A C : Type) (m : M B A) (k : A -> M B C) w e w' :
  bind m k w = Raise e w' ->
  m w = Raise e w' \/ exists a w1, m w = Ok a w1 /\ k a w1 = Raise e w'.
Proof.
  unfold bind. destruct (m w) as [a w1|e1 w1]; intro H.
  - right. exists a, w1. split; [reflexivity|exact H].
  - left. inversion H. reflexivity.
Qed.

Lemma linker_outcome_none field feature_name values st :
  linker_outcome field feature_name values st = None ->
  2 <= List.length (parents feature_name st).
Proof.
  unfold linker_outcome, parents.
  destruct (filter (has_attr "name" ("is_" ++ feature_name)%string)
                   (local st)) as [|p [|q rest]];
    intro H; try discriminate H.
  simpl. lia.
Qed.

(** X12. On the store a call of [register_labels] fails in three ways
    only, each with the verbosity put back.  A registry that needs an
    organism and gets none fails the check of line 89, and an unknown
    using instance fails its lookup: both leave the store as it was.  Two
    or more records named [is_<feature_name>] fail the parent lookup of
    the linker: by then the records of the earlier stages are saved and
    stay saved, and no link has been added. *)
Theorem store_call_fails_in_three_ways values field feature_name using_
    validated_only (kwargs : option Kwargs) df (w w' : World Store) e :
  register_labels store_ops values field feature_name using_ validated_only
                  kwargs df w = Raise e w' ->
  verbosity w' = verbosity w
  /\ ((e = ValidationError
       /\ organism_scoped (backend w) = true
       /\ dict_get "organism"
                   (match kwargs with None => [] | Some k => k end) = None
       /\ backend w' = backend w)
      \/ (exists u,
             using_ = Some u /\ u <> "default"
             /\ dict_get u (instances (backend w)) = None
             /\ e = UnknownInstance u
             /\ backend w' = backend w)
      \/ (is_ULabel (field_model field) = true
          /\ field_name field = "name"
          /\ e = MultipleResultsFound
          /\ 2 <= List.length (parents feature_name (backend w'))
          /\ grows (backend w) (backend w')
          /\ links (backend w') = links (backend w))).
Proof.
  unfold register_labels. cbv zeta.
  generalize (if negb (reg_public (field_model field)) then false
              else validated_only).
  intros vo H.
  apply bind_Raise in H. destruct H as [H|(c & w0 & Hc & H)].
  { unfold call, store_ops, check_if_registry_needs_organism,
      store_check_organism in H.
    destruct (organism_scoped (backend w)) eqn:Hs.
    - match type of H with
      | context [dict_get "organism" ?k] =>
          destruct (dict_get "organism" k) eqn:Ho
      end; inversion H; subst. split; [reflexivity|]. left.
      split; [reflexivity|]. split; [reflexivity|].
      split; [exact Ho|reflexivity].
    - discriminate H. }
  assert (Hw0 : verbosity w0 = verbosity w /\ backend w0 = backend w).
  { unfold call, store_ops, check_if_registry_needs_organism,
      store_check_organism in Hc.
    destruct (organism_scoped (backend w)).
    - match type of Hc with
      | context [dict_get "organism" ?k] =>
          destruct (dict_get "organism" k)
      end; inversion Hc; subst; auto.
    - inversion Hc; subst; auto. }
  destruct Hw0 as [Hv0 Hb0].
  apply bind_Raise in H. destruct H as [H|(v & w0' & Hv & H)];
    [discriminate H|].
  unfold get_verbosity in Hv. inversion Hv; subst v w0'; clear Hv.
  apply bind_Raise in H. destruct H as [H|(flow & w1 & Hflow & H)].
  - unfold try_finally, set_verbosity in H.
    match type of H with
    | context [register_labels_try ?o ?a ?b ?c ?d ?f ?g ?h ?i ?j] =>
        destruct (register_labels_try o a b c d f g h i j)
          as [fl w1|e1 w1] eqn:Htry
    end; [discriminate H|].
    inversion H; subst e w'. clear H. simpl.
    split; [exact Hv0|]. right.
    apply register_labels_try_raises in Htry.
    rewrite Hb0 in Htry.
    destruct Htry as [(u & Hrem & Hget & He & Hb)
                     |(Hflag & He & Hlo & Hg & Hl)].
    + left. exists u. unfold remote_instance in Hrem.
      destruct using_ as [u0|]; [|discriminate Hrem].
      destruct (String.eqb u0 "default") eqn:E; [discriminate Hrem|].
      inversion Hrem; subst u0. apply String.eqb_neq in E. auto.
    + right. apply andb_true_iff in Hflag. destruct Hflag as [HU Hn].
      apply String.eqb_eq in Hn.
      split; [exact HU|]. split; [exact Hn|]. split; [exact He|].
      split; [apply (linker_outcome_none _ _ _ _ Hlo)|].
      split; [exact Hg|exact Hl].
  - destruct flow as [|lr]; [discriminate H|].
    apply bind_Raise in H. destruct H as [H|(u & w2 & _ & H)];
      [|discriminate H].
    unfold log_registered_labels in H.
    match type of H with
    | log_items ?a ?b ?c ?d ?i ?w = _ =>
        destruct (log_items_state a b c d i w) as [tr Hlog]
    end.
    rewrite Hlog in H. discriminate H.
Qed.

Lemma store_call_fails_in_three_ways_witness :
  exists w',
    register_labels store_ops Examples.tissue_values Examples.tissue
                    "tissue" (Some "elsewhere") false None None
                    (initial "warning" Examples.tissue_store)
    = Raise (UnknownInstance "elsewhere") w'
    /\ verbosity w' = "warning".
Proof.
  pose (w' := world_of
                (register_labels store_ops Examples.tissue_values
                   Examples.tissue "tissue" (Some "elsewhere") false None
                   None (initial "warning" Examples.tissue_store))).
  assert (H : register_labels store_ops Examples.tissue_values
                Examples.tissue "tissue" (Some "elsewhere") false None None
                (initial "warning" Examples.tissue_store)
              = Raise (UnknownInstance "elsewhere") w')
    by (vm_compute; reflexivity).
  exists w'. split; [exact H|].
  exact (proj1 (@store_call_fails_in_three_ways _ _ _ _ _ _ _ _ _ _ H)).
Defined.

(** * Registering an artifact *)

Lemma dict_get_py_kwargs k (kwargs : Kwargs) :
  dict_get k (py_kwargs kwargs) = option_map Some (dict_get k kwargs).
Proof.
  induction kwargs as [|[k' v] kw IH]; simpl; [reflexivity|].
  destruct (String.eqb k k'); [reflexivity|exact IH].
Qed.

Lemma dict_get_remove_same (V : Type) k (d : Dict V) :
  dict_get k (dict_remove k d) = None.
Proof.
  induction d as [|[k' v] d IH]; simpl; [reflexivity|].
  destruct (String.eqb k k') eqn:E; [exact IH|].
  simpl. rewrite E. exact IH.
Qed.

Lemma dict_get_remove_other (V : Type) k k0 (d : Dict V) :
  k <> k0 -> dict_get k (dict_remove k0 d) = dict_get k d.
Proof.
  intro Hne. induction d as [|[k' v] d IH]; simpl; [reflexivity|].
  destruct (String.eqb k0 k') eqn:E0.
  - apply String.eqb_eq in E0. subst k'.
    apply String.eqb_neq in Hne. rewrite Hne. exact IH.
  - simpl. destruct (String.eqb k k'); [reflexivity|exact IH].
Qed.

Lemma labels_added_app d1 d2 :
  labels_added (d1 ++ d2) = labels_added d1 ++ labels_added d2.
Proof. unfold labels_added. apply flat_map_app. Qed.

Section ArtifactLaws.

Variable B : Type.
Variable ops : ArtifactOps B.

Lemma calls_ret P (A : Type) (a : A) : calls P (@ret (ArtifactState B) A a).
Proof.
  intro w. exists []. rewrite app_nil_r. split; [reflexivity|constructor].
Qed.

Lemma calls_raise P (A : Type) e : calls P (@raise (ArtifactState B) A e).
Proof.
  intro w. exists []. rewrite app_nil_r. split; [reflexivity|constructor].
Qed.

Lemma calls_acall (P : ArtifactCall -> Prop) (A : Type) c
    (f : B -> Res B A) :
  P c -> calls P (acall c f).
Proof.
  intros H w. exists [c]. unfold acall.
  destruct (f (art_backend (backend w))); (split; [reflexivity|]);
    (constructor; [exact H|constructor]).
Qed.

Lemma calls_alog (P : ArtifactCall -> Prop) c : P c -> calls P (@alog B c).
Proof.
  intros H w. exists [c]. split; [reflexivity|].
  constructor; [exact H|constructor].
Qed.

Lemma calls_bind P (A C : Type) (m : M (ArtifactState B) A)
    (k : A -> M (ArtifactState B) C) :
  calls P m -> (forall a, calls P (k a)) -> calls P (bind m k).
Proof.
  intros Hm Hk w. unfold bind. destruct (Hm w) as [d [Hd Pd]].
  destruct (m w) as [a w1|e w1]; simpl in *.
  - destruct (Hk a w1) as [d' [Hd' Pd']].
    exists (d ++ d'). rewrite Hd', Hd, app_assoc. split; [reflexivity|].
    apply Forall_app. split; assumption.
  - exists d. split; assumption.
Qed.

(** [df[name]], and what follows when the column is there. *)
Lemma calls_getitem_bind P (V C : Type) k (d : Dict V)
    (f : V -> M (ArtifactState B) C) :
  (forall v, dict_get k d = Some v -> calls P (f v)) ->
  calls P (bind (getitem k d) f).
Proof.
  intro H. unfold getitem. destruct (dict_get k d) as [v|].
  - intro w. exact (H v eq_refl w).
  - intro w. exists []. rewrite app_nil_r.
    split; [reflexivity|constructor].
Qed.

Lemma acall_Ok (A : Type) c (f : B -> Res B A) w a w' :
  acall c f w = Ok a w' ->
  exists b,
    f (art_backend (backend w)) = Ok a b
    /\ w' = retrace w (trace w)
                    {| art_calls := art_calls (backend w) ++ [c];
                       art_backend := b |}.
Proof.
  unfold acall. destruct (f (art_backend (backend w))) as [a0 b|e b];
    intro H; inversion H; subst. exists b. split; reflexivity.
Qed.

(** *** The arguments handed on *)

Lemma calls_link_fields data fields0 kwargs0 artifact features fields :
  incl fields fields0 ->
  calls (forwards data fields0 kwargs0)
        (link_fields ops artifact (data_table data) features
                     (dict_get "organism" kwargs0)
                     (dict_remove "organism" kwargs0) fields).
Proof.
  induction fields as [|[feature_name field] rest IH]; intro Hincl; simpl.
  - apply calls_ret.
  - apply calls_bind;
      [|intros _; apply IH; intros x Hx; apply Hincl; right; exact Hx].
    apply calls_bind; [apply calls_acall; reflexivity|intro needed].
    apply calls_getitem_bind. intros column Hcol.
    apply calls_bind; [|intro labels; apply calls_acall; exact I].
    apply calls_acall. simpl. split; [|split; [reflexivity|split]].
    + exists feature_name. split; [apply Hincl; left; reflexivity|].
      exact Hcol.
    + intros k Hk.
      destruct needed;
        [rewrite dict_get_set_other by exact Hk|];
        rewrite dict_get_py_kwargs, dict_get_remove_other by exact Hk;
        reflexivity.
    + destruct needed.
      * right. apply dict_get_set_same.
      * left. rewrite dict_get_py_kwargs, dict_get_remove_same.
        reflexivity.
Qed.

Lemma calls_made data fields kwargs artifact anndata feature_field :
  calls (forwards data fields kwargs)
        (register_artifact_made ops artifact anndata (data_table data)
                                fields feature_field kwargs).
Proof.
  unfold register_artifact_made. cbv zeta.
  apply calls_bind; [apply calls_acall; exact I|intros _].
  apply calls_bind; [apply calls_acall; reflexivity|intro needed].
  apply calls_bind.
  { destruct anndata; apply calls_acall; exact I. }
  intros _.
  apply calls_bind; [apply calls_acall; exact I|intro features].
  apply calls_bind.
  { apply calls_link_fields. apply incl_refl. }
  intros _.
  apply calls_bind; [apply calls_acall; exact I|intro slug].
  apply calls_bind; [apply calls_alog; exact I|intros _].
  apply calls_bind; [apply calls_acall; exact I|intro remote].
  apply calls_bind; [|intros _; apply calls_ret].
  destruct remote; [|apply calls_ret].
  apply calls_bind; [apply calls_acall; exact I|intro uid].
  apply calls_alog. exact I.
Qed.

(** X13. Whatever the collaborators answer, and on both exits,
    [register_artifact] asks about the organism the caller passed, and
    looks labels up for entries of [fields] only: for the registry of the
    entry's field, on the column of the entry's name, with the caller's
    other keyword arguments unchanged, and with the organism either left
    out or the one the caller passed. *)
Theorem register_artifact_forwards data description fields feature_field
    kwargs (w : World (ArtifactState B)) :
  exists d,
    art_calls (backend (world_of (register_artifact ops data description
                                    fields feature_field kwargs w)))
    = art_calls (backend w) ++ d
    /\ Forall (forwards data fields kwargs) d.
Proof.
  revert w. change (calls (forwards data fields kwargs)
                          (register_artifact ops data description fields
                                             feature_field kwargs)).
  unfold register_artifact. destruct data as [obs n|tbl|].
  - apply calls_bind; [apply calls_acall; exact I|intro artifact].
    apply calls_bind; [apply calls_acall; exact I|intros _].
    apply (@calls_made (AnnData obs n)).
  - apply calls_bind; [apply calls_acall; exact I|intro artifact].
    apply (@calls_made (PandasFrame tbl)).
  - apply calls_raise.
Qed.

(** *** A registration that returns *)

Lemma link_fields_Ok artifact df features organism kwargs fields
    (w w' : World (ArtifactState B)) :
  link_fields ops artifact df features organism kwargs fields w = Ok tt w' ->
  exists d,
    art_calls (backend w') = art_calls (backend w) ++ d
    /\ labels_added d
       = map (fun item => (artifact, dict_get (fst item) features)) fields
    /\ (forall name field, In (name, field) fields ->
                           dict_get name df <> None)
    /\ verbosity w' = verbosity w /\ trace w' = trace w.
Proof.
  revert w. induction fields as [|[feature_name field] rest IH]; intros w H.
  - simpl in H. unfold ret in H. inversion H; subst.
    exists []. rewrite app_nil_r. simpl.
    split; [reflexivity|]. split; [reflexivity|].
    split; [intros name fld []|]. split; reflexivity.
  - cbn [link_fields] in H.
    apply bind_Ok in H. destruct H as ([] & w1 & Hone & Hrest).
    unfold link_field in Hone.
    apply bind_Ok in Hone. destruct Hone as (needed & w2 & Hn & Hone).
    apply acall_Ok in Hn. destruct Hn as (b2 & _ & ->).
    apply bind_Ok in Hone. destruct Hone as (column & w3 & Hcol & Hone).
    unfold getitem in Hcol.
    destruct (dict_get feature_name df) as [col|] eqn:Hget;
      [|discriminate Hcol].
    unfold ret in Hcol. inversion Hcol; subst column w3. clear Hcol.
    apply bind_Ok in Hone. destruct Hone as (labels & w4 & Hfv & Hadd).
    apply acall_Ok in Hfv. destruct Hfv as (b4 & _ & ->).
    apply acall_Ok in Hadd. destruct Hadd as (b5 & _ & ->).
    destruct (IH _ Hrest) as (d & Hd & Hla & Hcols & Hv & Ht).
    simpl in Hd, Hv, Ht.
    eexists. split.
    { rewrite Hd. rewrite <- !app_assoc. reflexivity. }
    split.
    { simpl. rewrite Hla. reflexivity. }
    split.
    { intros name fld [E|Hin].
      - inversion E; subst. rewrite Hget. discriminate.
      - eapply Hcols. exact Hin. }
    split; assumption.
Qed.

Lemma register_artifact_made_Ok artifact anndata df fields feature_field
    kwargs (w w' : World (ArtifactState B)) a :
  register_artifact_made ops artifact anndata df fields feature_field kwargs
                         w = Ok a w' ->
  a = artifact
  /\ exists d features b b',
       art_calls (backend w')
       = art_calls (backend w) ++ CArtifactSave artifact :: d
       /\ Feature_lookup_dict ops b = Ok features b'
       /\ labels_added d
          = map (fun item => (artifact, dict_get (fst item) features))
                fields
       /\ (forall name field, In (name, field) fields ->
                              dict_get name df <> None)
       /\ verbosity w' = verbosity w /\ trace w' = trace w.
Proof.
  unfold register_artifact_made. cbv zeta. intro H.
  apply bind_Ok in H. destruct H as ([] & w1 & Hs & H).
  apply acall_Ok in Hs. destruct Hs as (b1 & _ & ->).
  apply bind_Ok in H. destruct H as (needed & w2 & Hn & H).
  apply acall_Ok in Hn. destruct Hn as (b2 & _ & ->).
  apply bind_Ok in H. destruct H as ([] & w3 & Hf & H).
  assert (Hw3 : exists c b3,
             labels_added [c] = []
             /\ w3 = retrace w (trace w)
                       {| art_calls :=
                            ((art_calls (backend w)
                              ++ [CArtifactSave artifact])
                             ++ [CNeedsOrganism (field_model feature_field)
                                   (dict_get "organism" kwargs)])
                            ++ [c];
                          art_backend := b3 |}).
  { destruct anndata; apply acall_Ok in Hf; destruct Hf as (b3 & _ & ->);
      eexists; exists b3; (split; [|reflexivity]); reflexivity. }
  destruct Hw3 as (c3 & b3 & Hc3 & ->). clear Hf.
  apply bind_Ok in H. destruct H as (features & w4 & Hl & H).
  apply acall_Ok in Hl. destruct Hl as (b4 & Hlookup & ->).
  simpl in Hlookup.
  apply bind_Ok in H. destruct H as ([] & w5 & Hlf & H).
  apply link_fields_Ok in Hlf.
  destruct Hlf as (d & Hd & Hla & Hcols & Hv5 & Ht5). simpl in Hd, Hv5, Ht5.
  apply bind_Ok in H. destruct H as (slug & w6 & Hslug & H).
  apply acall_Ok in Hslug. destruct Hslug as (b6 & _ & ->).
  apply bind_Ok in H. destruct H as ([] & w7 & Hlog & H).
  unfold alog in Hlog. inversion Hlog; subst w7. clear Hlog.
  apply bind_Ok in H. destruct H as (remote & w8 & Hrem & H).
  apply acall_Ok in Hrem. destruct Hrem as (b8 & _ & ->).
  apply bind_Ok in H. destruct H as ([] & w9 & Hinfo & H).
  unfold ret in H. inversion H; subst a w'. clear H.
  split; [reflexivity|].
  assert (Htail : exists t,
             art_calls (backend w9)
             = (art_calls (backend w5) ++ [CSlug; CLogSuccess slug;
                                           CIsRemote]) ++ t
             /\ labels_added t = []
             /\ verbosity w9 = verbosity w5 /\ trace w9 = trace w5).
  { destruct remote.
    - apply bind_Ok in Hinfo. destruct Hinfo as (uid & w10 & Hu & Hi).
      apply acall_Ok in Hu. destruct Hu as (b10 & _ & ->).
      unfold alog in Hi. inversion Hi; subst w9. clear Hi.
      exists [CUid artifact; CLogInfo slug uid]. simpl.
      rewrite <- !app_assoc. simpl. auto.
    - unfold ret in Hinfo. inversion Hinfo; subst w9.
      exists []. simpl. rewrite <- !app_assoc. simpl. auto. }
  destruct Htail as (t & Ht & Hlt & Hv9 & Ht9).
  exists ([CNeedsOrganism (field_model feature_field)
             (dict_get "organism" kwargs); c3; CFeatureLookup]
          ++ d ++ [CSlug; CLogSuccess slug; CIsRemote] ++ t).
  exists features, b3, b4.
  split.
  { rewrite Ht, Hd. rewrite <- !app_assoc. simpl. reflexivity. }
  split; [exact Hlookup|]. split.
  { change ([CNeedsOrganism (field_model feature_field)
               (dict_get "organism" kwargs); c3; CFeatureLookup]
            ++ d ++ [CSlug; CLogSuccess slug; CIsRemote] ++ t)
      with ([CNeedsOrganism (field_model feature_field)
               (dict_get "organism" kwargs)]
            ++ [c3] ++ [CFeatureLookup] ++ d
            ++ [CSlug; CLogSuccess slug; CIsRemote] ++ t).
    rewrite !labels_added_app, Hc3, Hla, Hlt. simpl.
    apply app_nil_r. }
  split; [exact Hcols|].
  split; [rewrite Hv9; exact Hv5|rewrite Ht9; exact Ht5].
Qed.

End ArtifactLaws.

(** X14. When [register_artifact] returns, it returns the artifact it
    made, saved before anything was attached to it.  After the save there
    is one [artifact.labels.add] for every entry of [fields], in the order
    of the dict, each on that artifact and with the feature the lookup of
    line 49 holds under the entry's name, [None] when it holds none.  Every
    entry's name is a column of the data, and verbosity is untouched. *)
Theorem artifact_linked_field_by_field (B : Type) (ops : ArtifactOps B)
    data description fields feature_field kwargs
    (w w' : World (ArtifactState B)) a :
  register_artifact ops data description fields feature_field kwargs w
  = Ok a w' ->
  exists d0 d1 features b b',
    art_calls (backend w')
    = art_calls (backend w) ++ d0 ++ CArtifactSave a :: d1
    /\ Forall (fun c => attaches c = false) d0
    /\ Feature_lookup_dict ops b = Ok features b'
    /\ labels_added d1
       = map (fun item => (a, dict_get (fst item) features)) fields
    /\ (forall name field, In (name, field) fields ->
                           dict_get name (data_table data) <> None)
    /\ verbosity w' = verbosity w.
Proof.
  unfold register_artifact. destruct data as [obs n|tbl|]; intro H.
  - apply bind_Ok in H. destruct H as (artifact & w1 & Hc & H).
    apply acall_Ok in Hc. destruct Hc as (b1 & _ & ->).
    apply bind_Ok in H. destruct H as ([] & w2 & Hn & H).
    apply acall_Ok in Hn. destruct Hn as (b2 & _ & ->).
    apply register_artifact_made_Ok in H.
    destruct H as (-> & d & features & b & b' & Hd & Hl & Hla & Hcols
                   & Hv & _).
    exists [CFromAnndata (AnnData obs n) description;
            CSetNObservations artifact n], d, features, b, b'.
    simpl in Hd, Hv. split.
    { rewrite Hd. rewrite <- !app_assoc. reflexivity. }
    split; [repeat constructor|].
    split; [exact Hl|]. split; [exact Hla|]. split; [exact Hcols|exact Hv].
  - apply bind_Ok in H. destruct H as (artifact & w1 & Hc & H).
    apply acall_Ok in Hc. destruct Hc as (b1 & _ & ->).
    apply register_artifact_made_Ok in H.
    destruct H as (-> & d & features & b & b' & Hd & Hl & Hla & Hcols
                   & Hv & _).
    exists [CFromDf (PandasFrame tbl) description], d, features, b, b'.
    simpl in Hd, Hv. split.
    { rewrite Hd. rewrite <- !app_assoc. reflexivity. }
    split; [repeat constructor|].
    split; [exact Hl|]. split; [exact Hla|]. split; [exact Hcols|exact Hv].
  - discriminate H.
Qed.

Lemma artifact_linked_field_by_field_witness :
  exists w' d0 d1,
    register_artifact numbering_ops (AnnData samples 3) "samples"
      [("tissue", Examples.tissue); ("age", Examples.ulabel)]
      Examples.feature [("organism", "human")]
      {| verbosity := "warning"; trace := [];
         backend := {| art_calls := []; art_backend := 7 |} |}
    = Ok 7 w'
    /\ art_calls (backend w') = d0 ++ CArtifactSave 7 :: d1
    /\ Forall (fun c => attaches c = false) d0
    /\ labels_added d1
       = [(7, Some [("name", "tissue")]); (7, Some [("name", "age")])].
Proof.
  pose (w0 := {| verbosity := "warning"; trace := [];
                 backend := {| art_calls := []; art_backend := 7 |} |}).
  pose (w' := world_of
                (register_artifact numbering_ops (AnnData samples 3)
                   "samples"
                   [("tissue", Examples.tissue); ("age", Examples.ulabel)]
                   Examples.feature [("organism", "human")] w0)).
  assert (H : register_artifact numbering_ops (AnnData samples 3) "samples"
                [("tissue", Examples.tissue); ("age", Examples.ulabel)]
                Examples.feature [("organism", "human")] w0
              = Ok 7 w') by (vm_compute; reflexivity).
  destruct (@artifact_linked_field_by_field _ _ _ _ _ _ _ _ _ _ H)
    as (d0 & d1 & features & b & b' & Hd & Hd0 & Hl & Hla & _).
  exists w', d0, d1. split; [exact H|]. split; [exact Hd|].
  split; [exact Hd0|].
  simpl in Hl. inversion Hl; subst features. exact Hla.
Defined.

(** *** One artifact, saved before it is used *)

Section ArtifactSafety.

Variable B : Type.
Variable ops : ArtifactOps B.

Lemma calls_after_acall (P : ArtifactCall -> Prop) (A C : Type) c
    (f : B -> Res B A) (k : A -> M (ArtifactState B) C) w :
  (forall a, calls P (k a)) ->
  exists d,
    art_calls (backend (world_of (bind (acall c f) k w)))
    = art_calls (backend w) ++ c :: d
    /\ Forall P d.
Proof.
  intro Hk. unfold bind, acall.
  destruct (f (art_backend (backend w))) as [a b|e b].
  - match goal with
    | |- context [k a ?w0] => destruct (Hk a w0) as (d & Hd & Pd)
    end.
    exists d. split; [|exact Pd].
    etransitivity; [exact Hd|]. simpl. rewrite <- app_assoc. reflexivity.
  - exists []. split; [reflexivity|constructor].
Qed.

Lemma calls_link_fields_on artifact df features organism kwargs fields :
  calls (on_artifact artifact)
        (link_fields ops artifact df features organism kwargs fields).
Proof.
  induction fields as [|[feature_name field] rest IH]; simpl.
  - apply calls_ret.
  - apply calls_bind; [|intros _; exact IH].
    apply calls_bind; [apply calls_acall; exact I|intro needed].
    apply calls_getitem_bind. intros column _.
    apply calls_bind; [apply calls_acall; exact I|intro labels].
    apply calls_acall. reflexivity.
Qed.

Lemma made_calls artifact anndata df fields feature_field kwargs
    (w : World (ArtifactState B)) :
  exists d,
    art_calls (backend (world_of (register_artifact_made ops artifact
                                    anndata df fields feature_field kwargs
                                    w)))
    = art_calls (backend w) ++ CArtifactSave artifact :: d
    /\ Forall (on_artifact artifact) d.
Proof.
  unfold register_artifact_made. cbv zeta.
  apply calls_after_acall. intros _.
  apply calls_bind; [apply calls_acall; exact I|intro needed].
  apply calls_bind.
  { destruct anndata; apply calls_acall; reflexivity. }
  intros _.
  apply calls_bind; [apply calls_acall; exact I|intro features].
  apply calls_bind; [apply calls_link_fields_on|intros _].
  apply calls_bind; [apply calls_acall; exact I|intro slug].
  apply calls_bind; [apply calls_alog; exact I|intros _].
  apply calls_bind; [apply calls_acall; exact I|intro remote].
  apply calls_bind; [|intros _; apply calls_ret].
  destruct remote; [|apply calls_ret].
  apply calls_bind; [apply calls_acall; reflexivity|intro uid].
  apply calls_alog. exact I.
Qed.

(** X15. Data that is neither an [AnnData] nor a [DataFrame] makes
    [register_artifact] raise [ValueError] before any collaborator is
    called.  For the other data, whatever the collaborators answer and on
    both exits, nothing is attached until an artifact is saved; from that
    save on every feature and label is attached to that one artifact, and
    no artifact is made or saved again. *)
Theorem one_artifact_saved_then_used data description fields feature_field
    kwargs (w : World (ArtifactState B)) :
  match data with
  | OtherData =>
      register_artifact ops data description fields feature_field kwargs w
      = Raise (ValueError "data must be a DataFrame or AnnData object") w
  | _ =>
      exists d,
        art_calls (backend (world_of (register_artifact ops data description
                                        fields feature_field kwargs w)))
        = art_calls (backend w) ++ d
        /\ (Forall (fun c => attaches c = false) d
            \/ exists a d0 d1,
                 d = d0 ++ CArtifactSave a :: d1
                 /\ Forall (fun c => attaches c = false) d0
                 /\ Forall (on_artifact a) d1)
  end.
Proof.
  destruct data as [obs n|tbl|]; [| |reflexivity].
  - unfold register_artifact, bind at 1, acall at 1.
    destruct (Artifact_from_anndata ops (AnnData obs n) description
                (art_backend (backend w))) as [artifact b1|e b1].
    2:{ exists [CFromAnndata (AnnData obs n) description].
        split; [reflexivity|]. left. repeat constructor. }
    unfold bind at 1, acall at 1. cbn [backend retrace art_backend].
    destruct (set_n_observations ops artifact n b1) as [[] b2|e b2].
    2:{ exists [CFromAnndata (AnnData obs n) description;
                CSetNObservations artifact n].
        split; [simpl; rewrite <- app_assoc; reflexivity|].
        left. repeat constructor. }
    match goal with
    | |- context [register_artifact_made ops ?a ?an ?df ?fs ?ff ?kw ?w0] =>
        destruct (made_calls a an df fs ff kw w0) as (d1 & Hd1 & Pd1)
    end.
    exists ([CFromAnndata (AnnData obs n) description;
             CSetNObservations artifact n]
            ++ CArtifactSave artifact :: d1).
    split.
    { etransitivity; [exact Hd1|]. simpl. rewrite <- !app_assoc.
      reflexivity. }
    right. exists artifact, [CFromAnndata (AnnData obs n) description;
                             CSetNObservations artifact n], d1.
    split; [reflexivity|]. split; [repeat constructor|exact Pd1].
  - unfold register_artifact, bind at 1, acall at 1.
    destruct (Artifact_from_df ops (PandasFrame tbl) description
                (art_backend (backend w))) as [artifact b1|e b1].
    2:{ exists [CFromDf (PandasFrame tbl) description].
        split; [reflexivity|]. left. repeat constructor. }
    match goal with
    | |- context [register_artifact_made ops ?a ?an ?df ?fs ?ff ?kw ?w0] =>
        destruct (made_calls a an df fs ff kw w0) as (d1 & Hd1 & Pd1)
    end.
    exists ([CFromDf (PandasFrame tbl) description]
            ++ CArtifactSave artifact :: d1).
    split.
    { etransitivity; [exact Hd1|]. simpl. rewrite <- !app_assoc.
      reflexivity. }
    right. exists artifact, [CFromDf (PandasFrame tbl) description], d1.
    split; [reflexivity|]. split; [repeat constructor|exact Pd1].
Qed.

End ArtifactSafety.

(** * The dataframe argument *)

(** X16. [register_labels] reads its [df] argument on one path only: for
    the feature registry with placeholders switched on.  For any other
    registry, and whenever [validated_only] is in force, a call with a
    dataframe is the call without one, on any backend. *)
Theorem dataframe_read_for_features_only (B : Type) (ops : Backend B) values
    field feature_name using_ validated_only (kwargs : option Kwargs) df
    (w : World B) :
  is_Feature (field_model field) = false
  \/ (reg_public (field_model field) = true /\ validated_only = true) ->
  register_labels ops values field feature_name using_ validated_only kwargs
                  (Some df) w
  = register_labels ops values field feature_name using_ validated_only
                    kwargs None w.
Proof.
  intros [HF|[Hp ->]];
    unfold register_labels, register_labels_try, placeholder_stage.
  - rewrite HF. reflexivity.
  - rewrite Hp. reflexivity.
Qed.

Lemma dataframe_read_for_features_only_witness :
  register_labels store_ops Examples.tissue_values Examples.tissue "tissue"
                  (Some "atlas") false None (Some Examples.measurements)
                  (initial "warning" Examples.tissue_store)
  = register_labels store_ops Examples.tissue_values Examples.tissue
                    "tissue" (Some "atlas") false None None
                    (initial "warning" Examples.tissue_store).
Proof.
  apply (@dataframe_read_for_features_only Store store_ops
           Examples.tissue_values Examples.tissue "tissue" (Some "atlas")
           false None Examples.measurements
           (initial "warning" Examples.tissue_store)).
  left. reflexivity.
Defined.

(** * The keyword arguments of the placeholders *)

Section PlaceholderKwargs.

Variable B : Type.
Variable ops : Backend B.
Variable field : FieldAttr.
Variable kwargs0 : Kwargs.

Let registry := field_model field.

(** [kw] is [kwargs0] but for the keys the loop writes. *)
Let agrees (kw : Kwargs) : Prop :=
  forall k,
    k <> field_name field ->
    is_Feature registry = false \/ k <> "type" ->
    dict_get k kw = dict_get k kwargs0.

Lemma placeholder_kwargs_agrees value kw :
  agrees kw -> agrees (placeholder_kwargs registry field value kw).
Proof.
  intros H k Hk Hty. unfold placeholder_kwargs.
  destruct (is_Feature registry) eqn:HF.
  - destruct Hty as [Hty|Hty]; [discriminate Hty|].
    rewrite dict_get_set_other by exact Hty.
    rewrite dict_get_set_other by exact Hk.
    apply H; [exact Hk|right; exact Hty].
  - rewrite dict_get_set_other by exact Hk.
    apply H; [exact Hk|left; reflexivity].
Qed.

Lemma placeholder_kwargs_written value kw :
  (is_Feature registry = true ->
   dict_get "type" (placeholder_kwargs registry field value kw)
   = Some "category")
  /\ (is_Feature registry = false \/ field_name field <> "type" ->
      dict_get (field_name field)
               (placeholder_kwargs registry field value kw) <> None).
Proof.
  unfold placeholder_kwargs. split.
  - intros ->. apply dict_get_set_same.
  - intro H. destruct (is_Feature registry) eqn:HF.
    + destruct H as [H|H]; [discriminate H|].
      rewrite dict_get_set_other by exact H.
      rewrite dict_get_set_same. discriminate.
    + rewrite dict_get_set_same. discriminate.
Qed.

Lemma adds_placeholder_records_carry vals kw acc :
  agrees kw ->
  adds (carries field kwargs0)
       (placeholder_records ops registry field vals kw acc).
Proof.
  revert kw acc. induction vals as [|v rest IH]; intros kw acc Hkw; simpl.
  - apply adds_ret.
  - apply adds_bind.
    + apply adds_call. simpl. split.
      * apply placeholder_kwargs_agrees. exact Hkw.
      * apply placeholder_kwargs_written.
    + intro r. apply IH. apply placeholder_kwargs_agrees. exact Hkw.
Qed.

Lemma adds_one_stage_carry (A : Type) s (m : M B A) :
  s <> Placeholder ->
  adds (fun e => fst e = s) m -> adds (carries field kwargs0) m.
Proof.
  intros Hs. apply adds_weaken. intros [s0 op] He. simpl in He. subst s0.
  destruct s; try exact I. contradiction Hs. reflexivity.
Qed.

Lemma adds_placeholder_stage_carry using_ validated_only df lr :
  adds (carries field kwargs0)
       (placeholder_stage ops registry field using_ validated_only kwargs0
                          df lr).
Proof.
  assert (H0 : agrees kwargs0) by (intros k _ _; reflexivity).
  unfold placeholder_stage.
  destruct (negb validated_only); [|apply adds_ret].
  assert (HF : is_Feature registry = true \/ is_Feature registry = false)
    by (destruct (is_Feature registry); auto).
  destruct df as [df'|]; [destruct HF as [HF|HF]; rewrite HF|].
  - apply adds_bind; [apply adds_call; exact I|intro recs].
    apply adds_bind; [apply adds_not_in_buckets|intro wr].
    apply adds_bind; [apply adds_call; exact I|intros _]. apply adds_ret.
  - apply adds_bind; [apply adds_getitem|intro vals].
    apply adds_bind;
      [apply adds_placeholder_records_carry; exact H0|intro recs].
    apply adds_bind; [apply adds_call; exact I|intros _]. apply adds_ret.
  - apply adds_bind; [apply adds_getitem|intro vals].
    apply adds_bind;
      [apply adds_placeholder_records_carry; exact H0|intro recs].
    apply adds_bind; [apply adds_call; exact I|intros _]. apply adds_ret.
Qed.

Lemma adds_try_carry values feature_name using_ validated_only df v :
  adds (carries field kwargs0)
       (register_labels_try ops values field feature_name using_
                            validated_only kwargs0 df v).
Proof.
  unfold register_labels_try. cbv zeta.
  apply adds_bind; [apply adds_set_verbosity|intros _].
  apply adds_bind; [apply adds_call; exact I|intro irc].
  destruct (Nat.eqb _ 0); [repeat adds_step|].
  apply adds_bind.
  { apply (@adds_one_stage_carry _ CrossInstance); [discriminate|].
    apply adds_from_using. }
  intro res.
  apply adds_bind.
  { apply (@adds_one_stage_carry _ PublicReference); [discriminate|].
    apply adds_from_values_records. }
  intro fvr.
  apply adds_bind; [apply adds_call; exact I|intros _].
  apply adds_bind; [apply adds_getattrs|intro fp].
  apply adds_bind; [apply adds_not_in_bucket|intro wr].
  apply adds_bind; [apply adds_placeholder_stage_carry|intro lr].
  apply adds_bind; [|intros _; apply adds_ret].
  destruct (is_ULabel (field_model field)
            && String.eqb (field_name field) "name"); [|apply adds_ret].
  apply (@adds_one_stage_carry _ HierarchyLink); [discriminate|].
  apply adds_with_parent.
Qed.

End PlaceholderKwargs.

(** X17. Whatever the backend answers, and on both exits, every
    placeholder that [register_labels] constructs gets the caller's keyword
    arguments, with the field's name set, and for features the type set to
    [category]: the dict the loop of lines 146-151 writes to from one turn
    to the next differs from the caller's at those keys only. *)
Theorem placeholders_carry_caller_kwargs (B : Type) (ops : Backend B)
    values field feature_name using_ validated_only
    (kwargs : option Kwargs) df (w : World B) :
  exists d,
    trace (world_of (register_labels ops values field feature_name using_
                                     validated_only kwargs df w))
    = trace w ++ d
    /\ Forall (carries field
                       (match kwargs with None => [] | Some k => k end)) d.
Proof.
  revert w.
  change (adds (carries field
                        (match kwargs with None => [] | Some k => k end))
               (register_labels ops values field feature_name using_
                                validated_only kwargs df)).
  unfold register_labels. cbv zeta.
  apply adds_bind; [apply adds_call; exact I|intros _].
  apply adds_bind; [apply adds_get_verbosity|intro v].
  apply adds_bind.
  - apply adds_try_finally; [apply adds_try_carry|apply adds_set_verbosity].
  - intros [|lr]; [apply adds_ret|].
    apply adds_bind; [|intros _; apply adds_ret].
    eapply adds_weaken; [|apply adds_log].
    intros [s op] He. simpl in He. subst s. exact I.
Qed.

(** * Calling twice *)

(** ** What is handed to a save is stored *)

Lemma saves_stored_pure (A : Type) (m : M Store A) :
  (forall w, trace (world_of (m w)) = trace w
             /\ backend (world_of (m w)) = backend w) ->
  saves_stored m.
Proof.
  intros H w. destruct (H w) as [Ht Hb]. exists [].
  rewrite Ht, Hb, app_nil_r. split; [reflexivity|].
  split; [apply incl_refl|intros e r []].
Qed.

Lemma saves_stored_ret (A : Type) (a : A) : saves_stored (@ret Store A a).
Proof. apply saves_stored_pure. intro w. split; reflexivity. Qed.

Lemma saves_stored_set_verbosity v : saves_stored (@set_verbosity Store v).
Proof. apply saves_stored_pure. intro w. split; reflexivity. Qed.

Lemma saves_stored_getitem (V : Type) k (d : Dict V) :
  saves_stored (@getitem Store V k d).
Proof.
  apply saves_stored_pure. intro w. unfold getitem.
  destruct (dict_get k d); split; reflexivity.
Qed.

Lemma saves_stored_getattr r attr : saves_stored (@getattr Store r attr).
Proof.
  apply saves_stored_pure. intro w. unfold getattr.
  destruct (dict_get attr r); split; reflexivity.
Qed.

Lemma saves_stored_emit st op :
  submitted (st, op) = [] -> saves_stored (@emit Store st op).
Proof.
  intros Hs w. exists [(st, op)]. split; [reflexivity|].
  split; [apply incl_refl|].
  intros e r [<-|[]] Hr. rewrite Hs in Hr. destruct Hr.
Qed.

Lemma saves_stored_call (A : Type) st op (f : Store -> Res Store A) :
  (forall b,
      let b' := match f b with Ok _ s => s | Raise _ s => s end in
      incl (local b) (local b')
      /\ incl (submitted (st, op)) (local b')) ->
  saves_stored (call st op f).
Proof.
  intros H w. exists [(st, op)]. unfold call.
  specialize (H (backend w)). cbv zeta in H.
  destruct (f (backend w)) as [a b|e b]; simpl;
    (split; [reflexivity|]); (split; [apply H|]);
    intros e' r [<-|[]] Hr; apply H; exact Hr.
Qed.

Lemma saves_stored_bind (A C : Type) (m : M Store A) (k : A -> M Store C) :
  saves_stored m -> (forall a, saves_stored (k a)) ->
  saves_stored (bind m k).
Proof.
  intros Hm Hk w. unfold bind. destruct (Hm w) as (d & Hd & Hi & Hs).
  destruct (m w) as [a w1|e w1]; simpl in *.
  - destruct (Hk a w1) as (d' & Hd' & Hi' & Hs').
    exists (d ++ d'). rewrite Hd', Hd, app_assoc. split; [reflexivity|].
    split.
    + intros r Hr. apply Hi'. apply Hi. exact Hr.
    + intros e r He Hr. apply in_app_or in He. destruct He as [He|He].
      * apply Hi'. eapply Hs; eassumption.
      * eapply Hs'; eassumption.
  - exists d. split; [exact Hd|]. split; assumption.
Qed.

Lemma saves_stored_try_finally (A : Type) (m : M Store A) v :
  saves_stored m -> saves_stored (try_finally m (set_verbosity v)).
Proof.
  intros Hm w. unfold try_finally, set_verbosity.
  destruct (Hm w) as (d & Hd & Hi & Hs). exists d.
  destruct (m w) as [a w1|e w1]; simpl in *;
    (split; [exact Hd|]); split; assumption.
Qed.

(** A collaborator that leaves the local registry as it is. *)
Lemma saves_stored_reader (A : Type) st op (f : Store -> Res Store A) :
  submitted (st, op) = [] ->
  (forall b, local (match f b with Ok _ s => s | Raise _ s => s end)
             = local b) ->
  saves_stored (call st op f).
Proof.
  intros Hs Hf. apply saves_stored_call. intro b. cbv zeta.
  rewrite Hf, Hs. split; [apply incl_refl|intros r []].
Qed.

Ltac reads_only :=
  apply saves_stored_reader; [reflexivity|];
  intro b;
  cbv [store_ops check_if_registry_needs_organism registry_using inspect
       filter_in from_values Feature_from_df construct filter_one_or_none
       children_add store_check_organism store_registry_using
       store_inspect store_filter_in store_from_values store_from_df
       store_construct store_one_or_none store_children_add records_of];
  repeat match goal with
         | |- context [match ?x with _ => _ end] =>
             lazymatch x with
             | context [match _ with _ => _ end] => fail
             | _ => destruct x
             end
         end;
  reflexivity.

Lemma saves_stored_record_save st r :
  saves_stored (call st (ORecordSave r) (record_save store_ops r)).
Proof.
  apply saves_stored_call. intro b. cbn. split.
  - intros x Hx. apply persist_incl. exact Hx.
  - intros x [<-|[]]. apply persist_In.
Qed.

Lemma saves_stored_ln_save st rs :
  saves_stored (call st (OSave rs) (ln_save store_ops rs)).
Proof.
  apply saves_stored_call. intro b. cbn. split.
  - intros x Hx. apply persist_all_incl. exact Hx.
  - intros x Hx. apply persist_all_In. exact Hx.
Qed.

Lemma saves_stored_getattrs rs attr : saves_stored (@getattrs Store rs attr).
Proof.
  induction rs as [|r rs IH]; simpl.
  - apply saves_stored_ret.
  - apply saves_stored_bind; [apply saves_stored_getattr|intro v].
    apply saves_stored_bind; [exact IH|intro vs]. apply saves_stored_ret.
Qed.

Lemma saves_stored_not_in_bucket xs key d :
  saves_stored (@not_in_bucket Store xs key d).
Proof.
  induction xs as [|i rest IH]; simpl.
  - apply saves_stored_ret.
  - apply saves_stored_bind; [apply saves_stored_getitem|intro b].
    apply saves_stored_bind; [exact IH|intro keep]. apply saves_stored_ret.
Qed.

Lemma saves_stored_not_in_buckets cols k1 k2 d :
  saves_stored (@not_in_buckets Store cols k1 k2 d).
Proof.
  induction cols as [|c rest IH]; simpl.
  - apply saves_stored_ret.
  - apply saves_stored_bind; [apply saves_stored_getitem|intro b1].
    apply saves_stored_bind.
    + destruct (negb (str_in c b1)); [|apply saves_stored_ret].
      apply saves_stored_bind; [apply saves_stored_getitem|intro b2].
      apply saves_stored_ret.
    + intro here. apply saves_stored_bind; [exact IH|intro keep].
      apply saves_stored_ret.
Qed.

Lemma saves_stored_save_labels_using labels field acc :
  saves_stored (save_labels_using store_ops labels field acc).
Proof.
  revert acc. induction labels as [|r rs IH]; intro acc; simpl.
  - apply saves_stored_ret.
  - apply saves_stored_bind; [apply saves_stored_record_save|intros _].
    apply saves_stored_bind; [apply saves_stored_getattr|intro v].
    apply IH.
Qed.

Lemma saves_stored_from_using values field using_ kwargs :
  saves_stored (register_labels_from_using_instance store_ops values field
                                                    using_ kwargs).
Proof.
  unfold register_labels_from_using_instance.
  destruct using_ as [u|]; [|apply saves_stored_ret].
  destruct (negb (String.eqb u "default")); [|apply saves_stored_ret].
  apply saves_stored_bind; [reads_only|intro h].
  apply saves_stored_bind; [reads_only|intro ir].
  apply saves_stored_bind; [reads_only|intro labels].
  apply saves_stored_bind;
    [apply saves_stored_save_labels_using|intro copied].
  apply saves_stored_ret.
Qed.

Lemma saves_stored_with_parent values field feature_name :
  saves_stored (register_ulabels_with_parent store_ops values field
                                             feature_name).
Proof.
  unfold register_ulabels_with_parent.
  destruct (negb (is_ULabel (field_model field))).
  { apply saves_stored_pure. intro w. split; reflexivity. }
  apply saves_stored_bind; [reads_only|intro all].
  apply saves_stored_bind; [reads_only|intro found].
  apply saves_stored_bind; [|intro p; reads_only].
  destruct found as [p|]; [apply saves_stored_ret|].
  apply saves_stored_bind; [reads_only|intro r].
  apply saves_stored_bind; [apply saves_stored_record_save|intros _].
  apply saves_stored_ret.
Qed.

Lemma saves_stored_log_items labels_type feature_name model_field
    validated_only items :
  saves_stored (@log_items Store labels_type feature_name model_field
                           validated_only items).
Proof.
  induction items as [|[key labels] rest IH]; simpl.
  - apply saves_stored_ret.
  - apply saves_stored_bind; [|intros _; exact IH].
    unfold log_item.
    destruct (Nat.ltb 0 (List.length labels)); [|apply saves_stored_ret].
    destruct (String.eqb key "without reference" && validated_only);
      apply saves_stored_emit; reflexivity.
Qed.

Lemma saves_stored_placeholder_records registry field vals kwargs acc :
  saves_stored (placeholder_records store_ops registry field vals kwargs
                                    acc).
Proof.
  revert kwargs acc. induction vals as [|v rest IH]; intros kwargs acc;
    simpl.
  - apply saves_stored_ret.
  - apply saves_stored_bind; [reads_only|intro r]. apply IH.
Qed.

Lemma saves_stored_placeholder_stage registry field using_ validated_only
    kwargs df lr :
  saves_stored (placeholder_stage store_ops registry field using_
                                  validated_only kwargs df lr).
Proof.
  unfold placeholder_stage.
  destruct (negb validated_only); [|apply saves_stored_ret].
  destruct df as [df'|]; [destruct (is_Feature registry)|].
  - apply saves_stored_bind; [reads_only|intro recs].
    apply saves_stored_bind; [apply saves_stored_not_in_buckets|intro wr].
    apply saves_stored_bind; [apply saves_stored_ln_save|intros _].
    apply saves_stored_ret.
  - apply saves_stored_bind; [apply saves_stored_getitem|intro vals].
    apply saves_stored_bind;
      [apply saves_stored_placeholder_records|intro recs].
    apply saves_stored_bind; [apply saves_stored_ln_save|intros _].
    apply saves_stored_ret.
  - apply saves_stored_bind; [apply saves_stored_getitem|intro vals].
    apply saves_stored_bind;
      [apply saves_stored_placeholder_records|intro recs].
    apply saves_stored_bind; [apply saves_stored_ln_save|intros _].
    apply saves_stored_ret.
Qed.

Lemma saves_stored_try values field feature_name using_ validated_only
    kwargs df v :
  saves_stored (register_labels_try store_ops values field feature_name
                                    using_ validated_only kwargs df v).
Proof.
  unfold register_labels_try. cbv zeta.
  apply saves_stored_bind; [apply saves_stored_set_verbosity|intros _].
  apply saves_stored_bind; [reads_only|intro irc].
  destruct (Nat.eqb _ 0).
  { apply saves_stored_bind; [apply saves_stored_set_verbosity|intros _].
    apply saves_stored_ret. }
  apply saves_stored_bind; [apply saves_stored_from_using|intro res].
  apply saves_stored_bind.
  { unfold from_values_records.
    destruct (Nat.ltb 0 (List.length (snd res)));
      [reads_only|apply saves_stored_ret]. }
  intro fvr.
  apply saves_stored_bind; [apply saves_stored_ln_save|intros _].
  apply saves_stored_bind; [apply saves_stored_getattrs|intro fp].
  apply saves_stored_bind; [apply saves_stored_not_in_bucket|intro wr].
  apply saves_stored_bind; [apply saves_stored_placeholder_stage|intro lr].
  apply saves_stored_bind; [|intros _; apply saves_stored_ret].
  destruct (is_ULabel (field_model field)
            && String.eqb (field_name field) "name");
    [apply saves_stored_with_parent|apply saves_stored_ret].
Qed.

Lemma saves_stored_register_labels values field feature_name using_
    validated_only (kwargs : option Kwargs) df :
  saves_stored (register_labels store_ops values field feature_name using_
                                validated_only kwargs df).
Proof.
  unfold register_labels. cbv zeta.
  apply saves_stored_bind; [reads_only|intros _].
  apply saves_stored_bind.
  { apply saves_stored_pure. intro w. split; reflexivity. }
  intro v.
  apply saves_stored_bind.
  { apply saves_stored_try_finally. apply saves_stored_try. }
  intros [|lr]; [apply saves_stored_ret|].
  apply saves_stored_bind; [|intros _; apply saves_stored_ret].
  apply saves_stored_log_items.
Qed.

(** ** A call on values that are all known *)

(** On the store, a call whose values the local registry validates in
    full makes the organism check and the inspection and nothing else. *)
Lemma settled_call_store values field feature_name using_ validated_only
    (kwargs : option Kwargs) df (w : World Store) :
  organism_scoped (backend w)
  && match dict_get "organism"
                    (match kwargs with None => [] | Some k => k end) with
     | None => true
     | Some _ => false
     end = false ->
  unresolved field (backend w) values = [] ->
  register_labels store_ops values field feature_name using_ validated_only
                  kwargs df w
  = Ok None
       (retrace w
          (trace w
           ++ [(Start,
                OCheckOrganism
                  (dict_get "organism"
                            (match kwargs with None => [] | Some k => k end)));
               (LocalInspect,
                OInspect (current (field_model field)) values)])
          (backend w)).
Proof.
  intros Hchk Hnil.
  assert (Hc : exists c,
             check_if_registry_needs_organism store_ops (field_model field)
               (dict_get "organism"
                         (match kwargs with None => [] | Some k => k end))
               (backend w) = Ok c (backend w)).
  { cbn. unfold store_check_organism.
    destruct (organism_scoped (backend w)); simpl in Hchk.
    - destruct (dict_get "organism"
                         (match kwargs with None => [] | Some k => k end));
        [|discriminate Hchk].
      eexists. reflexivity.
    - eexists. reflexivity. }
  destruct Hc as [c Hc].
  assert (Hi : inspect store_ops (current (field_model field)) values field
                 (match kwargs with None => [] | Some k => k end)
                 (backend w)
               = Ok {| validated :=
                         filter (known (field_name field)
                                       (local (backend w)))
                                (distinct values);
                       non_validated :=
                         unresolved field (backend w) values |}
                    (backend w)) by reflexivity.
  unfold register_labels.
  erewrite bind_Ok_intro; [|apply call_Ok_intro; exact Hc].
  erewrite bind_Ok_intro; [|reflexivity].
  erewrite bind_Ok_intro.
  2:{ unfold try_finally, register_labels_try.
      erewrite bind_Ok_intro; [|reflexivity].
      erewrite bind_Ok_intro; [|apply call_Ok_intro; exact Hi].
      cbn [non_validated]. rewrite Hnil. simpl. reflexivity. }
  simpl. unfold retrace. simpl. rewrite <- app_assoc. reflexivity.
Qed.

Lemma register_labels_settled values field feature_name using_
    validated_only (kwargs : option Kwargs) df (w w' : World Store) rv :
  register_labels store_ops values field feature_name using_ validated_only
                  kwargs df w = Ok rv w' ->
  unresolved field (backend w) values = [] ->
  trace w'
  = trace w
    ++ [(Start,
         OCheckOrganism
           (dict_get "organism"
                     (match kwargs with None => [] | Some k => k end)));
        (LocalInspect, OInspect (current (field_model field)) values)]
  /\ backend w' = backend w.
Proof.
  intros H Hnil.
  pose proof (register_labels_store values field feature_name using_
                validated_only kwargs df w) as P.
  cbv zeta in P.
  match type of P with
  | if ?c then _ else _ => destruct c eqn:Hchk
  end.
  { destruct P as [tr P]. rewrite P in H. discriminate H. }
  clear P.
  rewrite (@settled_call_store values field feature_name using_
             validated_only kwargs df w Hchk Hnil) in H.
  inversion H; subst. split; reflexivity.
Qed.

(** With placeholders on, off the dataframe branch and the type field of
    features, a call that returns leaves nothing unresolved. *)
Lemma nothing_left_unresolved values field feature_name using_
    validated_only (kwargs : option Kwargs) df (w w' : World Store) rv :
  register_labels store_ops values field feature_name using_ validated_only
                  kwargs df w = Ok rv w' ->
  reg_public (field_model field) = false \/ validated_only = false ->
  is_Feature (field_model field) = false
  \/ (df = None /\ field_name field <> "type") ->
  unresolved field (backend w') values = [].
Proof.
  intros H Hvo Hedge.
  destruct (register_labels_returned _ _ _ _ _ _ _ _ H) as [_ Hr].
  cbv zeta in Hr.
  assert (Evo : (if negb (reg_public (field_model field)) then false
                 else validated_only) = false).
  { destruct Hvo as [-> | ->]; [reflexivity|].
    destruct (negb (reg_public (field_model field))); reflexivity. }
  rewrite Evo in Hr.
  destruct Hr as [[HN Hb]|[HN [lr Hso]]].
  - rewrite Hb. exact HN.
  - apply store_outcome_inv in Hso.
    destruct Hso as (fu & nvl & st2 & Huo & Hso). cbv zeta in Hso.
    destruct Hso as [_ Hlink].
    apply (@second_all_known values field feature_name using_ false
             (match kwargs with None => [] | Some k => k end) df
             (backend w) (backend w') fu nvl st2 Huo Hlink eq_refl).
    + unfold df_path. simpl negb.
      destruct Hedge as [HF|[-> _]]; [|reflexivity].
      rewrite HF. destruct df; reflexivity.
    + destruct Hedge as [HF|[_ Hty]]; [rewrite HF; reflexivity|].
      apply andb_false_iff. right. apply String.eqb_neq. exact Hty.
Qed.

(** ** The second call *)

(** C9, as the code has it. When a call of [register_labels] has returned,
    the same call made again on the world it left returns too and persists
    no record: the local registry holds exactly the records it held, and
    every record the second call hands to a save was stored already.  When
    nothing is left to resolve, which is the case whenever the first call
    made placeholders off the dataframe branch, the second call makes no
    save call at all: it checks the organism, inspects, and returns.
    Otherwise it saves again what is stored.  Where labels have no public
    reference the parent links are those before it as well.  And whenever
    no value reaches the public reference stage, the construction of lines
    122-126 is not called: the records are [[]] and the world, trace
    included, is untouched. *)
Theorem second_call_persists_nothing values field feature_name using_
    validated_only (kwargs : option Kwargs) df (w w1 : World Store) rv :
  register_labels store_ops values field feature_name using_ validated_only
                  kwargs df w = Ok rv w1 ->
  (exists w2 d,
      register_labels store_ops values field feature_name using_
                      validated_only kwargs df w1 = Ok None w2
      /\ trace w2 = trace w1 ++ d
      /\ local (backend w2) = local (backend w1)
      /\ (forall e r,
             In e d -> In r (submitted e) -> In r (local (backend w1)))
      /\ (unresolved field (backend w1) values = []
          \/ ((reg_public (field_model field) = false
               \/ validated_only = false)
              /\ (is_Feature (field_model field) = false
                  \/ (df = None /\ field_name field <> "type"))) ->
          d = [(Start,
                OCheckOrganism
                  (dict_get "organism"
                            (match kwargs with None => [] | Some k => k end)));
               (LocalInspect,
                OInspect (current (field_model field)) values)]
          /\ backend w2 = backend w1)
      /\ ((is_ULabel (field_model field) = true ->
           reg_public (field_model field) = false) ->
          links (backend w2) = links (backend w1)))
  /\ (forall (B : Type) (ops : Backend B) registry fld kw (wB : World B),
         from_values_records ops registry fld kw [] wB = Ok [] wB).
Proof.
  intro H. split; [|intros; reflexivity].
  destruct (proj1 (@second_call_returns values field feature_name using_
                     validated_only kwargs df w w1 rv H))
    as (w2 & H2 & Hloc & Hlinks).
  destruct (@saves_stored_register_labels values field feature_name using_
              validated_only kwargs df w1) as (d & Hd & _ & Hs).
  rewrite H2 in Hd, Hs. simpl in Hd, Hs.
  exists w2, d. split; [exact H2|]. split; [exact Hd|].
  split; [exact Hloc|]. split.
  { intros e r He Hr. rewrite <- Hloc. eapply Hs; eassumption. }
  split; [|exact Hlinks].
  intro Hcase.
  assert (Hnil : unresolved field (backend w1) values = []).
  { destruct Hcase as [Hnil|[Hvo Hedge]]; [exact Hnil|].
    eapply nothing_left_unresolved; eassumption. }
  destruct (@register_labels_settled values field feature_name using_
              validated_only kwargs df w1 w2 None H2 Hnil) as [Ht Hb].
  split; [|exact Hb].
  rewrite Ht in Hd. apply app_inv_head in Hd. symmetry. exact Hd.
Qed.

(** The three-tissue call, made twice under [validated_only]. *)
Lemma second_call_persists_nothing_witness :
  exists w1 w2 d,
    register_labels store_ops Examples.tissue_values Examples.tissue
                    "tissue" (Some "atlas") true None None
                    (initial "warning" Examples.tissue_store)
    = Ok None w1
    /\ register_labels store_ops Examples.tissue_values Examples.tissue
                       "tissue" (Some "atlas") true None None w1
       = Ok None w2
    /\ trace w2 = trace w1 ++ d
    /\ local (backend w2) = local (backend w1)
    /\ (forall e r,
           In e d -> In r (submitted e) -> In r (local (backend w1))).
Proof.
  pose (w1 := world_of
                (register_labels store_ops Examples.tissue_values
                   Examples.tissue "tissue" (Some "atlas") true None None
                   (initial "warning" Examples.tissue_store))).
  assert (H : register_labels store_ops Examples.tissue_values
                Examples.tissue "tissue" (Some "atlas") true None None
                (initial "warning" Examples.tissue_store)
              = Ok None w1) by (vm_compute; reflexivity).
  destruct (proj1 (@second_call_persists_nothing Examples.tissue_values
                     Examples.tissue "tissue" (Some "atlas") true None None
                     (initial "warning" Examples.tissue_store) w1 None H))
    as (w2 & d & H2 & Hd & Hloc & Hs & _).
  exists w1, w2, d. split; [exact H|]. split; [exact H2|].
  split; [exact Hd|]. split; [exact Hloc|exact Hs].
Defined.

(** C9 as stated fails on the dataframe branch: the value ["batch"] is no
    column, so it stays unresolved, and the second call saves again: an
    empty list at line 127, and at line 152 the feature records of the
    columns, which the first call had saved. *)
Lemma second_call_saves_again_counterexample :
  let call :=
    register_labels store_ops ["batch"] Examples.feature "feature" None
                    false None (Some Examples.measurements) in
  let w1 := world_of (call (initial "warning" Examples.feature_store)) in
  let w2 := world_of (call w1) in
  call (initial "warning" Examples.feature_store) = Ok None w1
  /\ call w1 = Ok None w2
  /\ In (PublicReference, OSave [])
        (skipn (List.length (trace w1)) (trace w2))
  /\ In (Placeholder,
         OSave [Examples.named "age"; Examples.named "dose"])
        (skipn (List.length (trace w1)) (trace w2))
  /\ local (backend w2) = local (backend w1).
Proof.
  cbv zeta. split; [vm_compute; reflexivity|].
  split; [vm_compute; reflexivity|].
  split; [vm_compute; find_in|].
  split; [vm_compute; find_in|].
  vm_compute. reflexivity.
Qed.

(** * Registries without a public reference *)



